(** * nativefs: asynchronous copy and move of files (src/main.cc)

    A shallow embedding of the copy/move engine of [main.cc] and the
    properties of its completion, progress and clean-up behaviour.

    The engine talks to two outside parties: the operating system (open,
    fstat, read, write, close, fsync, remove, rename, errno) and the
    JavaScript caller (the thrown TypeError and the two callbacks).  The
    operating system is an abstract world [W] with one transition function
    per system call ([Posix W]); every call the source makes is logged, in
    program order, in a trace of [event]s.  Theorems quantify over every
    world; two concrete worlds (a replayed script of kernel replies and a
    small reference file system) give executable runs.

    The two loops of the source ([doWrite]'s retry and the read loop) take
    fuel; a run is a result for some amount of fuel, and more fuel never
    changes it ([Copy_more_fuel], [Move_more_fuel]).

    Integers: [int], [ssize_t] and [off_t] values are [Z].  The byte counters
    of the copy loop only ever hold sums of read results, far from the 63-bit
    range, so signed wrap-around (undefined in C++) is not modelled; the one
    unsigned conversion of the source, [(size_t) written], is written out.
    Numbers handed to the callbacks are the [Z] value of the [double]. *)

From stdpp Require Import base numbers list strings gmap.
From Stdlib.Strings Require Import Byte.
From Stdlib.Sorting Require Import Sorted.

Open Scope Z_scope.

(** ** Values of the JavaScript side *)

Inductive Value :=
| VUndefined
| VNull
| VBool (b : bool)
| VNumber (n : Z)
| VString (s : string)
| VFunction (f : nat).

Definition IsString (v : Value) : bool :=
  match v with VString _ => true | _ => false end.

Definition IsFunction (v : Value) : bool :=
  match v with VFunction _ => true | _ => false end.

(** [std::string get(v8::Local<v8::Value>)] *)
Definition get (value : Value) : string :=
  match value with VString s => s | _ => "" end.

(** [Local<Function>]: [None] is the empty handle of a default-constructed
    [Property<Local<Function>>]. *)
Definition LocalFunction := option nat.

(** [Local<Function>::Cast] *)
Definition Cast (v : Value) : LocalFunction :=
  match v with VFunction f => Some f | _ => None end.

(** [args[i]] of a [FunctionCallbackInfo]: [undefined] past [Length()]. *)
Definition arg (args : list Value) (i : nat) : Value := nth i args VUndefined.

(** ** The operating system *)

Inductive oflag := O_RDONLY | O_WRONLY | O_CREAT | O_TRUNC | O_BINARY.

Record stat := { st_mode : Z; st_size : Z; st_dev : Z }.

(** Every call of the engine that leaves the C++ code, with its arguments
    and what it returned. *)
Inductive event :=
| EThrow (errorText : string)
| EOpen (path : string) (flags : list oflag) (mode : option Z) (ret : Z)
| EFstat (fd : Z) (ret : Z)
| ERead (fd : Z) (count : Z) (ret : Z)
| EWrite (fd : Z) (data : list byte) (ret : Z)
| EClose (fd : Z) (ret : Z)
| EFsync (fd : Z)
| ERemove (path : string) (ret : Z)
| ERename (oldpath newpath : string) (ret : Z)
| ECall (f : LocalFunction) (argv : list Value).

(** The system calls as transitions of a world.  [sys_read] returns the
    count and the contents of the buffer after the call; [sys_write] gets the
    bytes [data, data + datalen); [sys_errno] reads the thread's [errno]. *)
Class Posix (W : Type) := {
  sys_open : string → list oflag → option Z → W → Z * W;
  sys_fstat : Z → W → (Z * stat) * W;
  sys_read : Z → Z → W → (Z * list byte) * W;
  sys_write : Z → list byte → W → Z * W;
  sys_close : Z → W → Z * W;
  sys_fsync : Z → W → W;
  sys_remove : string → W → Z * W;
  sys_rename : string → string → W → Z * W;
  sys_errno : W → Z;
  strerror : Z → string
}.

(** ** The monad of the engine: world passing, a trace, and fuel

    [None] is a run that needed more fuel than it was given. *)

Definition M (W A : Type) : Type := W → option (A * W * list event).

Definition ret {W A} (a : A) : M W A := λ w, Some (a, w, []).

Definition bind {W A B} (m : M W A) (k : A → M W B) : M W B := λ w,
  match m w with
  | None => None
  | Some (a, w1, t1) =>
      match k a w1 with
      | None => None
      | Some (b, w2, t2) => Some (b, w2, t1 ++ t2)
      end
  end.

Definition out_of_fuel {W A} : M W A := λ _, None.

Definition emit {W} (e : event) : M W unit := λ w, Some (tt, w, [e]).

Definition syscall {W A} (f : W → A * W) (log : A → event) : M W A := λ w,
  let '(a, w') := f w in Some (a, w', [log a]).

Declare Scope engine_scope.
Delimit Scope engine_scope with M.
Notation "'let*' x ':=' m 'in' k" := (bind m (λ x, k))
  (at level 10, x name, m at level 100, k at level 200) : engine_scope.
Notation "'let*' ' pat ':=' m 'in' k" := (bind m (λ x, match x with pat => k end))
  (at level 10, pat pattern, m at level 100, k at level 200) : engine_scope.
Notation "m1 ';;;' m2" := (bind m1 (λ _, m2))
  (at level 100, m2 at level 200, right associativity) : engine_scope.

(** ** The engine *)

Record Args := {
  Source : string;
  Destination : string;
  ProgressCallback : LocalFunction;
  ResultCallback : LocalFunction;
  UpdateProgress : bool
}.

Definition BUFFER_SIZE : Z := 16384.

(** [(size_t) written] on an LP64 target. *)
Definition to_size_t (z : Z) : Z := z mod 2 ^ 64.

(** The largest value of [ssize_t], the type of what [write] returns, on an
    LP64 target. *)
Definition SSIZE_MAX : Z := 2 ^ 63 - 1.

Inductive loop_exit :=
| WriteFailed
| ReadEnded (bytes_read : Z).

Section Engine.
Context {W : Type} `{!Posix W}.
Local Open Scope engine_scope.

Definition c_open (path : string) (flags : list oflag) (mode : option Z) : M W Z :=
  syscall (sys_open path flags mode) (EOpen path flags mode).

Definition c_fstat (fd : Z) : M W (Z * stat) :=
  syscall (sys_fstat fd) (λ r, EFstat fd r.1).

Definition c_read (fd : Z) (count : Z) : M W (Z * list byte) :=
  syscall (sys_read fd count) (λ r, ERead fd count r.1).

Definition c_write (fd : Z) (data : list byte) (datalen : Z) : M W Z :=
  let bytes := take (Z.to_nat datalen) data in
  syscall (sys_write fd bytes) (EWrite fd bytes).

Definition c_close (fd : Z) : M W Z :=
  syscall (sys_close fd) (EClose fd).

Definition c_fsync (fd : Z) : M W unit :=
  λ w, Some (tt, sys_fsync fd w, [EFsync fd]).

Definition c_remove (path : string) : M W Z :=
  syscall (sys_remove path) (ERemove path).

Definition c_rename (oldpath newpath : string) : M W Z :=
  syscall (sys_rename oldpath newpath) (ERename oldpath newpath).

Definition errno : M W Z := λ w, Some (sys_errno w, w, []).

(** [ThrowError]: schedules a TypeError on the isolate and returns. *)
Definition ThrowError (errorText : string) : M W unit := emit (EThrow errorText).

(** [Args::Args].  A constructor that throws returns with every member as
    default-constructed: empty strings, empty handles, and a [bool] that was
    never written, whose value is [uninit]. *)
Definition Args_new (uninit : bool) (args : list Value) : M W Args :=
  let blank := {| Source := ""; Destination := "";
                  ProgressCallback := None; ResultCallback := None;
                  UpdateProgress := uninit |} in
  if Z.of_nat (length args) <? 3 then
    ThrowError "Not enough arguments" ;;; ret blank
  else if negb (IsString (arg args 0)) then
    ThrowError "First argument is not a path" ;;; ret blank
  else if negb (IsString (arg args 1)) then
    ThrowError "Second argument is not a path" ;;; ret blank
  else if negb (IsFunction (arg args 2)) then
    ThrowError "Missing result callback" ;;; ret blank
  else if (3 <? Z.of_nat (length args)) && negb (IsFunction (arg args 3)) then
    ThrowError "Unknown arguments" ;;; ret blank
  else
    let UpdateProgress := 3 <? Z.of_nat (length args) in
    ret (if UpdateProgress
         then {| Source := get (arg args 0); Destination := get (arg args 1);
                 ProgressCallback := Cast (arg args 2);
                 ResultCallback := Cast (arg args 3);
                 UpdateProgress := UpdateProgress |}
         else {| Source := get (arg args 0); Destination := get (arg args 1);
                 ProgressCallback := None;
                 ResultCallback := Cast (arg args 2);
                 UpdateProgress := UpdateProgress |}).

(** [SendProgressUpdate(const Args&, const Local<Value>&, const Local<Value>&)] *)
Definition SendProgressUpdate_values (args : Args) (completed total : Value) : M W unit :=
  if UpdateProgress args
  then emit (ECall (ProgressCallback args) [completed; total])
  else ret tt.

(** [SendProgressUpdate(const Args&, double, double)] *)
Definition SendProgressUpdate (args : Args) (completed total : Z) : M W unit :=
  if UpdateProgress args
  then SendProgressUpdate_values args (VNumber completed) (VNumber total)
  else ret tt.

Definition SendComplete (args : Args) : M W unit :=
  emit (ECall (ResultCallback args) [VNull; VBool true]).

Definition SendError (args : Args) (errorText : string) : M W unit :=
  emit (ECall (ResultCallback args) [VString errorText; VBool false]).

(** [doWrite]: [data] is the memory from the pointer on. *)
Fixpoint doWrite (fuel : nat) (fd : Z) (data : list byte) (datalen : Z) : M W Z :=
  match fuel with
  | O => out_of_fuel
  | S fuel' =>
      let* written := c_write fd data datalen in
      if written =? -1 then ret (-1)
      else if to_size_t written <? datalen then
        doWrite fuel' fd (drop (Z.to_nat written) data) (datalen - written)
      else ret written
  end.

(** The [while] loop of [Copy(int, int, ssize_t, ...)]; it is left either
    by the [goto] after a failed [doWrite] or by a read that returned a
    value that is not positive. *)
Fixpoint Copy_while (fuel : nat) (fd_in fd_out inputSize bytesPerUpdate : Z)
    (args : Args) (progress sinceLastUpdate : Z) : M W loop_exit :=
  match fuel with
  | O => out_of_fuel
  | S fuel' =>
      let* '(bytes_read, buffer) := c_read fd_in BUFFER_SIZE in
      if 0 <? bytes_read then
        let* written := doWrite fuel' fd_out buffer bytes_read in
        if written =? -1 then ret WriteFailed
        else
          let progress := progress + bytes_read in
          let sinceLastUpdate := sinceLastUpdate + bytes_read in
          if bytesPerUpdate <? sinceLastUpdate then
            SendProgressUpdate args progress inputSize ;;;
            Copy_while fuel' fd_in fd_out inputSize bytesPerUpdate args progress 0
          else
            Copy_while fuel' fd_in fd_out inputSize bytesPerUpdate args
              progress sinceLastUpdate
      else ret (ReadEnded bytes_read)
  end.

(** Label [copyByFdError]. *)
Definition copyByFdError (fd_in fd_out : Z) (args : Args) : M W unit :=
  c_close fd_in ;;;
  c_close fd_out ;;;
  c_remove (Destination args) ;;;
  let* e := errno in
  SendError args (strerror e).

(** The code of [Copy(int, int, ssize_t, ...)] after a loop that ended
    without error. *)
Definition copyDone (fd_in fd_out inputSize : Z) (args : Args)
    (removeWhenDone : bool) : M W unit :=
  SendProgressUpdate args inputSize inputSize ;;;
  c_close fd_in ;;;
  c_fsync fd_out ;;;
  c_close fd_out ;;;
  (if removeWhenDone then c_remove (Source args) ;;; ret tt else ret tt) ;;;
  SendComplete args.

(** [void Copy(int fd_in, int fd_out, ssize_t inputSize, const Args&, bool)] *)
Definition Copy_fd (fuel : nat) (fd_in fd_out inputSize : Z) (args : Args)
    (removeWhenDone : bool) : M W unit :=
  let bytesPerUpdate := inputSize `quot` 100 in
  let* x := Copy_while fuel fd_in fd_out inputSize bytesPerUpdate args 0 0 in
  match x with
  | WriteFailed => copyByFdError fd_in fd_out args
  | ReadEnded bytes_read =>
      if bytes_read =? -1 then copyByFdError fd_in fd_out args
      else copyDone fd_in fd_out inputSize args removeWhenDone
  end.

(** Labels [copyByPathError] and [moveError] (the same three lines). *)
Definition copyByPathError (args : Args) : M W unit :=
  c_remove (Destination args) ;;;
  let* e := errno in
  SendError args (strerror e).

Definition moveError (args : Args) : M W unit :=
  c_remove (Destination args) ;;;
  let* e := errno in
  SendError args (strerror e).

(** The body of [Copy(const FunctionCallbackInfo<Value>&)] after the
    construction of [args]. *)
Definition Copy_body (fuel : nat) (args : Args) : M W unit :=
  let* in_ := c_open (Source args) [O_RDONLY; O_BINARY] None in
  if in_ <? 0 then copyByPathError args
  else
    let* '(r, st) := c_fstat in_ in
    if negb (r =? 0) then c_close in_ ;;; copyByPathError args
    else
      let* out := c_open (Destination args)
                    [O_WRONLY; O_CREAT; O_TRUNC; O_BINARY] (Some (st_mode st)) in
      if out <? 0 then c_close in_ ;;; copyByPathError args
      else Copy_fd fuel in_ out (st_size st) args false.

(** [void Copy(const FunctionCallbackInfo<Value>& incoming)] *)
Definition Copy (fuel : nat) (uninit : bool) (incoming : list Value) : M W unit :=
  let* args := Args_new uninit incoming in
  Copy_body fuel args.

(** The block of [Move] that follows the two [fstat]s. *)
Definition Move_dispatch (fuel : nat) (in_ out : Z) (in_stats out_stats : stat)
    (args : Args) : M W unit :=
  let inputSize := st_size in_stats in
  if st_dev in_stats =? st_dev out_stats then
    c_close in_ ;;;
    c_close out ;;;
    c_remove (Destination args) ;;;
    c_rename (Source args) (Destination args) ;;;
    SendProgressUpdate args inputSize inputSize ;;;
    SendComplete args
  else
    Copy_fd fuel in_ out inputSize args true.

Definition Move_body (fuel : nat) (args : Args) : M W unit :=
  let* in_ := c_open (Source args) [O_RDONLY; O_BINARY] None in
  if in_ <? 0 then moveError args
  else
    let* '(r, in_stats) := c_fstat in_ in
    if negb (r =? 0) then c_close in_ ;;; moveError args
    else
      let* out := c_open (Destination args)
                    [O_WRONLY; O_CREAT; O_TRUNC; O_BINARY] (Some (st_mode in_stats)) in
      if out <? 0 then c_close in_ ;;; moveError args
      else
        let* '(r', out_stats) := c_fstat out in
        if negb (r' =? 0) then c_close in_ ;;; c_close out ;;; moveError args
        else Move_dispatch fuel in_ out in_stats out_stats args.

(** [void Move(const FunctionCallbackInfo<Value>& incoming)] *)
Definition Move (fuel : nat) (uninit : bool) (incoming : list Value) : M W unit :=
  let* args := Args_new uninit incoming in
  Move_body fuel args.

End Engine.

(** ** Reading a trace *)

(** A call of the result callback: [(null, true)] or [(text, false)]. *)
Definition is_completion (e : event) : bool :=
  match e with ECall _ [_; VBool _] => true | _ => false end.

Definition is_failure (e : event) : bool :=
  match e with ECall _ [VString _; VBool false] => true | _ => false end.

Definition no_completion (tr : list event) : Prop :=
  Forall (λ e, is_completion e = false) tr.

Definition read_done (e : event) : option Z :=
  match e with ECall _ [VNumber d; VNumber _] => Some d | _ => None end.

(** The [done] values of the progress calls, in order. *)
Definition done_values (tr : list event) : list Z := omap read_done tr.

(** The [(done, total)] pairs of the progress calls, in order. *)
Definition notified (tr : list event) : list (Z * Z) :=
  omap (λ e, match e with
             | ECall _ [VNumber d; VNumber t] => Some (d, t)
             | _ => None
             end) tr.

(** The descriptors that [open] returned (a negative value is a failure). *)
Definition opened (tr : list event) : list Z :=
  omap (λ e, match e with
             | EOpen _ _ _ r => if r <? 0 then None else Some r
             | _ => None
             end) tr.

(** The descriptors handed to [close]. *)
Definition closed (tr : list event) : list Z :=
  omap (λ e, match e with EClose fd _ => Some fd | _ => None end) tr.

(** The paths handed to [remove]. *)
Definition removed (tr : list event) : list string :=
  omap (λ e, match e with ERemove p _ => Some p | _ => None end) tr.

Definition is_rename (e : event) : bool :=
  match e with ERename _ _ _ => true | _ => false end.

Definition is_write (e : event) : bool :=
  match e with EWrite _ _ _ => true | _ => false end.

(** A read or a write that returned the error value. *)
Definition io_failed (e : event) : bool :=
  match e with
  | ERead _ _ r => r =? -1
  | EWrite _ _ r => r =? -1
  | _ => false
  end.

Definition write_failed (e : event) : bool :=
  match e with EWrite _ _ r => r =? -1 | _ => false end.

(** What the copy loop emits: reads, writes and progress notifications. *)
Definition loop_event (e : event) : bool :=
  match e with
  | ERead _ _ _ | EWrite _ _ _ => true
  | ECall _ [VNumber _; VNumber _] => true
  | _ => false
  end.

Definition read_chunk (e : event) : option Z :=
  match e with ERead _ _ r => if 0 <? r then Some r else None | _ => None end.

(** The sizes of the chunks that [read] delivered. *)
Definition chunks_read (tr : list event) : list Z := omap read_chunk tr.

(** The chunks that were also written out: every chunk read, but for the
    last one when its write failed. *)
Definition chunks_copied (tr : list event) : list Z :=
  if existsb write_failed tr then removelast (chunks_read tr) else chunks_read tr.

Definition total (chunks : list Z) : Z := foldr Z.add 0 chunks.

(** The cumulative byte count after each chunk. *)
Fixpoint running_totals (completed : Z) (chunks : list Z) : list Z :=
  match chunks with
  | [] => []
  | c :: rest => (completed + c) :: running_totals (completed + c) rest
  end.

(** The writes of a [doWrite] whose [write] calls returned [rets]: each
    call gets the tail that the calls before it left unwritten. *)
Fixpoint retries (fd : Z) (data : list byte) (datalen : Z) (rets : list Z)
    : list event :=
  match rets with
  | [] => []
  | r :: rest =>
      EWrite fd (take (Z.to_nat datalen) data) r ::
      retries fd (drop (Z.to_nat r) data) (datalen - r) rest
  end.

Definition exit_failed (x : loop_exit) : bool :=
  match x with WriteFailed => true | ReadEnded r => r =? -1 end.

(** The callback calls of a trace, in order: the handle and the arguments. *)
Definition callbacks (tr : list event) : list (LocalFunction * list Value) :=
  omap (λ e, match e with ECall f argv => Some (f, argv) | _ => None end) tr.

(** The descriptors handed to [fsync]. *)
Definition fsynced (tr : list event) : list Z :=
  omap (λ e, match e with EFsync fd => Some fd | _ => None end) tr.

(** What the entry points emit before the copy engine or an error label
    takes over: [open], [fstat] and [close]. *)
Definition is_setup (e : event) : bool :=
  match e with EOpen _ _ _ _ | EFstat _ _ | EClose _ _ => true | _ => false end.

(** The bytes that the [write] calls of a trace took: of each call, the
    first [ret] bytes of the data it was handed. *)
Definition accepted (tr : list event) : list byte :=
  flat_map (λ e, match e with
                 | EWrite _ data r => take (Z.to_nat r) data
                 | _ => []
                 end) tr.

(** A [write] that returned -1 or a count of at most the bytes it was
    handed. *)
Definition write_in_range (e : event) : Prop :=
  match e with
  | EWrite _ data r => -1 ≤ r ≤ Z.of_nat (length data)
  | _ => True
  end.

(** A read from [fd_in] of [BUFFER_SIZE] bytes, a write to [fd_out], or an
    event that is neither a read nor a write. *)
Definition io_between (fd_in fd_out : Z) (e : event) : Prop :=
  match e with
  | ERead fd count _ => fd = fd_in ∧ count = BUFFER_SIZE
  | EWrite fd _ _ => fd = fd_out
  | _ => True
  end.

(** ** The arguments and the calls of the callbacks, in closed form *)

(** The text [Args::Args] throws for an argument list, if it throws. *)
Definition rejected (args : list Value) : option string :=
  if Z.of_nat (length args) <? 3 then Some "Not enough arguments"
  else if negb (IsString (arg args 0)) then Some "First argument is not a path"
  else if negb (IsString (arg args 1)) then Some "Second argument is not a path"
  else if negb (IsFunction (arg args 2)) then Some "Missing result callback"
  else if (3 <? Z.of_nat (length args)) && negb (IsFunction (arg args 3))
       then Some "Unknown arguments"
  else None.

Definition thrown (args : list Value) : list event :=
  match rejected args with Some msg => [EThrow msg] | None => [] end.

(** The members of an [Args] whose constructor threw. *)
Definition blank (uninit : bool) : Args :=
  {| Source := ""; Destination := ""; ProgressCallback := None;
     ResultCallback := None; UpdateProgress := uninit |}.

(** The members [Args::Args] leaves behind for an argument list. *)
Definition parse (uninit : bool) (args : list Value) : Args :=
  match rejected args with
  | Some _ => blank uninit
  | None =>
      if 3 <? Z.of_nat (length args)
      then {| Source := get (arg args 0); Destination := get (arg args 1);
              ProgressCallback := Cast (arg args 2);
              ResultCallback := Cast (arg args 3);
              UpdateProgress := true |}
      else {| Source := get (arg args 0); Destination := get (arg args 1);
              ProgressCallback := None;
              ResultCallback := Cast (arg args 2);
              UpdateProgress := false |}
  end.

(** The argument that is the completion handler: the last of three or four. *)
Definition result_arg (args : list Value) : Value :=
  if 3 <? Z.of_nat (length args) then arg args 3 else arg args 2.

(** The event of [SendProgressUpdate], when it sends one. *)
Definition progress_events (args : Args) (completed total : Z) : list event :=
  if UpdateProgress args
  then [ECall (ProgressCallback args) [VNumber completed; VNumber total]]
  else [].

(** The event of [SendError(args, strerror(e))]. *)
Definition failure_call (args : Args) (e : Z) (text : Z → string) : event :=
  ECall (ResultCallback args) [VString (text e); VBool false].

(** The event of [SendComplete]. *)
Definition success_call (args : Args) : event :=
  ECall (ResultCallback args) [VNull; VBool true].

(** The callback a progress notification goes to. *)
Definition progress_call (args : Args) (p : Z * Z) : LocalFunction * list Value :=
  (ProgressCallback args, [VNumber p.1; VNumber p.2]).

(** A run that ended.  Before its last event it opened the descriptors [os]
    and closed the descriptors [cs] (in this order, one event each) and made
    no call of the result callback; its last event is either the success
    completion, or the failure completion whose text is [strerror] of the
    [errno] of the final world [w'], which directly follows
    [remove(Destination)]. *)
Definition finished {W} `{!Posix W} (args : Args) (os cs : list Z) (w' : W)
    (tr : list event) : Prop :=
  ∃ pre,
    opened pre = os ∧ closed pre = cs ∧ no_completion pre ∧
    (tr = pre ++ [success_call args] ∨
     ∃ pre' r, pre = pre' ++ [ERemove (Destination args) r] ∧
               tr = pre ++ [failure_call args (sys_errno w') strerror]).

(** The end of a run: some events [pre] and then one call of the result
    callback of [args]; [pre] holds no call of a result callback, and the
    descriptors closed in [pre] are the descriptors opened, one [close] for
    each [open] that succeeded, in the same order. *)
Definition completes_once (args : Args) (tr : list event) : Prop :=
  ∃ pre argv,
    tr = pre ++ [ECall (ResultCallback args) argv] ∧
    is_completion (ECall (ResultCallback args) argv) = true ∧
    Forall (λ e, is_completion e = false) pre ∧
    closed pre = opened pre.


(** ** The spec's throttling rule

    "Accumulate bytes written into progress state.  Emit a progress
    notification when accumulated-since-last-notification exceeds
    totalSize / 100."  [notifications_from] gives the [done] values that this
    rule emits for a sequence of chunk sizes. *)
Fixpoint notifications_from (threshold completed since : Z) (chunks : list Z) : list Z :=
  match chunks with
  | [] => []
  | c :: rest =>
      if threshold <? since + c
      then (completed + c) :: notifications_from threshold (completed + c) 0 rest
      else notifications_from threshold (completed + c) (since + c) rest
  end.

Definition spec_notifications (totalSize : Z) (chunks : list Z) : list Z :=
  notifications_from (totalSize `quot` 100) 0 0 chunks.

(** ** Error numbers and their texts (Linux) *)

Definition ENOENT : Z := 2.
Definition EIO : Z := 5.
Definition EBADF : Z := 9.
Definition EACCES : Z := 13.
Definition ENOSPC : Z := 28.

Definition strerror_linux (e : Z) : string :=
  if e =? 0 then "Success"
  else if e =? ENOENT then "No such file or directory"
  else if e =? EIO then "Input/output error"
  else if e =? EBADF then "Bad file descriptor"
  else if e =? EACCES then "Permission denied"
  else if e =? ENOSPC then "No space left on device"
  else "Unknown error".

(** ** A world that replays a script of kernel replies

    Each system call consumes the next reply; a reply that carries an error
    number stores it in [errno].  When the script is used up the kernel
    answers with [fallback] for ever. *)
Module Script.

Record reply := {
  r_ret : Z;
  r_errno : option Z;
  r_stat : stat;
  r_buf : list byte
}.

Record world := {
  pending : list reply;
  fallback : reply;
  cur_errno : Z
}.

Definition no_stat : stat := {| st_mode := 0; st_size := 0; st_dev := 0 |}.

Definition ok (n : Z) : reply :=
  {| r_ret := n; r_errno := None; r_stat := no_stat; r_buf := [] |}.

Definition fails (e : Z) : reply :=
  {| r_ret := -1; r_errno := Some e; r_stat := no_stat; r_buf := [] |}.

Definition stats (mode size dev : Z) : reply :=
  {| r_ret := 0; r_errno := None;
     r_stat := {| st_mode := mode; st_size := size; st_dev := dev |};
     r_buf := [] |}.

Definition bytes (b : list byte) : reply :=
  {| r_ret := Z.of_nat (length b); r_errno := None; r_stat := no_stat; r_buf := b |}.

Definition next (w : world) : reply * world :=
  let settle r rest :=
    (r, {| pending := rest; fallback := fallback w;
           cur_errno := default (cur_errno w) (r_errno r) |}) in
  match pending w with
  | [] => settle (fallback w) []
  | r :: rest => settle r rest
  end.

Definition returning {A} (f : reply → A) (w : world) : A * world :=
  let '(r, w') := next w in (f r, w').

#[global] Instance posix : Posix world := {|
  sys_open _ _ _ := returning r_ret;
  sys_fstat _ := returning (λ r, (r_ret r, r_stat r));
  sys_read _ _ := returning (λ r, (r_ret r, r_buf r));
  sys_write _ _ := returning r_ret;
  sys_close _ := returning r_ret;
  sys_fsync _ w := (next w).2;
  sys_remove _ := returning r_ret;
  sys_rename _ _ := returning r_ret;
  sys_errno := cur_errno;
  strerror := strerror_linux
|}.

Definition start (replies : list reply) (fb : reply) : world :=
  {| pending := replies; fallback := fb; cur_errno := 0 |}.

(** A kernel that fails every call once its script is used up. *)
Definition patient (w : world) : Prop := r_ret (fallback w) = -1.

End Script.

(** A reply to [write] that is an error or a count of at least one byte. *)
Definition takes_a_byte (r : Script.reply) : Prop :=
  Script.r_ret r = -1 ∨ 0 < Script.r_ret r ≤ SSIZE_MAX.

(** A scripted kernel all of whose replies, now and later, are errors or
    counts of at least one byte. *)
Definition progressing (w : Script.world) : Prop :=
  Forall takes_a_byte (Script.pending w) ∧ takes_a_byte (Script.fallback w).

(** ** A reference file system

    Regular files in a flat name space: contents and permission bits by
    path, open descriptors with their offset, [errno], and the file mode
    creation mask of the process.  The device of a path is the mount it
    lies under.  Directories, links and ownership are left out. *)
Module RefFS.

Record file := { f_data : list byte; f_mode : Z }.

Record world := {
  files : gmap string file;
  fds : gmap Z (string * nat);
  next_fd : Z;
  fs_errno : Z;
  umask : Z
}.

Definition device_of (path : string) : Z :=
  if String.prefix "/mnt/" path then 2 else 1.

Definition has (f : oflag) (flags : list oflag) : bool :=
  existsb (λ g, match f, g with
                | O_RDONLY, O_RDONLY | O_WRONLY, O_WRONLY | O_CREAT, O_CREAT
                | O_TRUNC, O_TRUNC | O_BINARY, O_BINARY => true
                | _, _ => false
                end) flags.

Definition failing {A} (a : A) (e : Z) (w : world) : A * world :=
  (a, {| files := files w; fds := fds w; next_fd := next_fd w; fs_errno := e;
         umask := umask w |}).

Definition with_files (fs : gmap string file) (w : world) : world :=
  {| files := fs; fds := fds w; next_fd := next_fd w; fs_errno := fs_errno w;
     umask := umask w |}.

Definition with_fds (t : gmap Z (string * nat)) (w : world) : world :=
  {| files := files w; fds := t; next_fd := next_fd w; fs_errno := fs_errno w;
     umask := umask w |}.

(** Owner read is bit 8 of the mode, owner write bit 7. *)
Definition may_open (flags : list oflag) (f : file) : bool :=
  if has O_WRONLY flags then Z.testbit (f_mode f) 7 else Z.testbit (f_mode f) 8.

Definition allocate (path : string) (w : world) : Z * world :=
  (next_fd w,
   {| files := files w; fds := <[next_fd w := (path, 0%nat)]> (fds w);
      next_fd := next_fd w + 1; fs_errno := fs_errno w; umask := umask w |}).

(** The mode of a file that [open] creates: the bits of the [mode]
    argument that the mask does not clear, [mode & ~umask]. *)
Definition created_mode (mode : option Z) (w : world) : Z :=
  Z.ldiff (default 0 mode) (umask w).

Definition fs_open (path : string) (flags : list oflag) (mode : option Z)
    (w : world) : Z * world :=
  if String.eqb path "" then failing (-1) ENOENT w
  else
    match files w !! path with
    | None =>
        if has O_CREAT flags then
          allocate path
            (with_files (<[path := {| f_data := []; f_mode := created_mode mode w |}]>
                           (files w)) w)
        else failing (-1) ENOENT w
    | Some f =>
        if may_open flags f then
          if has O_TRUNC flags then
            allocate path
              (with_files (<[path := {| f_data := []; f_mode := f_mode f |}]> (files w)) w)
          else allocate path w
        else failing (-1) EACCES w
    end.

Definition lookup_fd (fd : Z) (w : world) : option (string * nat * file) :=
  match fds w !! fd with
  | None => None
  | Some (path, off) =>
      match files w !! path with
      | None => None
      | Some f => Some (path, off, f)
      end
  end.

Definition fs_fstat (fd : Z) (w : world) : (Z * stat) * world :=
  match lookup_fd fd w with
  | None => failing (-1, {| st_mode := 0; st_size := 0; st_dev := 0 |}) EBADF w
  | Some (path, _, f) =>
      ((0, {| st_mode := f_mode f; st_size := Z.of_nat (length (f_data f));
              st_dev := device_of path |}), w)
  end.

Definition fs_read (fd count : Z) (w : world) : (Z * list byte) * world :=
  match lookup_fd fd w with
  | None => failing (-1, []) EBADF w
  | Some (path, off, f) =>
      let chunk := take (Z.to_nat count) (drop off (f_data f)) in
      ((Z.of_nat (length chunk), chunk),
       with_fds (<[fd := (path, (off + length chunk)%nat)]> (fds w)) w)
  end.

Definition fs_write (fd : Z) (data : list byte) (w : world) : Z * world :=
  match lookup_fd fd w with
  | None => failing (-1) EBADF w
  | Some (path, off, f) =>
      let contents := take off (f_data f) ++ data ++ drop (off + length data) (f_data f) in
      (Z.of_nat (length data),
       with_fds (<[fd := (path, (off + length data)%nat)]> (fds w))
         (with_files (<[path := {| f_data := contents; f_mode := f_mode f |}]> (files w)) w))
  end.

Definition fs_close (fd : Z) (w : world) : Z * world :=
  match fds w !! fd with
  | None => failing (-1) EBADF w
  | Some _ => (0, with_fds (delete fd (fds w)) w)
  end.

Definition fs_remove (path : string) (w : world) : Z * world :=
  match files w !! path with
  | None => failing (-1) ENOENT w
  | Some _ => (0, with_files (delete path (files w)) w)
  end.

Definition fs_rename (oldpath newpath : string) (w : world) : Z * world :=
  match files w !! oldpath with
  | None => failing (-1) ENOENT w
  | Some f => (0, with_files (<[newpath := f]> (delete oldpath (files w))) w)
  end.

#[global] Instance posix : Posix world := {|
  sys_open := fs_open;
  sys_fstat := fs_fstat;
  sys_read := fs_read;
  sys_write := fs_write;
  sys_close := fs_close;
  sys_fsync _ w := w;
  sys_remove := fs_remove;
  sys_rename := fs_rename;
  sys_errno := fs_errno;
  strerror := strerror_linux
|}.

(** A file system that holds the files [l], with the usual mask 022. *)
Definition mount (l : list (string * file)) : world :=
  {| files := list_to_map l; fds := ∅; next_fd := 3; fs_errno := 0; umask := 18 |}.

End RefFS.

(** ** Sample inputs *)

Definition hello : list byte := [x68; x65; x6c; x6c; x6f].

Definition on_complete : Value := VFunction 1.
Definition on_progress : Value := VFunction 2.

Definition regular (data : list byte) : RefFS.file :=
  {| RefFS.f_data := data; RefFS.f_mode := 420 |}.

(** A file with mode 0666. *)
Definition shared (data : list byte) : RefFS.file :=
  {| RefFS.f_data := data; RefFS.f_mode := 438 |}.

Definition unreadable (data : list byte) : RefFS.file :=
  {| RefFS.f_data := data; RefFS.f_mode := 0 |}.

Definition sample_args : Args :=
  {| Source := "/tmp/a"; Destination := "/mnt/b";
     ProgressCallback := Some 2%nat; ResultCallback := Some 1%nat;
     UpdateProgress := true |}.

(** The kernel's replies to a copy loop on a ten-byte source: five bytes
    read, written in two pieces (2, then 3), five more read and written at
    once; then 0 for ever (end of file, and success of every later call). *)
Definition two_chunks : Script.world :=
  Script.start [Script.bytes hello; Script.ok 2; Script.ok 3;
                Script.bytes hello; Script.ok 5] (Script.ok 0).

(** The reference file system after [open(src, O_RDONLY)] and
    [open(dst, O_WRONLY | O_CREAT | O_TRUNC, mode)] both succeeded: the
    destination is empty and has mode [m], and the next two descriptors are
    open at offset 0. *)
Definition opened_pair (src dst : string) (m : Z) (w : RefFS.world) : RefFS.world :=
  {| RefFS.files := <[dst := {| RefFS.f_data := []; RefFS.f_mode := m |}]> (RefFS.files w);
     RefFS.fds := <[RefFS.next_fd w + 1 := (dst, 0%nat)]>
                    (<[RefFS.next_fd w := (src, 0%nat)]> (RefFS.fds w));
     RefFS.next_fd := RefFS.next_fd w + 1 + 1;
     RefFS.fs_errno := RefFS.fs_errno w;
     RefFS.umask := RefFS.umask w |}.


(** ** Running the monad *)

Lemma bind_Some {W A B} (m : M W A) (k : A → M W B) w b w2 t :
  bind m k w = Some (b, w2, t) →
  ∃ a w1 t1 t2, m w = Some (a, w1, t1) ∧ k a w1 = Some (b, w2, t2) ∧ t = t1 ++ t2.
Proof.
  unfold bind. destruct (m w) as [[[a w1] t1]|]; [|done].
  destruct (k a w1) as [[[b' w2'] t2]|] eqn:Hk; [|done].
  intros [= <- <- <-]. by exists a, w1, t1, t2.
Qed.

Lemma bind_run {W A B} (m : M W A) (k : A → M W B) w a w1 t1 :
  m w = Some (a, w1, t1) →
  bind m k w =
    match k a w1 with Some (b, w2, t2) => Some (b, w2, t1 ++ t2) | None => None end.
Proof. unfold bind. by intros ->. Qed.

Lemma syscall_run {W A} (f : W → A * W) (log : A → event) w :
  syscall f log w = Some ((f w).1, (f w).2, [log (f w).1]).
Proof. unfold syscall. by destruct (f w). Qed.

Section Facts.
Context {W : Type} `{!Posix W}.
Local Open Scope engine_scope.

Lemma Args_new_rejected uninit args msg (w : W) :
  rejected args = Some msg →
  Args_new uninit args w = Some (blank uninit, w, [EThrow msg]).
Proof.
  unfold rejected, Args_new.
  repeat (destruct (_ : bool); [by intros [= <-]|]). done.
Qed.

Lemma SendProgressUpdate_run args completed total (w : W) :
  SendProgressUpdate args completed total w
  = Some (tt, w, progress_events args completed total).
Proof.
  unfold SendProgressUpdate, SendProgressUpdate_values, progress_events.
  by destruct (UpdateProgress args).
Qed.

Lemma doWrite_unfold fuel fd data datalen w :
  doWrite (S fuel) fd data datalen w =
    let bytes := take (Z.to_nat datalen) data in
    let written := (sys_write fd bytes w).1 in
    let w1 := (sys_write fd bytes w).2 in
    if written =? -1 then Some (-1, w1, [EWrite fd bytes written])
    else if to_size_t written <? datalen then
      match doWrite fuel fd (drop (Z.to_nat written) data) (datalen - written) w1 with
      | Some (r, w2, t) => Some (r, w2, EWrite fd bytes written :: t)
      | None => None
      end
    else Some (written, w1, [EWrite fd bytes written]).
Proof.
  cbn [doWrite]. unfold c_write.
  erewrite bind_run by apply syscall_run. cbn zeta.
  destruct (_ =? -1); [done|]. destruct (_ <? datalen); [|done].
  by destruct (doWrite _ _ _ _ _) as [[[??]?]|].
Qed.

Lemma Copy_while_unfold fuel fd_in fd_out inputSize bytesPerUpdate args
    progress sinceLastUpdate w :
  Copy_while (S fuel) fd_in fd_out inputSize bytesPerUpdate args
    progress sinceLastUpdate w =
    let bytes_read := (sys_read fd_in BUFFER_SIZE w).1.1 in
    let buffer := (sys_read fd_in BUFFER_SIZE w).1.2 in
    let w1 := (sys_read fd_in BUFFER_SIZE w).2 in
    let e := ERead fd_in BUFFER_SIZE bytes_read in
    if 0 <? bytes_read then
      match doWrite fuel fd_out buffer bytes_read w1 with
      | None => None
      | Some (written, w2, tw) =>
          if written =? -1 then Some (WriteFailed, w2, e :: tw)
          else if bytesPerUpdate <? sinceLastUpdate + bytes_read then
            match Copy_while fuel fd_in fd_out inputSize bytesPerUpdate args
                    (progress + bytes_read) 0 w2 with
            | None => None
            | Some (x, w3, t) =>
                Some (x, w3,
                      e :: tw ++ progress_events args (progress + bytes_read) inputSize ++ t)
            end
          else
            match Copy_while fuel fd_in fd_out inputSize bytesPerUpdate args
                    (progress + bytes_read) (sinceLastUpdate + bytes_read) w2 with
            | None => None
            | Some (x, w3, t) => Some (x, w3, e :: tw ++ t)
            end
      end
    else Some (ReadEnded bytes_read, w1, [e]).
Proof.
  cbn [Copy_while]. unfold c_read.
  erewrite bind_run by apply syscall_run.
  destruct (sys_read fd_in BUFFER_SIZE w) as [[bytes_read buffer] w1]. cbn.
  destruct (0 <? bytes_read); [|done].
  unfold bind at 1.
  destruct (doWrite _ _ _ _ _) as [[[written w2] tw]|]; [|done].
  destruct (written =? -1); [by unfold ret; rewrite app_nil_r|].
  destruct (_ <? _).
  - unfold bind. rewrite SendProgressUpdate_run.
    by destruct (Copy_while _ _ _ _ _ _ _ _ _) as [[[??]?]|].
  - by destruct (Copy_while _ _ _ _ _ _ _ _ _) as [[[??]?]|].
Qed.

Lemma doWrite_more_fuel fuel fuel' fd data datalen w r :
  (fuel ≤ fuel')%nat →
  doWrite fuel fd data datalen w = Some r →
  doWrite fuel' fd data datalen w = Some r.
Proof.
  revert fuel' data datalen w r.
  induction fuel as [|fuel IH]; intros fuel' data datalen w r Hle; [done|].
  destruct fuel' as [|fuel']; [lia|].
  rewrite !doWrite_unfold. cbn zeta.
  destruct (_ =? -1); [done|]. destruct (_ <? datalen); [|done].
  destruct (doWrite fuel _ _ _ _) as [[[r1 w2] t]|] eqn:Hrec; [|done].
  intros [= <-]. by rewrite (IH fuel' _ _ _ _ ltac:(lia) Hrec).
Qed.

Lemma Copy_while_more_fuel fuel fuel' fd_in fd_out inputSize bpu args p s w r :
  (fuel ≤ fuel')%nat →
  Copy_while fuel fd_in fd_out inputSize bpu args p s w = Some r →
  Copy_while fuel' fd_in fd_out inputSize bpu args p s w = Some r.
Proof.
  revert fuel' p s w r.
  induction fuel as [|fuel IH]; intros fuel' p s w r Hle; [done|].
  destruct fuel' as [|fuel']; [lia|].
  rewrite !Copy_while_unfold. cbn zeta.
  destruct (0 <? _); [|done].
  destruct (doWrite fuel _ _ _ _) as [[[wr w2] tw]|] eqn:Hw; [|done].
  rewrite (doWrite_more_fuel fuel fuel' _ _ _ _ _ ltac:(lia) Hw).
  destruct (wr =? -1); [done|].
  destruct (_ <? _).
  - destruct (Copy_while fuel _ _ _ _ _ _ _ _) as [[[x w3] t]|] eqn:Hrec; [|done].
    intros [= <-]. by rewrite (IH fuel' _ _ _ _ ltac:(lia) Hrec).
  - destruct (Copy_while fuel _ _ _ _ _ _ _ _) as [[[x w3] t]|] eqn:Hrec; [|done].
    intros [= <-]. by rewrite (IH fuel' _ _ _ _ ltac:(lia) Hrec).
Qed.

(** What a [doWrite] that returned has logged: writes only, and the
    error value is returned exactly when a write returned it. *)
Lemma doWrite_trace fuel fd data datalen w r w' tr :
  doWrite fuel fd data datalen w = Some (r, w', tr) →
  Forall (λ e, is_write e = true) tr ∧ existsb write_failed tr = (r =? -1).
Proof.
  revert data datalen w r w' tr.
  induction fuel as [|fuel IH]; intros data datalen w r w' tr; [done|].
  rewrite doWrite_unfold. cbn zeta.
  destruct (_ =? -1) eqn:Hw.
  { intros [= <- <- <-]. cbn. rewrite Hw. auto. }
  destruct (_ <? datalen).
  - destruct (doWrite fuel _ _ _ _) as [[[r1 w2] t]|] eqn:Hrec; [|done].
    intros [= <- <- <-]. destruct (IH _ _ _ _ _ _ Hrec) as [Hall Hex].
    split; [by constructor|]. cbn. by rewrite Hw.
  - intros [= <- <- <-]. cbn. rewrite Hw. auto.
Qed.

End Facts.

(** ** What the loop leaves in the trace *)

Lemma loop_event_call f argv :
  loop_event (ECall f argv) = true → ∃ d t, argv = [VNumber d; VNumber t].
Proof.
  destruct argv as [|[] [|[] []]]; try done. eauto.
Qed.

Lemma loop_events_silent tr :
  Forall (λ e, loop_event e = true) tr →
  opened tr = [] ∧ closed tr = [] ∧ removed tr = [] ∧
  Forall (λ e, is_completion e = false) tr.
Proof.
  induction 1 as [|e tr He _ (Ho & Hc & Hr & Hn)]; [done|].
  destruct e; try done; cbn; repeat split; try done; constructor; try done.
  apply loop_event_call in He as (d & t & ->). done.
Qed.

Lemma writes_are_loop_events tr :
  Forall (λ e, is_write e = true) tr → Forall (λ e, loop_event e = true) tr.
Proof. intros H. eapply Forall_impl; [exact H|]. by intros []. Qed.

Lemma writes_observed tr :
  Forall (λ e, is_write e = true) tr →
  done_values tr = [] ∧ chunks_read tr = [] ∧
  existsb io_failed tr = existsb write_failed tr.
Proof.
  induction 1 as [|e tr He _ (Hd & Hc & Hx)]; [done|].
  destruct e; try done. cbn. by rewrite Hx.
Qed.

Lemma progress_events_observed args d t :
  Forall (λ e, loop_event e = true) (progress_events args d t) ∧
  chunks_read (progress_events args d t) = [] ∧
  existsb io_failed (progress_events args d t) = false ∧
  existsb write_failed (progress_events args d t) = false ∧
  done_values (progress_events args d t) = (if UpdateProgress args then [d] else []).
Proof.
  unfold progress_events. destruct (UpdateProgress args); cbn; repeat split; auto.
Qed.
Lemma chunks_read_cons e tr :
  chunks_read (e :: tr) = from_option (λ c, c :: chunks_read tr) (chunks_read tr) (read_chunk e).
Proof. unfold chunks_read. cbn. by destruct (read_chunk e). Qed.

Lemma chunks_read_app t1 t2 : chunks_read (t1 ++ t2) = chunks_read t1 ++ chunks_read t2.
Proof. apply omap_app. Qed.

Lemma done_values_cons e tr :
  done_values (e :: tr) = from_option (λ d, d :: done_values tr) (done_values tr) (read_done e).
Proof. unfold done_values. cbn. by destruct (read_done e). Qed.

Lemma done_values_app t1 t2 : done_values (t1 ++ t2) = done_values t1 ++ done_values t2.
Proof. apply omap_app. Qed.

Lemma existsb_cons {A} (f : A → bool) a l : existsb f (a :: l) = f a || existsb f l.
Proof. done. Qed.

Section Loop.
Context {W : Type} `{!Posix W}.

Lemma Copy_while_events fuel fd_in fd_out inputSize bpu args p s (w : W) x w' tr :
  Copy_while fuel fd_in fd_out inputSize bpu args p s w = Some (x, w', tr) →
  Forall (λ e, loop_event e = true) tr.
Proof.
  revert p s w x w' tr.
  induction fuel as [|fuel IH]; intros p s w x w' tr; [done|].
  rewrite Copy_while_unfold. cbn zeta.
  destruct (0 <? _); [|by intros [= <- <- <-]; repeat constructor].
  destruct (doWrite fuel _ _ _ _) as [[[wr w2] tw]|] eqn:Hw; [|done].
  apply doWrite_trace in Hw as [Hw%writes_are_loop_events _].
  destruct (wr =? -1); [by intros [= <- <- <-]; constructor|].
  destruct (bpu <? _);
    (destruct (Copy_while fuel _ _ _ _ _ _ _ _) as [[[x1 w3] t]|] eqn:Hrec; [|done]);
    intros [= <- <- <-]; apply IH in Hrec; constructor; try done;
    rewrite ?Forall_app; repeat split; try done.
  apply progress_events_observed.
Qed.

(** How the loop was left can be read off the trace: by the [goto] exactly
    when a write returned -1, and in failure exactly when a read or a write
    returned -1. *)
Lemma Copy_while_exit fuel fd_in fd_out inputSize bpu args p s (w : W) x w' tr :
  Copy_while fuel fd_in fd_out inputSize bpu args p s w = Some (x, w', tr) →
  existsb write_failed tr = (if x is WriteFailed then true else false) ∧
  existsb io_failed tr = exit_failed x ∧
  (x = WriteFailed → chunks_read tr ≠ []).
Proof.
  revert p s w x w' tr.
  induction fuel as [|fuel IH]; intros p s w x w' tr; [done|].
  rewrite Copy_while_unfold. cbn zeta.
  destruct (0 <? _) eqn:Hpos; [|by intros [= <- <- <-]; cbn; rewrite orb_false_r].
  assert (((sys_read fd_in BUFFER_SIZE w).1.1 =? -1) = false) as Hne by lia.
  destruct (doWrite fuel _ _ _ _) as [[[wr w2] tw]|] eqn:Hw; [|done].
  apply doWrite_trace in Hw as [Hall Hex].
  destruct (writes_observed _ Hall) as (_ & Hcr & Hio).
  destruct (wr =? -1) eqn:Hwr.
  { intros [= <- <- <-]. cbn. rewrite Hne, Hpos, Hio, Hex. done. }
  destruct (progress_events_observed args (p + (sys_read fd_in BUFFER_SIZE w).1.1)
              inputSize) as (_ & Hpc & Hpa & Hpb & _).
  destruct (bpu <? _);
    (destruct (Copy_while fuel _ _ _ _ _ _ _ _) as [[[x1 w3] t]|] eqn:Hrec; [|done]);
    intros [= <- <- <-]; apply IH in Hrec as (H1 & H2 & H3); cbn;
    rewrite Hne, Hpos, ?existsb_app, ?Hpa, ?Hpb, Hio, Hex, H1, H2; done.
Qed.

Lemma Copy_while_chunks fuel fd_in fd_out inputSize bpu args p s (w : W) x w' tr :
  Copy_while fuel fd_in fd_out inputSize bpu args p s w = Some (x, w', tr) →
  Forall (λ c, 0 < c) (chunks_read tr) ∧
  done_values tr
  = if UpdateProgress args then notifications_from bpu p s (chunks_copied tr) else [].
Proof.
  revert p s w x w' tr.
  induction fuel as [|fuel IH]; intros p s w x w' tr; [done|].
  rewrite Copy_while_unfold. cbn zeta.
  set (b := (sys_read fd_in BUFFER_SIZE w).1.1) in *.
  destruct (0 <? b) eqn:Hpos.
  2:{ intros [= <- <- <-]. unfold chunks_copied. cbn. rewrite Hpos.
      by destruct (UpdateProgress args). }
  destruct (doWrite fuel _ _ _ _) as [[[wr w2] tw]|] eqn:Hw; [|done].
  apply doWrite_trace in Hw as [Hall Hex].
  destruct (writes_observed _ Hall) as (Hdv & Hcr & Hio).
  destruct (wr =? -1) eqn:Hwr.
  { intros [= <- <- <-]. unfold chunks_copied.
    rewrite chunks_read_cons, done_values_cons, existsb_cons.
    cbn [write_failed orb read_chunk read_done]. rewrite Hpos, Hex, Hcr, Hdv. cbn.
    split; [constructor; [lia|done]|]. by destruct (UpdateProgress args). }
  assert (∀ pe t x1 w3 p1 s1,
    Copy_while fuel fd_in fd_out inputSize bpu args p1 s1 w2 = Some (x1, w3, t) →
    chunks_read pe = [] → existsb write_failed pe = false →
    chunks_read (ERead fd_in BUFFER_SIZE b :: tw ++ pe ++ t) = b :: chunks_read t ∧
    chunks_copied (ERead fd_in BUFFER_SIZE b :: tw ++ pe ++ t) = b :: chunks_copied t ∧
    done_values (ERead fd_in BUFFER_SIZE b :: tw ++ pe ++ t)
    = done_values pe ++ done_values t)
    as Hstep.
  { intros pe t x1 w3 p1 s1 Hrec Hpe1 Hpe2.
    apply Copy_while_exit in Hrec as (H1 & _ & H3).
    unfold chunks_copied.
    rewrite chunks_read_cons, done_values_cons, existsb_cons.
    cbn [write_failed orb read_chunk read_done].
    rewrite !chunks_read_app, !done_values_app, !existsb_app.
    rewrite Hpos, Hcr, Hpe1, Hex, Hpe2, H1, Hdv. cbn. repeat split.
    destruct x1; [|done]. specialize (H3 eq_refl).
    by destruct (chunks_read t). }
  destruct (progress_events_observed args (p + b) inputSize) as (_ & Hp1 & _ & Hp2 & Hp3).
  destruct (bpu <? s + b) eqn:Hthr.
  - destruct (Copy_while fuel _ _ _ _ _ _ _ _) as [[[x1 w3] t]|] eqn:Hrec; [|done].
    intros [= <- <- <-].
    destruct (Hstep _ _ _ _ _ _ Hrec Hp1 Hp2) as (-> & -> & ->).
    apply IH in Hrec as [Hc Hd]. split; [constructor; [lia|done]|].
    cbn [notifications_from]. rewrite Hp3, Hd, Hthr. by destruct (UpdateProgress args).
  - destruct (Copy_while fuel _ _ _ _ _ _ _ _) as [[[x1 w3] t]|] eqn:Hrec; [|done].
    intros [= <- <- <-].
    destruct (Hstep [] _ _ _ _ _ Hrec eq_refl eq_refl) as (Ha & Hb & Hc').
    cbn [app] in Ha, Hb, Hc'. rewrite Ha, Hb, Hc'.
    apply IH in Hrec as [Hc Hd]. split; [constructor; [lia|done]|].
    cbn [notifications_from]. rewrite Hd, Hthr. done.
Qed.

End Loop.

(** ** The straight-line parts *)

Ltac run_known :=
  first
    [ apply syscall_run
    | apply SendProgressUpdate_run
    | reflexivity
    | erewrite bind_run by run_known; cbv beta iota delta [ret]; reflexivity ].

Ltac run_monad :=
  repeat (erewrite bind_run by run_known); cbn [app].

Section Straight.
Context {W : Type} `{!Posix W}.

Lemma copyByFdError_run fd_in fd_out args (w : W) :
  copyByFdError fd_in fd_out args w =
    let c1 := sys_close fd_in w in
    let c2 := sys_close fd_out c1.2 in
    let rm := sys_remove (Destination args) c2.2 in
    Some (tt, rm.2,
          [EClose fd_in c1.1; EClose fd_out c2.1; ERemove (Destination args) rm.1;
           failure_call args (sys_errno rm.2) strerror]).
Proof. unfold copyByFdError. run_monad. reflexivity. Qed.

Lemma copyByPathError_run args (w : W) :
  copyByPathError args w =
    let rm := sys_remove (Destination args) w in
    Some (tt, rm.2,
          [ERemove (Destination args) rm.1; failure_call args (sys_errno rm.2) strerror]).
Proof. unfold copyByPathError. run_monad. reflexivity. Qed.

Lemma moveError_run args (w : W) : moveError args w = copyByPathError args w.
Proof. reflexivity. Qed.

Lemma copyDone_run fd_in fd_out inputSize args removeWhenDone (w : W) :
  copyDone fd_in fd_out inputSize args removeWhenDone w =
    let c1 := sys_close fd_in w in
    let c2 := sys_close fd_out (sys_fsync fd_out c1.2) in
    let rm := sys_remove (Source args) c2.2 in
    Some (tt, if removeWhenDone then rm.2 else c2.2,
          progress_events args inputSize inputSize ++
          [EClose fd_in c1.1; EFsync fd_out; EClose fd_out c2.1] ++
          (if removeWhenDone then [ERemove (Source args) rm.1] else []) ++
          [success_call args]).
Proof.
  unfold copyDone. run_monad. destruct removeWhenDone; run_monad; reflexivity.
Qed.

Lemma Copy_fd_inv fuel fd_in fd_out inputSize args removeWhenDone (w : W) u w' tr :
  Copy_fd fuel fd_in fd_out inputSize args removeWhenDone w = Some (u, w', tr) →
  ∃ x wl tl t2,
    Copy_while fuel fd_in fd_out inputSize (inputSize `quot` 100) args 0 0 w
    = Some (x, wl, tl) ∧
    (if exit_failed x then copyByFdError fd_in fd_out args wl
     else copyDone fd_in fd_out inputSize args removeWhenDone wl) = Some (tt, w', t2) ∧
    tr = tl ++ t2.
Proof.
  unfold Copy_fd. intros (x & wl & tl & t2 & Hl & Hk & ->)%bind_Some.
  exists x, wl, tl, t2. destruct u. split; [done|]. split; [|done].
  destruct x as [|r]; [done|]. cbn. by destruct (r =? -1).
Qed.

End Straight.

(** ** The shape of a finished run *)

Lemma closed_app t1 t2 : closed (t1 ++ t2) = closed t1 ++ closed t2.
Proof. apply omap_app. Qed.

Lemma opened_app t1 t2 : opened (t1 ++ t2) = opened t1 ++ opened t2.
Proof. apply omap_app. Qed.

Lemma removed_app t1 t2 : removed (t1 ++ t2) = removed t1 ++ removed t2.
Proof. apply omap_app. Qed.

Lemma progress_events_silent args d t :
  opened (progress_events args d t) = [] ∧ closed (progress_events args d t) = [] ∧
  removed (progress_events args d t) = [] ∧ no_completion (progress_events args d t).
Proof. apply loop_events_silent, progress_events_observed. Qed.

Section Shape.
Context {W : Type} `{!Posix W}.

Lemma Args_new_run uninit args (w : W) :
  Args_new uninit args w = Some (parse uninit args, w, thrown args).
Proof.
  unfold parse, thrown. destruct (rejected args) as [msg|] eqn:Hr.
  - by apply Args_new_rejected.
  - revert Hr. unfold rejected, Args_new.
    destruct (_ <? 3); [done|].
    destruct (negb (IsString (arg args 0))); [done|].
    destruct (negb (IsString (arg args 1))); [done|].
    destruct (negb (IsFunction (arg args 2))); [done|].
    destruct (3 <? _); [|done].
    by destruct (negb (IsFunction (arg args 3))).
Qed.

Lemma Copy_fd_finished fuel fd_in fd_out inputSize args removeWhenDone (w : W) u w' tr :
  Copy_fd fuel fd_in fd_out inputSize args removeWhenDone w = Some (u, w', tr) →
  finished args [] [fd_in; fd_out] w' tr.
Proof.
  intros (x & wl & tl & t2 & Hloop & Htail & ->)%Copy_fd_inv.
  apply Copy_while_events, loop_events_silent in Hloop as (Ho & Hc & _ & Hn).
  destruct (exit_failed x).
  - rewrite copyByFdError_run in Htail. cbn zeta in Htail.
    injection Htail as <- <-.
    match goal with
    | |- finished _ _ _ _ (tl ++ [?a; ?b; ?c; ?d]) => exists (tl ++ [a; b; c])
    end.
    rewrite opened_app, closed_app, Ho, Hc. cbn.
    split; [done|]. split; [done|].
    split; [apply Forall_app; split; [done|by repeat constructor]|].
    right. eexists (tl ++ [_; _]), _. rewrite <- !app_assoc. done.
  - rewrite copyDone_run in Htail. cbn zeta in Htail.
    injection Htail as <- <-.
    destruct (progress_events_silent args inputSize inputSize) as (Hpo & Hpc & _ & Hpn).
    match goal with
    | |- finished _ _ _ _ (tl ++ ?p ++ ?a :: ?b :: ?c :: ?r ++ [?d]) =>
        exists (tl ++ p ++ [a; b; c] ++ r)
    end.
    rewrite !opened_app, !closed_app, Ho, Hc, Hpo, Hpc.
    split; [by destruct removeWhenDone|].
    split; [by destruct removeWhenDone|].
    split; [|left; by rewrite <- !app_assoc].
    repeat (apply Forall_app; split); try done; [by repeat constructor|].
    destruct removeWhenDone; by repeat constructor.
Qed.

Lemma finished_after p args os cs (w' : W) tr :
  no_completion p →
  finished args os cs w' tr →
  finished args (opened p ++ os) (closed p ++ cs) w' (p ++ tr).
Proof.
  intros Hp (pre & <- & <- & Hn & Htr). exists (p ++ pre).
  rewrite opened_app, closed_app. split; [done|]. split; [done|].
  split; [by apply Forall_app|].
  destruct Htr as [->|(pre' & r & -> & ->)]; [left|right].
  - by rewrite app_assoc.
  - exists (p ++ pre'), r. by rewrite !app_assoc.
Qed.

Lemma syscall_inv {A} (f : W → A * W) (log : A → event) w a w1 t :
  syscall f log w = Some (a, w1, t) → t = [log a].
Proof. rewrite syscall_run. by intros [= <- <- <-]. Qed.

Lemma path_error_finished args (w : W) u w' t pre :
  copyByPathError args w = Some (u, w', t) →
  no_completion pre →
  finished args (opened pre) (closed pre) w' (pre ++ t).
Proof.
  rewrite copyByPathError_run. cbn zeta. intros [= <- <- <-] Hpre.
  rewrite <- (app_nil_r (opened pre)), <- (app_nil_r (closed pre)).
  apply finished_after; [done|].
  match goal with |- finished _ _ _ _ [?a; ?b] => exists [a] end.
  split; [done|]. split; [done|].
  split; [by repeat constructor|]. right. by eexists [], _.
Qed.

Ltac path_error H :=
  match goal with
  | |- finished _ _ _ _ (?p ++ _) =>
      apply (path_error_finished _ _ _ _ _ p) in H; [|by repeat constructor]
  end.

Ltac prepend H :=
  match goal with
  | |- finished _ _ _ _ (?p ++ _) =>
      apply (finished_after p) in H; [|by repeat constructor]
  end.

Lemma Copy_body_finished fuel args (w : W) u w' tr :
  Copy_body fuel args w = Some (u, w', tr) →
  ∃ fds, finished args fds fds w' tr.
Proof.
  unfold Copy_body.
  intros (in_ & w1 & t1 & t2 & ->%syscall_inv & H & ->)%bind_Some.
  destruct (in_ <? 0) eqn:Hin.
  { exists []. path_error H.
    revert H. cbn -[Z.ltb]. by rewrite Hin. }
  apply bind_Some in H as ([r st] & w2 & t2' & t3 & ->%syscall_inv & H & ->).
  destruct (negb (r =? 0)).
  { apply bind_Some in H as (c & w3 & t3' & t4 & ->%syscall_inv & H & ->).
    exists [in_]. rewrite !app_assoc.
    path_error H.
    revert H. cbn -[Z.ltb]. by rewrite Hin. }
  apply bind_Some in H as (out & w3 & t3' & t4 & ->%syscall_inv & H & ->).
  destruct (out <? 0) eqn:Hout.
  { apply bind_Some in H as (c & w4 & t4' & t5 & ->%syscall_inv & H & ->).
    exists [in_]. rewrite !app_assoc.
    path_error H.
    revert H. cbn -[Z.ltb]. by rewrite Hin, Hout. }
  exists [in_; out]. apply Copy_fd_finished in H. rewrite !app_assoc.
  prepend H.
  revert H. cbn -[Z.ltb]. by rewrite Hin, Hout.
Qed.

Lemma Move_dispatch_finished fuel in_ out in_stats out_stats args (w : W) u w' tr :
  Move_dispatch fuel in_ out in_stats out_stats args w = Some (u, w', tr) →
  finished args [] [in_; out] w' tr.
Proof.
  unfold Move_dispatch. destruct (_ =? _); [|apply Copy_fd_finished].
  run_monad. intros [= <- <- <-].
  destruct (progress_events_silent args (st_size in_stats) (st_size in_stats))
    as (Hpo & Hpc & _ & Hpn).
  match goal with
  | |- finished _ _ _ _ (?a :: ?b :: ?c :: ?d :: ?p ++ [?e]) =>
      exists ([a; b; c; d] ++ p)
  end.
  rewrite opened_app, closed_app, Hpo, Hpc.
  split; [done|]. split; [done|].
  split; [apply Forall_app; split; [by repeat constructor|done]|by left].
Qed.

Lemma Move_body_finished fuel args (w : W) u w' tr :
  Move_body fuel args w = Some (u, w', tr) →
  ∃ fds, finished args fds fds w' tr.
Proof.
  unfold Move_body, moveError. fold (copyByPathError args).
  intros (in_ & w1 & t1 & t2 & ->%syscall_inv & H & ->)%bind_Some.
  destruct (in_ <? 0) eqn:Hin.
  { exists []. path_error H.
    revert H. cbn -[Z.ltb]. by rewrite Hin. }
  apply bind_Some in H as ([r st] & w2 & t2' & t3 & ->%syscall_inv & H & ->).
  destruct (negb (r =? 0)).
  { apply bind_Some in H as (c & w3 & t3' & t4 & ->%syscall_inv & H & ->).
    exists [in_]. rewrite !app_assoc.
    path_error H.
    revert H. cbn -[Z.ltb]. by rewrite Hin. }
  apply bind_Some in H as (out & w3 & t3' & t4 & ->%syscall_inv & H & ->).
  destruct (out <? 0) eqn:Hout.
  { apply bind_Some in H as (c & w4 & t4' & t5 & ->%syscall_inv & H & ->).
    exists [in_]. rewrite !app_assoc.
    path_error H.
    revert H. cbn -[Z.ltb]. by rewrite Hin, Hout. }
  apply bind_Some in H as ([r' st'] & w4 & t4' & t5 & ->%syscall_inv & H & ->).
  destruct (negb (r' =? 0)).
  { apply bind_Some in H as (c & w5 & t5' & t6 & ->%syscall_inv & H & ->).
    apply bind_Some in H as (c' & w6 & t6' & t7 & ->%syscall_inv & H & ->).
    exists [in_; out]. rewrite !app_assoc.
    path_error H.
    revert H. cbn -[Z.ltb]. by rewrite Hin, Hout. }
  exists [in_; out]. apply Move_dispatch_finished in H. rewrite !app_assoc.
  prepend H.
  revert H. cbn -[Z.ltb]. by rewrite Hin, Hout.
Qed.

End Shape.

(** ** The throttling rule on chunk sizes *)

Lemma total_nonneg chunks : Forall (λ c, 0 < c) chunks → 0 ≤ total chunks.
Proof. unfold total. induction 1; cbn; lia. Qed.

Lemma notifications_from_sorted threshold completed since chunks :
  Forall (λ c, 0 < c) chunks →
  StronglySorted Z.le (notifications_from threshold completed since chunks) ∧
  Forall (λ v, completed < v ≤ completed + total chunks)
    (notifications_from threshold completed since chunks).
Proof.
  intros Hpos. revert completed since.
  induction Hpos as [|c rest Hc Hrest IH]; intros completed since; cbn.
  { split; constructor. }
  pose proof (total_nonneg _ Hrest) as Hsum.
  change (foldr Z.add 0 rest) with (total rest).
  assert (∀ l, Forall (λ v, completed + c < v ≤ completed + c + total rest) l →
               Forall (λ v, completed < v ≤ completed + (c + total rest)) l) as Hweak.
  { intros l Hl. eapply Forall_impl; [exact Hl|]. cbn. lia. }
  destruct (threshold <? since + c).
  - destruct (IH (completed + c) 0) as [Hs Hb]. split.
    + constructor; [done|]. eapply Forall_impl; [exact Hb|]. cbn. lia.
    + constructor; [lia|]. by apply Hweak.
  - destruct (IH (completed + c) (since + c)) as [Hs Hb]. split; [done|]. by apply Hweak.
Qed.

Lemma notifications_from_every_chunk completed since chunks :
  0 ≤ since → Forall (λ c, 0 < c) chunks →
  notifications_from 0 completed since chunks = running_totals completed chunks.
Proof.
  intros Hs Hpos. revert completed since Hs.
  induction Hpos as [|c rest Hc Hrest IH]; intros completed since Hs; cbn; [done|].
  replace (0 <? since + c) with true by lia. f_equal. by apply IH.
Qed.

Lemma removelast_total chunks :
  Forall (λ c, 0 < c) chunks →
  Forall (λ c, 0 < c) (removelast chunks) ∧ total (removelast chunks) ≤ total chunks.
Proof.
  unfold total.
  induction 1 as [|c rest Hc Hrest [IH1 IH2]]; [done|].
  destruct rest as [|c' rest]; cbn in *; [split; [constructor|lia]|].
  split; [by constructor|lia].
Qed.

Lemma StronglySorted_snoc_le (l : list Z) (x : Z) :
  StronglySorted Z.le l → Forall (λ v, v ≤ x) l → StronglySorted Z.le (l ++ [x]).
Proof.
  induction 1 as [|a l Hs IH Ha]; intros Hx; cbn.
  { repeat constructor. }
  apply Forall_cons in Hx as [Hax Hx].
  constructor; [by apply IH|]. apply Forall_app. split; [done|]. by constructor.
Qed.

(** ** The two ways [Copy(int, int, ssize_t, ...)] ends *)

Section Ends.
Context {W : Type} `{!Posix W}.

Lemma Copy_fd_trace fuel fd_in fd_out inputSize args removeWhenDone (w : W) u w' tr :
  Copy_fd fuel fd_in fd_out inputSize args removeWhenDone w = Some (u, w', tr) →
  ∃ x wl tl,
    Copy_while fuel fd_in fd_out inputSize (inputSize `quot` 100) args 0 0 w
    = Some (x, wl, tl) ∧
    ((exit_failed x = true ∧ ∃ r1 r2 r3,
        tr = tl ++ [EClose fd_in r1; EClose fd_out r2; ERemove (Destination args) r3;
                    failure_call args (sys_errno w') strerror])
     ∨ (exit_failed x = false ∧ ∃ r1 r2 r3,
        tr = tl ++ progress_events args inputSize inputSize ++
             [EClose fd_in r1; EFsync fd_out; EClose fd_out r2] ++
             (if removeWhenDone then [ERemove (Source args) r3] else []) ++
             [success_call args])).
Proof.
  intros (x & wl & tl & t2 & Hloop & Htail & ->)%Copy_fd_inv.
  exists x, wl, tl. split; [done|]. destruct (exit_failed x); [left|right].
  - rewrite copyByFdError_run in Htail. cbn zeta in Htail.
    injection Htail as <- <-. split; [done|]. by eexists _, _, _.
  - rewrite copyDone_run in Htail. cbn zeta in Htail.
    injection Htail as <- <-. split; [done|]. eexists _, _, _. reflexivity.
Qed.

(** A finished run of the copy engine, read as a whole: the chunks it
    copied, whether a read or a write failed, the [done] values it
    reported and the paths it removed. *)
Lemma Copy_fd_observed fuel fd_in fd_out inputSize args removeWhenDone (w : W) u w' tr :
  Copy_fd fuel fd_in fd_out inputSize args removeWhenDone w = Some (u, w', tr) →
  Forall (λ c, 0 < c) (chunks_read tr) ∧
  (existsb io_failed tr = false → chunks_copied tr = chunks_read tr) ∧
  done_values tr
  = (if UpdateProgress args
     then spec_notifications inputSize (chunks_copied tr) ++
          (if existsb io_failed tr then [] else [inputSize])
     else []) ∧
  removed tr
  = (if existsb io_failed tr then [Destination args]
     else if removeWhenDone then [Source args] else []) ∧
  existsb is_rename tr = false ∧
  last tr = Some (if existsb io_failed tr
                  then failure_call args (sys_errno w') strerror
                  else success_call args).
Proof.
  intros (x & wl & tl & Hloop & Hend)%Copy_fd_trace.
  pose proof (Copy_while_events _ _ _ _ _ _ _ _ _ _ _ _ Hloop) as Hev.
  destruct (loop_events_silent _ Hev) as (_ & _ & Hrm & _).
  assert (existsb is_rename tl = false) as Hren.
  { clear -Hev. induction Hev as [|e t He _ IH]; [done|]. by destruct e. }
  destruct (Copy_while_exit _ _ _ _ _ _ _ _ _ _ _ _ Hloop) as (Hwf & Hio & _).
  destruct (Copy_while_chunks _ _ _ _ _ _ _ _ _ _ _ _ Hloop) as (Hpos & Hdone).
  destruct Hend as [(Hx & r1 & r2 & r3 & ->)|(Hx & r1 & r2 & r3 & ->)].
  - unfold chunks_copied, spec_notifications.
    rewrite chunks_read_app, done_values_app, removed_app, !existsb_app, last_app.
    rewrite Hio, Hx, Hrm, Hren, Hdone. cbn. rewrite !app_nil_r, !orb_false_r.
    split; [done|]. split; [done|]. split; [|done].
    unfold chunks_copied. by destruct (UpdateProgress args).
  - destruct (progress_events_observed args inputSize inputSize)
      as (_ & Hp1 & Hp2 & Hp3 & Hp4).
    destruct (progress_events_silent args inputSize inputSize) as (_ & _ & Hp5 & _).
    assert (existsb is_rename (progress_events args inputSize inputSize) = false) as Hp6.
    { unfold progress_events. by destruct (UpdateProgress args). }
    assert (existsb write_failed tl = false) as Hwf'.
    { rewrite Hwf. destruct x; [done|done]. }
    unfold chunks_copied, spec_notifications.
    rewrite !chunks_read_app, !done_values_app, !removed_app, !existsb_app, !last_app.
    rewrite Hio, Hx, Hrm, Hren, Hdone, Hwf', Hp1, Hp2, Hp3, Hp4, Hp5, Hp6.
    unfold chunks_copied. rewrite Hwf'.
    destruct removeWhenDone; cbn; rewrite !app_nil_r;
      (split; [done|]); (split; [done|]); by destruct (UpdateProgress args).
Qed.

End Ends.

(** ** Entry points *)

Section Entry.
Context {W : Type} `{!Posix W}.

Lemma Copy_run fuel uninit incoming (w : W) u w' tr :
  Copy fuel uninit incoming w = Some (u, w', tr) →
  ∃ t, tr = thrown incoming ++ t ∧
       Copy_body fuel (parse uninit incoming) w = Some (u, w', t).
Proof.
  unfold Copy. erewrite bind_run by apply Args_new_run.
  destruct (Copy_body _ _ _) as [[[u1 w1] t]|]; [|done].
  intros [= <- <- <-]. by exists t.
Qed.

Lemma Move_run fuel uninit incoming (w : W) u w' tr :
  Move fuel uninit incoming w = Some (u, w', tr) →
  ∃ t, tr = thrown incoming ++ t ∧
       Move_body fuel (parse uninit incoming) w = Some (u, w', t).
Proof.
  unfold Move. erewrite bind_run by apply Args_new_run.
  destruct (Move_body _ _ _) as [[[u1 w1] t]|]; [|done].
  intros [= <- <- <-]. by exists t.
Qed.

Lemma thrown_silent incoming :
  opened (thrown incoming) = [] ∧ closed (thrown incoming) = [] ∧
  no_completion (thrown incoming).
Proof.
  unfold thrown. destruct (rejected incoming); repeat split; by repeat constructor.
Qed.

(** Every run of [Copy] or [Move] that ends has the shape [finished]. *)
Lemma entry_finished fuel uninit incoming (w : W) u w' tr :
  Copy fuel uninit incoming w = Some (u, w', tr) ∨
  Move fuel uninit incoming w = Some (u, w', tr) →
  ∃ fds, finished (parse uninit incoming) fds fds w' tr.
Proof.
  destruct (thrown_silent incoming) as (Ho & Hc & Hn).
  intros [(t & -> & H)%Copy_run|(t & -> & H)%Move_run];
    [apply Copy_body_finished in H|apply Move_body_finished in H];
    destruct H as [fds H]; exists fds;
    (apply (finished_after (thrown incoming)) in H; [|done]);
    by rewrite Ho, Hc in H.
Qed.

Lemma parse_accepted uninit incoming :
  rejected incoming = None →
  ResultCallback (parse uninit incoming) = Cast (result_arg incoming) ∧
  is_Some (Cast (result_arg incoming)) ∧
  UpdateProgress (parse uninit incoming) = (3 <? Z.of_nat (length incoming)).
Proof.
  intros Hr. unfold parse, result_arg. rewrite Hr. revert Hr. unfold rejected.
  destruct (_ <? 3); [done|].
  destruct (negb (IsString (arg incoming 0))); [done|].
  destruct (negb (IsString (arg incoming 1))); [done|].
  destruct (arg incoming 2) eqn:H2; try done. cbn.
  destruct (3 <? _); cbn; [|by eauto].
  destruct (arg incoming 3) eqn:H3; try done; cbn; by eauto.
Qed.

(** The same-device branch of [Move] in any world: whatever [rename]
    returns, the branch goes on to report success. *)
Lemma rename_result_unused fuel in_ out in_stats out_stats args (w : W) :
  st_dev in_stats = st_dev out_stats →
  ∃ r1 r2 r3 r4 w',
    Move_dispatch fuel in_ out in_stats out_stats args w
    = Some (tt, w',
            [EClose in_ r1; EClose out r2; ERemove (Destination args) r3;
             ERename (Source args) (Destination args) r4] ++
            progress_events args (st_size in_stats) (st_size in_stats) ++
            [success_call args]) ∧
    r4 = (sys_rename (Source args) (Destination args)
            (sys_remove (Destination args)
               (sys_close out (sys_close in_ w).2).2).2).1.
Proof.
  intros Hdev. unfold Move_dispatch.
  replace (st_dev in_stats =? st_dev out_stats) with true by lia.
  run_monad. by eexists _, _, _, _, _.
Qed.

(** A source that cannot be opened, in any world: the destination has not
    been opened, and [remove] is called on it. *)
Lemma failed_open_removes_destination fuel args (w : W) :
  (sys_open (Source args) [O_RDONLY; O_BINARY] None w).1 < 0 →
  ∃ in_ r w',
    in_ < 0 ∧
    Copy_body fuel args w
    = Some (tt, w',
            [EOpen (Source args) [O_RDONLY; O_BINARY] None in_;
             ERemove (Destination args) r;
             failure_call args (sys_errno w') strerror]) ∧
    Move_body fuel args w = Copy_body fuel args w.
Proof.
  intros Hin. unfold Copy_body, Move_body, c_open.
  rewrite !(bind_run _ _ _ _ _ _ (syscall_run _ _ _)).
  destruct (_ <? 0) eqn:Hneg; [|lia].
  change (moveError args) with (copyByPathError args).
  rewrite copyByPathError_run. cbn.
  eexists _, _, _. split; [exact Hin|]. by split.
Qed.

(** A rejected call in any world: after the exception is scheduled the
    body still runs, on the empty paths, and calls [open]. *)
Lemma rejected_call_still_opens fuel uninit incoming msg (w : W) u w' tr :
  rejected incoming = Some msg →
  Copy fuel uninit incoming w = Some (u, w', tr) ∨
  Move fuel uninit incoming w = Some (u, w', tr) →
  ∃ r rest, tr = EThrow msg :: EOpen "" [O_RDONLY; O_BINARY] None r :: rest.
Proof.
  intros Hr H.
  assert (∃ t, tr = thrown incoming ++ t ∧
               (Copy_body fuel (blank uninit) w = Some (u, w', t) ∨
                Move_body fuel (blank uninit) w = Some (u, w', t))) as (t & -> & Hb).
  { destruct H as [(t & -> & H)%Copy_run|(t & -> & H)%Move_run];
      exists t; unfold parse in H; rewrite Hr in H; auto. }
  unfold thrown. rewrite Hr. cbn.
  destruct Hb as [Hb|Hb];
    apply bind_Some in Hb as (in_ & w1 & t1 & t2 & ->%syscall_inv & _ & ->);
    by eexists _, _.
Qed.

End Entry.

(** ** More fuel changes nothing *)

Section Fuel.
Context {W : Type} `{!Posix W}.

Lemma bind_more {A B} (m m' : M W A) (k k' : A → M W B) w r :
  (∀ r1, m w = Some r1 → m' w = Some r1) →
  (∀ a w1 r2, k a w1 = Some r2 → k' a w1 = Some r2) →
  bind m k w = Some r → bind m' k' w = Some r.
Proof.
  intros Hm Hk. unfold bind.
  destruct (m w) as [[[a w1] t1]|] eqn:Hmw; [|done].
  rewrite (Hm _ eq_refl).
  destruct (k a w1) as [[[b w2] t2]|] eqn:Hkw; [|done].
  by rewrite (Hk _ _ _ Hkw).
Qed.

Lemma Copy_fd_more_fuel fuel fuel' fd_in fd_out inputSize args removeWhenDone w r :
  (fuel ≤ fuel')%nat →
  Copy_fd fuel fd_in fd_out inputSize args removeWhenDone w = Some r →
  Copy_fd fuel' fd_in fd_out inputSize args removeWhenDone w = Some r.
Proof.
  intros Hle. unfold Copy_fd. apply bind_more; [|done].
  intros r1. by apply Copy_while_more_fuel.
Qed.

Lemma Copy_more_fuel fuel fuel' uninit incoming w r :
  (fuel ≤ fuel')%nat →
  Copy fuel uninit incoming w = Some r → Copy fuel' uninit incoming w = Some r.
Proof.
  intros Hle. unfold Copy, Copy_body.
  apply bind_more; [done|]. intros args w1 r1.
  apply bind_more; [done|]. intros in_ w2 r2.
  destruct (in_ <? 0); [done|].
  apply bind_more; [done|]. intros [c st] w3 r3.
  destruct (negb _); [done|].
  apply bind_more; [done|]. intros out w4 r4.
  destruct (out <? 0); [done|]. by apply Copy_fd_more_fuel.
Qed.

Lemma Move_more_fuel fuel fuel' uninit incoming w r :
  (fuel ≤ fuel')%nat →
  Move fuel uninit incoming w = Some r → Move fuel' uninit incoming w = Some r.
Proof.
  intros Hle. unfold Move, Move_body.
  apply bind_more; [done|]. intros args w1 r1.
  apply bind_more; [done|]. intros in_ w2 r2.
  destruct (in_ <? 0); [done|].
  apply bind_more; [done|]. intros [c st] w3 r3.
  destruct (negb _); [done|].
  apply bind_more; [done|]. intros out w4 r4.
  destruct (out <? 0); [done|].
  apply bind_more; [done|]. intros [c' st'] w5 r5.
  destruct (negb _); [done|].
  unfold Move_dispatch. destruct (_ =? _); [done|]. by apply Copy_fd_more_fuel.
Qed.

End Fuel.

(** ** The error path of the copy loop *)

Section Abort.
Context {W : Type} `{!Posix W}.

Lemma doWrite_abort fuel fd data datalen (w : W) w' tr :
  doWrite fuel fd data datalen w = Some (-1, w', tr) →
  ∃ before e, tr = before ++ [e] ∧ io_failed e = true ∧
              existsb io_failed before = false ∧
              Forall (λ e, is_write e = true) before.
Proof.
  revert data datalen w w' tr.
  induction fuel as [|fuel IH]; intros data datalen w w' tr; [done|].
  rewrite doWrite_unfold. cbn zeta.
  destruct (_ =? -1) eqn:Hw.
  { intros [= <- <-]. exists [], (EWrite fd (take (Z.to_nat datalen) data)
      (sys_write fd (take (Z.to_nat datalen) data) w).1). by cbn. }
  destruct (_ <? datalen).
  - destruct (doWrite fuel _ _ _ _) as [[[r1 w2] t]|] eqn:Hrec; [|done].
    intros [= -> <- <-].
    apply IH in Hrec as (before & e & -> & He & Hb & Hall).
    exists (EWrite fd (take (Z.to_nat datalen) data)
              (sys_write fd (take (Z.to_nat datalen) data) w).1 :: before), e.
    cbn. rewrite Hw. repeat split; try done. by constructor.
  - intros [= Heq]. lia.
Qed.

Lemma Copy_while_abort fuel fd_in fd_out inputSize bpu args p s (w : W) x w' tr :
  Copy_while fuel fd_in fd_out inputSize bpu args p s w = Some (x, w', tr) →
  exit_failed x = true →
  ∃ before e, tr = before ++ [e] ∧ io_failed e = true ∧
              existsb io_failed before = false ∧
              Forall (λ e, loop_event e = true) before.
Proof.
  revert p s w x w' tr.
  induction fuel as [|fuel IH]; intros p s w x w' tr; [done|].
  rewrite Copy_while_unfold. cbn zeta.
  set (b := (sys_read fd_in BUFFER_SIZE w).1.1) in *.
  destruct (0 <? b) eqn:Hpos.
  2:{ intros [= <- <- <-] Hx. exists [], (ERead fd_in BUFFER_SIZE b). by cbn. }
  assert ((b =? -1) = false) as Hb by lia.
  destruct (doWrite fuel _ _ _ _) as [[[wr w2] tw]|] eqn:Hw; [|done].
  destruct (wr =? -1) eqn:Hwr.
  { intros [= <- <- <-] _. assert (wr = -1) as -> by lia.
    apply doWrite_abort in Hw as (before & e & -> & He & Hbf & Hall).
    exists (ERead fd_in BUFFER_SIZE b :: before), e. cbn. rewrite Hb.
    repeat split; try done. constructor; [done|]. by apply writes_are_loop_events. }
  apply doWrite_trace in Hw as [Hall Hex]. rewrite Hwr in Hex.
  destruct (writes_observed _ Hall) as (_ & _ & Hio). rewrite Hex in Hio.
  destruct (progress_events_observed args (p + b) inputSize) as (Hp1 & _ & Hp2 & _).
  destruct (bpu <? _);
    (destruct (Copy_while fuel _ _ _ _ _ _ _ _) as [[[x1 w3] t]|] eqn:Hrec; [|done]);
    intros [= <- <- <-] Hx;
    destruct (IH _ _ _ _ _ _ Hrec Hx) as (before & e & -> & He & Hbf & Hev).
  - exists (ERead fd_in BUFFER_SIZE b :: tw ++
            progress_events args (p + b) inputSize ++ before), e.
    split; [cbn [app]; by rewrite <- ?app_assoc|]. split; [done|].
    cbn. rewrite Hb, !existsb_app, Hio, Hp2, Hbf. split; [done|].
    constructor; [done|]. rewrite !Forall_app. split; [|done].
    by apply writes_are_loop_events.
  - exists (ERead fd_in BUFFER_SIZE b :: tw ++ before), e.
    split; [cbn [app]; by rewrite <- ?app_assoc|]. split; [done|].
    cbn. rewrite Hb, !existsb_app, Hio, Hbf. split; [done|].
    constructor; [done|]. rewrite !Forall_app. split; [|done].
    by apply writes_are_loop_events.
Qed.

End Abort.


(** ** Runs return

    Fuel only bounds the two loops.  Against a kernel that gives any finite
    sequence of replies and fails every call after them, each loop
    iteration uses up a reply, so a run returns as soon as the fuel exceeds
    the number of replies. *)
Section Returns.
Import Script.

Lemma next_spec w :
  patient w →
  patient (next w).2 ∧
  (length (pending (next w).2) ≤ length (pending w))%nat ∧
  (r_ret (next w).1 ≠ -1 → (length (pending (next w).2) < length (pending w))%nat).
Proof.
  unfold patient, next. intros Hp.
  destruct (pending w) as [|r rest]; cbn; repeat split; auto; lia.
Qed.

Lemma returning_spec {A} (f : reply → A) w :
  returning f w = (f (next w).1, (next w).2).
Proof. unfold returning. by destruct (next w). Qed.

Lemma doWrite_returns fuel fd data datalen w :
  patient w → (length (pending w) < fuel)%nat →
  ∃ r w' tr, doWrite fuel fd data datalen w = Some (r, w', tr) ∧
             patient w' ∧ (length (pending w') ≤ length (pending w))%nat.
Proof.
  revert data datalen w.
  induction fuel as [|fuel IH]; intros data datalen w Hp Hfuel; [lia|].
  rewrite doWrite_unfold. cbn zeta. cbn [sys_write posix].
  rewrite returning_spec. cbn [fst snd].
  destruct (next_spec w Hp) as (Hp' & Hle & Hlt).
  destruct (_ =? -1) eqn:Hw; [by eexists _, _, _|].
  destruct (_ <? datalen); [|by eexists _, _, _].
  destruct (IH (drop (Z.to_nat (r_ret (next w).1)) data)
              (datalen - r_ret (next w).1) (next w).2 Hp')
    as (r & w' & tr & -> & Hp'' & Hle'); [lia|].
  eexists _, _, _. split; [done|]. split; [done|lia].
Qed.

Lemma Copy_while_returns fuel fd_in fd_out inputSize bpu args p s w :
  patient w → (length (pending w) < fuel)%nat →
  ∃ x w' tr, Copy_while fuel fd_in fd_out inputSize bpu args p s w = Some (x, w', tr).
Proof.
  revert p s w.
  induction fuel as [|fuel IH]; intros p s w Hp Hfuel; [lia|].
  rewrite Copy_while_unfold. cbn zeta. cbn [sys_read posix].
  rewrite returning_spec. cbn [fst snd].
  destruct (next_spec w Hp) as (Hp' & Hle & Hlt).
  destruct (0 <? _) eqn:Hpos; [|by eexists _, _, _].
  destruct (doWrite_returns fuel fd_out (r_buf (next w).1) (r_ret (next w).1)
              (next w).2 Hp') as (r & w2 & tw & -> & Hp2 & Hle2); [lia|].
  destruct (r =? -1); [by eexists _, _, _|].
  destruct (bpu <? _).
  - destruct (IH (p + r_ret (next w).1) 0 w2 Hp2) as (x & w3 & t & ->); [lia|].
    by eexists _, _, _.
  - destruct (IH (p + r_ret (next w).1) (s + r_ret (next w).1) w2 Hp2)
      as (x & w3 & t & ->); [lia|].
    by eexists _, _, _.
Qed.

Lemma Copy_fd_returns fuel fd_in fd_out inputSize args removeWhenDone w :
  patient w → (length (pending w) < fuel)%nat →
  ∃ w' tr, Copy_fd fuel fd_in fd_out inputSize args removeWhenDone w = Some (tt, w', tr).
Proof.
  intros Hp Hfuel. unfold Copy_fd.
  destruct (Copy_while_returns fuel fd_in fd_out inputSize (inputSize `quot` 100)
              args 0 0 w Hp Hfuel) as (x & wl & tl & Hloop).
  erewrite bind_run by exact Hloop.
  destruct x as [|r]; [|destruct (r =? -1)];
    rewrite ?copyByFdError_run, ?copyDone_run; by eexists _, _.
Qed.

(** Whatever replies the kernel gives before it starts to fail, both entry
    points return. *)
Lemma entries_return replies e fuel uninit incoming :
  (length replies < fuel)%nat →
  (∃ w' tr, Copy fuel uninit incoming (start replies (fails e)) = Some (tt, w', tr)) ∧
  (∃ w' tr, Move fuel uninit incoming (start replies (fails e)) = Some (tt, w', tr)).
Proof.
  intros Hfuel. set (w := start replies (fails e)).
  assert (patient w) as Hp by done.
  assert (length (pending w) < fuel)%nat as Hlen by done.
  clearbody w. clear Hfuel.
  assert (∀ w1, patient w1 → (length (pending w1) < fuel)%nat →
    ∃ w' tr, copyByPathError (parse uninit incoming) w1 = Some (tt, w', tr)) as Herr.
  { intros w1 _ _. rewrite copyByPathError_run. by eexists _, _. }
  split.
  - unfold Copy. erewrite bind_run by apply Args_new_run.
    enough (∃ w' t, Copy_body fuel (parse uninit incoming) w = Some (tt, w', t))
      as (w' & t & ->) by by eexists _, _.
    unfold Copy_body, c_open, c_fstat, c_close.
    erewrite bind_run by apply syscall_run. cbn [sys_open posix].
    rewrite returning_spec. cbn [fst snd].
    destruct (next_spec w Hp) as (Hp1 & Hle1 & _).
    set (w1 := (next w).2) in *.
    destruct (_ <? 0).
    { destruct (Herr w1 Hp1 ltac:(lia)) as (w' & t & ->). by eexists _, _. }
    erewrite bind_run by apply syscall_run. cbn [sys_fstat posix].
    rewrite returning_spec. cbn [fst snd].
    destruct (next_spec w1 Hp1) as (Hp2 & Hle2 & _).
    set (w2 := (next w1).2) in *.
    destruct (negb _).
    { erewrite bind_run by apply syscall_run. cbn [sys_close posix].
      destruct (Herr (returning r_ret w2).2) as (w' & t & ->);
        [rewrite returning_spec; apply next_spec; done
        |rewrite returning_spec; cbn; pose proof (next_spec w2 Hp2); lia|].
      by eexists _, _. }
    erewrite bind_run by apply syscall_run. cbn [sys_open posix].
    rewrite returning_spec. cbn [fst snd].
    destruct (next_spec w2 Hp2) as (Hp3 & Hle3 & _).
    set (w3 := (next w2).2) in *.
    destruct (_ <? 0).
    { erewrite bind_run by apply syscall_run. cbn [sys_close posix].
      destruct (Herr (returning r_ret w3).2) as (w' & t & ->);
        [rewrite returning_spec; apply next_spec; done
        |rewrite returning_spec; cbn; pose proof (next_spec w3 Hp3); lia|].
      by eexists _, _. }
    destruct (Copy_fd_returns fuel (r_ret (next w).1) (r_ret (next w2).1)
                (st_size (r_stat (next w1).1)) (parse uninit incoming) false w3 Hp3)
      as (w' & t & ->); [lia|].
    by eexists _, _.
  - unfold Move. erewrite bind_run by apply Args_new_run.
    enough (∃ w' t, Move_body fuel (parse uninit incoming) w = Some (tt, w', t))
      as (w' & t & ->) by by eexists _, _.
    unfold Move_body, c_open, c_fstat, c_close.
    erewrite bind_run by apply syscall_run. cbn [sys_open posix].
    rewrite returning_spec. cbn [fst snd].
    destruct (next_spec w Hp) as (Hp1 & Hle1 & _).
    set (w1 := (next w).2) in *.
    destruct (_ <? 0).
    { rewrite moveError_run.
      destruct (Herr w1 Hp1 ltac:(lia)) as (w' & t & ->). by eexists _, _. }
    erewrite bind_run by apply syscall_run. cbn [sys_fstat posix].
    rewrite returning_spec. cbn [fst snd].
    destruct (next_spec w1 Hp1) as (Hp2 & Hle2 & _).
    set (w2 := (next w1).2) in *.
    destruct (negb _).
    { erewrite bind_run by apply syscall_run. cbn [sys_close posix].
      rewrite moveError_run.
      destruct (Herr (returning r_ret w2).2) as (w' & t & ->);
        [rewrite returning_spec; apply next_spec; done
        |rewrite returning_spec; cbn; pose proof (next_spec w2 Hp2); lia|].
      by eexists _, _. }
    erewrite bind_run by apply syscall_run. cbn [sys_open posix].
    rewrite returning_spec. cbn [fst snd].
    destruct (next_spec w2 Hp2) as (Hp3 & Hle3 & _).
    set (w3 := (next w2).2) in *.
    destruct (_ <? 0).
    { erewrite bind_run by apply syscall_run. cbn [sys_close posix].
      rewrite moveError_run.
      destruct (Herr (returning r_ret w3).2) as (w' & t & ->);
        [rewrite returning_spec; apply next_spec; done
        |rewrite returning_spec; cbn; pose proof (next_spec w3 Hp3); lia|].
      by eexists _, _. }
    erewrite bind_run by apply syscall_run. cbn [sys_fstat posix].
    rewrite returning_spec. cbn [fst snd].
    destruct (next_spec w3 Hp3) as (Hp4 & Hle4 & _).
    set (w4 := (next w3).2) in *.
    destruct (negb _).
    { erewrite bind_run by apply syscall_run.
      erewrite bind_run by apply syscall_run. cbn [sys_close posix].
      rewrite !returning_spec. cbn [fst snd]. rewrite moveError_run.
      destruct (next_spec w4 Hp4) as (Hp5 & Hle5 & _).
      destruct (Herr (next (next w4).2).2) as (w' & t & ->);
        [apply next_spec; done|pose proof (next_spec (next w4).2 Hp5); lia|].
      by eexists _, _. }
    unfold Move_dispatch. destruct (_ =? _).
    { run_monad. by eexists _, _. }
    destruct (Copy_fd_returns fuel (r_ret (next w).1) (r_ret (next w2).1)
                (st_size (r_stat (next w1).1)) (parse uninit incoming) true w4 Hp4)
      as (w' & t & ->); [lia|].
    by eexists _, _.
Qed.

(** X12: whatever replies the kernel gives before it starts to fail, Copy
    and Move return: the fuel runs out in neither loop once it exceeds the
    number of replies. *)
Theorem runs_return replies e fuel uninit incoming :
  (length replies < fuel)%nat →
  (∃ w' tr, Copy fuel uninit incoming (start replies (fails e)) = Some (tt, w', tr)) ∧
  (∃ w' tr, Move fuel uninit incoming (start replies (fails e)) = Some (tt, w', tr)).
Proof.
  intros Hfuel.
  destruct (entries_return replies e fuel uninit incoming Hfuel) as [Hcopy Hmove].
  by split.
Qed.

End Returns.

Lemma notified_app t1 t2 : notified (t1 ++ t2) = notified t1 ++ notified t2.
Proof. apply omap_app. Qed.

Lemma and_impl_r (A B C : Prop) : (B → C) → A ∧ B → A ∧ C.
Proof. tauto. Qed.

(** ** Helpers for the claims *)

Lemma setup_silent pre :
  Forall (λ e, is_setup e = true) pre →
  removed pre = [] ∧ fsynced pre = [] ∧ callbacks pre = [] ∧ notified pre = [] ∧
  existsb is_rename pre = false.
Proof.
  induction 1 as [|e pre He _ (Hr & Hf & Hc & Hn & Hx)]; [done|]. by destruct e.
Qed.

Lemma thrown_quiet incoming :
  removed (thrown incoming) = [] ∧ fsynced (thrown incoming) = [] ∧
  callbacks (thrown incoming) = [] ∧ notified (thrown incoming) = [] ∧
  existsb is_rename (thrown incoming) = false.
Proof. unfold thrown. by destruct (rejected incoming). Qed.

Section CrossDevice.
Context {W : Type} `{!Posix W}.


End CrossDevice.



Lemma removelast_cons_cons {A} (a b : A) l : removelast (a :: b :: l) = a :: removelast (b :: l).
Proof. done. Qed.

Lemma Script_progressing fd bytes (w0 : Script.world) :
  progressing w0 → bytes ≠ [] →
  progressing (sys_write fd bytes w0).2 ∧
  ((sys_write fd bytes w0).1 = -1 ∨ 0 < (sys_write fd bytes w0).1 ≤ SSIZE_MAX).
Proof.
  intros [Hp Hf] _. cbn [sys_write Script.posix]. rewrite returning_spec.
  cbn [fst snd]. unfold Script.next, progressing.
  destruct (Script.pending w0) as [|r rest]; cbn.
  - done.
  - apply Forall_cons in Hp as [Hr Hrest]. done.
Qed.

Section Once.
Context {W : Type} `{!Posix W}.

Lemma finished_completes_once args fds (w' : W) tr :
  finished args fds fds w' tr → completes_once args tr.
Proof.
  intros (pre & Ho & Hc & Hn & Hlast). exists pre.
  destruct Hlast as [->|(pre' & r & _ & ->)]; eexists;
    (split; [reflexivity|]); repeat split; try done; congruence.
Qed.

End Once.

Lemma parse_rejected uninit incoming msg :
  rejected incoming = Some msg → ResultCallback (parse uninit incoming) = None.
Proof. intros Hr. unfold parse. by rewrite Hr. Qed.

Lemma doWrite_stalls fuel fd :
  doWrite fuel fd hello 5 (Script.start [] (Script.ok 0)) = None.
Proof.
  induction fuel as [|fuel IH]; [done|].
  rewrite doWrite_unfold.
  change (match doWrite fuel fd hello 5 (Script.start [] (Script.ok 0)) with
          | Some (r1, w2, t) => Some (r1, w2, EWrite fd hello 0 :: t)
          | None => None
          end = None).
  by rewrite IH.
Qed.

Section Labels.
Context {W : Type} `{!Posix W}.

(** A first [read] that fails, in any world: the engine goes to
    [copyByFdError] and delivers [strerror] of the [errno] that the three
    clean-up calls leave. *)
Lemma failed_read_is_reported fuel fd_in fd_out inputSize args removeWhenDone (w : W) :
  (sys_read fd_in BUFFER_SIZE w).1.1 = -1 →
  ∃ r1 r2 r3 w',
    Copy_fd (S fuel) fd_in fd_out inputSize args removeWhenDone w
    = Some (tt, w',
            [ERead fd_in BUFFER_SIZE (-1); EClose fd_in r1; EClose fd_out r2;
             ERemove (Destination args) r3;
             failure_call args (sys_errno w') strerror]) ∧
    w' = (sys_remove (Destination args)
            (sys_close fd_out (sys_close fd_in (sys_read fd_in BUFFER_SIZE w).2).2).2).2.
Proof.
  intros Hread. unfold Copy_fd, bind. rewrite Copy_while_unfold. cbn zeta.
  rewrite Hread. change (0 <? -1) with false. cbn iota.
  change (-1 =? -1) with true. cbn iota.
  rewrite copyByFdError_run. cbn zeta. by eexists _, _, _, _.
Qed.

(** A source that cannot be opened, from the entry points. *)
Lemma failed_open_is_reported fuel uninit incoming (w : W) :
  (sys_open (Source (parse uninit incoming)) [O_RDONLY; O_BINARY] None w).1 < 0 →
  ∃ in_ r w',
    Copy fuel uninit incoming w
    = Some (tt, w',
            thrown incoming ++
            [EOpen (Source (parse uninit incoming)) [O_RDONLY; O_BINARY] None in_;
             ERemove (Destination (parse uninit incoming)) r;
             failure_call (parse uninit incoming) (sys_errno w') strerror]) ∧
    Move fuel uninit incoming w = Copy fuel uninit incoming w.
Proof.
  intros Hopen.
  destruct (failed_open_removes_destination fuel _ w Hopen)
    as (in_ & r & w' & _ & Hc & Hm).
  exists in_, r, w'. unfold Copy, Move.
  rewrite !(bind_run _ _ _ _ _ _ (Args_new_run _ _ _)). by rewrite Hm, Hc.
Qed.

End Labels.

(** * The claims *)

(** ** Renaming on one device *)

(** C1: Move of a file onto its own path.  Both descriptors are on one
    device, so the same-device branch runs: it removes the destination,
    which is the source; [rename] then fails with ENOENT; its result is not
    looked at, and the caller is told [(null, true)] while the file is
    gone. *)
Theorem failed_rename_reports_success :
  let w0 := RefFS.mount [("/tmp/a", regular hello)] in
  ∃ w',
    Move 1 false [VString "/tmp/a"; VString "/tmp/a"; on_complete] w0
    = Some (tt, w',
            [EOpen "/tmp/a" [O_RDONLY; O_BINARY] None 3;
             EFstat 3 0;
             EOpen "/tmp/a" [O_WRONLY; O_CREAT; O_TRUNC; O_BINARY] (Some 420) 4;
             EFstat 4 0;
             EClose 3 0; EClose 4 0;
             ERemove "/tmp/a" 0;
             ERename "/tmp/a" "/tmp/a" (-1);
             ECall (Some 1%nat) [VNull; VBool true]]) ∧
    sys_errno w' = ENOENT ∧
    RefFS.files w' !! "/tmp/a" = None.
Proof. eexists. repeat split; vm_compute; reflexivity. Qed.

(** ** Rejected arguments *)

(** C2: Copy called with two paths and no callback.  The constructor
    schedules the TypeError and returns; the body of Copy then runs on the
    empty paths: it calls [open] and [remove], both of which fail on the
    empty path, and calls the result callback through its empty handle. *)
Theorem rejected_call_runs_the_body :
  let w0 := RefFS.mount [("/tmp/a", regular hello)] in
  ∃ w',
    Copy 1 false [VString "/tmp/a"; VString "/tmp/b"] w0
    = Some (tt, w',
            [EThrow "Not enough arguments";
             EOpen "" [O_RDONLY; O_BINARY] None (-1);
             ERemove "" (-1);
             ECall None [VString "No such file or directory"; VBool false]]) ∧
    RefFS.files w' = RefFS.files w0.
Proof. eexists. repeat split; vm_compute; reflexivity. Qed.

(** ** Errors in the copy loop *)

(** X6: what does hold on the error path, in every world: in a finished run
    of the copy engine in which a read or a write returned -1, that call is
    the last event of the loop (everything before it is a read, a write
    that did not fail, or a progress notification, and nothing else); it is
    followed by [close] of both descriptors, [remove] of the destination
    path, whose result is not looked at, and one call of the result
    callback with an error text and [false].  No other call of the result
    callback is made. *)
Theorem copy_error_aborts_and_cleans_up {W} `{!Posix W} fuel fd_in fd_out
    inputSize args removeWhenDone (w w' : W) tr :
  Copy_fd fuel fd_in fd_out inputSize args removeWhenDone w = Some (tt, w', tr) →
  existsb io_failed tr = true →
  ∃ before e r1 r2 r3 text,
    tr = before ++
         [e; EClose fd_in r1; EClose fd_out r2; ERemove (Destination args) r3;
          ECall (ResultCallback args) [VString text; VBool false]] ∧
    io_failed e = true ∧
    existsb io_failed before = false ∧
    Forall (λ e, loop_event e = true) before.
Proof.
  intros Hrun Hfail.
  destruct (Copy_fd_trace _ _ _ _ _ _ _ _ _ _ Hrun)
    as (x & wl & tl & Hloop & [(Hx & r1 & r2 & r3 & ->)|(Hx & r1 & r2 & r3 & ->)]).
  - destruct (Copy_while_abort _ _ _ _ _ _ _ _ _ _ _ _ Hloop Hx)
      as (before & e & -> & He & Hb & Hev).
    exists before, e, r1, r2, r3, (strerror (sys_errno w')).
    by rewrite <- app_assoc.
  - apply Copy_fd_observed in Hrun as (_ & _ & _ & _ & _ & Hlast).
    rewrite Hfail, !last_app in Hlast. by destruct removeWhenDone.
Qed.

Lemma copy_error_aborts_and_cleans_up_witness :
  ∃ w' tr,
    Copy_fd 3 3 4 5 sample_args false
      (Script.start [Script.bytes hello; Script.fails ENOSPC] (Script.ok 0))
    = Some (tt, w', tr) ∧
    ∃ before e r1 r2 r3 text,
      tr = before ++
           [e; EClose 3 r1; EClose 4 r2; ERemove (Destination sample_args) r3;
            ECall (ResultCallback sample_args) [VString text; VBool false]] ∧
      io_failed e = true ∧
      existsb io_failed before = false ∧
      Forall (λ e, loop_event e = true) before.
Proof.
  eexists _, _. split; [vm_compute; reflexivity|].
  eapply (copy_error_aborts_and_cleans_up 3 3 4 5 sample_args false
            (Script.start [Script.bytes hello; Script.fails ENOSPC] (Script.ok 0))).
  - vm_compute. reflexivity.
  - reflexivity.
Defined.

(** C3: a copy onto a full device whose entry the caller may not unlink
    (/dev/full, for a user other than root).  The [write] fails with ENOSPC
    and the loop is left; both descriptors are closed; the clean-up [remove]
    fails with EACCES and sets [errno]; [strerror(errno)] is evaluated only
    then, so the one failure completion carries the text of EACCES and not
    the text of the failed write. *)
Theorem write_error_text_is_overwritten :
  ∃ w',
    Copy 3 false [VString "/etc/hostname"; VString "/dev/full"; on_complete]
      (Script.start [Script.ok 3; Script.stats 420 5 1; Script.ok 4;
                     Script.bytes hello; Script.fails ENOSPC;
                     Script.ok 0; Script.ok 0; Script.fails EACCES] (Script.ok 0))
    = Some (tt, w',
            [EOpen "/etc/hostname" [O_RDONLY; O_BINARY] None 3;
             EFstat 3 0;
             EOpen "/dev/full" [O_WRONLY; O_CREAT; O_TRUNC; O_BINARY] (Some 420) 4;
             ERead 3 16384 5;
             EWrite 4 hello (-1);
             EClose 3 0; EClose 4 0;
             ERemove "/dev/full" (-1);
             ECall (Some 1%nat) [VString "Permission denied"; VBool false]]) ∧
    strerror_linux ENOSPC = "No space left on device".
Proof. eexists. split; vm_compute; reflexivity. Qed.

(** ** Path errors *)

(** C4: Copy of a source that does not exist onto a file that does.  The
    first [open] fails, the destination was never opened, and the error
    path removes it all the same. *)
Theorem missing_source_removes_the_destination :
  let w0 := RefFS.mount [("/tmp/keep", regular hello)] in
  RefFS.files w0 !! "/tmp/keep" = Some (regular hello) ∧
  ∃ w',
    Copy 1 false [VString "/no/such"; VString "/tmp/keep"; on_complete] w0
    = Some (tt, w',
            [EOpen "/no/such" [O_RDONLY; O_BINARY] None (-1);
             ERemove "/tmp/keep" 0;
             ECall (Some 1%nat) [VString "No such file or directory"; VBool false]]) ∧
    RefFS.files w' !! "/tmp/keep" = None.
Proof. split; [|eexists; split]; vm_compute; reflexivity. Qed.

(** ** Moving across devices *)




(** ** Progress *)

(** C6, as the code has it: in a run of the copy engine (from Copy or from
    a cross-device Move) or of the same-device branch of Move, with a
    progress callback, that ends in the success completion, the last
    progress notification is [(inputSize, inputSize)]; and the [done] values
    are non-decreasing when the bytes read in total do not exceed
    [inputSize], the size that [fstat] reported. *)
Theorem progress_is_monotone_within_size {W} `{!Posix W} fuel fd_in fd_out
    inputSize args removeWhenDone (w w' : W) tr :
  UpdateProgress args = true →
  Copy_fd fuel fd_in fd_out inputSize args removeWhenDone w = Some (tt, w', tr) ∨
  (∃ in_stats out_stats,
     st_size in_stats = inputSize ∧
     Move_dispatch fuel fd_in fd_out in_stats out_stats args w = Some (tt, w', tr)) →
  last tr = Some (success_call args) →
  last (notified tr) = Some (inputSize, inputSize) ∧
  (total (chunks_read tr) ≤ inputSize → StronglySorted Z.le (done_values tr)).
Proof.
  intros Hup Hrun Hlast.
  assert (∀ rm, Copy_fd fuel fd_in fd_out inputSize args rm w = Some (tt, w', tr) →
    last (notified tr) = Some (inputSize, inputSize) ∧
    (total (chunks_read tr) ≤ inputSize → StronglySorted Z.le (done_values tr)))
    as Hcopy.
  { intros rm Hc.
    destruct (Copy_fd_observed _ _ _ _ _ _ _ _ _ _ Hc)
      as (Hpos & Hsame & Hdone & _ & _ & Hl).
    rewrite Hlast in Hl. destruct (existsb io_failed tr); [done|].
    specialize (Hsame eq_refl). rewrite Hup, Hsame in Hdone. split.
    - apply Copy_fd_trace in Hc as (x & wl & tl & _ & [(_ & r1 & r2 & r3 & ->)|
        (_ & r1 & r2 & r3 & ->)]).
      { rewrite last_app in Hlast. done. }
      unfold progress_events. rewrite Hup, !notified_app.
      destruct rm; cbn; by rewrite last_app.
    - intros Hsize. rewrite Hdone.
      destruct (notifications_from_sorted (inputSize `quot` 100) 0 0 _ Hpos)
        as [Hs Hb].
      apply StronglySorted_snoc_le; [done|].
      eapply Forall_impl; [exact Hb|]. cbn. lia. }
  destruct Hrun as [Hc|(in_stats & out_stats & <- & Hm)]; [by eapply Hcopy|].
  unfold Move_dispatch in Hm. destruct (_ =? _) eqn:Hdev; [|by eapply Hcopy].
  destruct (rename_result_unused fuel fd_in fd_out in_stats out_stats args w
              ltac:(lia)) as (r1 & r2 & r3 & r4 & w1 & Hrun & _).
  unfold Move_dispatch in Hrun. rewrite Hdev, Hm in Hrun. injection Hrun as _ ->.
  unfold progress_events. rewrite Hup. cbn. split; [done|]. intros _.
  repeat constructor.
Qed.

Lemma progress_is_monotone_within_size_witness :
  ∃ w' tr,
    Copy_fd 9 3 4 10 sample_args false two_chunks = Some (tt, w', tr) ∧
    done_values tr = [5; 10; 10] ∧
    total (chunks_read tr) = 10 ∧
    last (notified tr) = Some (10, 10) ∧
    StronglySorted Z.le (done_values tr).
Proof.
  eexists _, _. split; [vm_compute; reflexivity|].
  split; [reflexivity|]. split; [reflexivity|].
  eapply and_impl_r;
    [|eapply (progress_is_monotone_within_size 9 3 4 10 sample_args false two_chunks)].
  - intros Hsorted. apply Hsorted. vm_compute. discriminate.
  - reflexivity.
  - left. vm_compute. reflexivity.
  - reflexivity.
Defined.

(** C6 fails as stated: a source whose [fstat] size is 0 but whose reads
    deliver five bytes (a file under /proc, or one that grew after the
    [fstat]) is copied with success, and the [done] values are 5, then 0. *)
Lemma progress_can_go_back :
  ∃ w' tr,
    Copy 3 false [VString "/proc/version"; VString "/tmp/v"; on_progress; on_complete]
      (Script.start [Script.ok 3; Script.stats 292 0 1; Script.ok 4;
                     Script.bytes hello; Script.ok 5] (Script.ok 0))
    = Some (tt, w', tr) ∧
    last tr = Some (ECall (Some 1%nat) [VNull; VBool true]) ∧
    notified tr = [(5, 0); (0, 0)] ∧
    ¬ StronglySorted Z.le (done_values tr).
Proof.
  eexists _, _. split; [vm_compute; reflexivity|].
  split; [reflexivity|]. split; [reflexivity|].
  intros Hs. apply StronglySorted_inv in Hs as [_ Hall].
  apply Forall_inv in Hall. by vm_compute in Hall.
Qed.

(** C7: in a finished run of the copy engine with a progress callback, the
    [done] values reported are the ones the throttling rule yields for the
    chunks copied, with threshold [inputSize / 100] rounded toward zero,
    followed by the final [inputSize] when no read or write failed; and when
    the source is shorter than 100 bytes, every chunk copied is reported. *)
Theorem notifications_follow_the_threshold {W} `{!Posix W} fuel fd_in fd_out
    inputSize args removeWhenDone (w w' : W) tr :
  UpdateProgress args = true →
  Copy_fd fuel fd_in fd_out inputSize args removeWhenDone w = Some (tt, w', tr) →
  done_values tr
  = spec_notifications inputSize (chunks_copied tr) ++
    (if existsb io_failed tr then [] else [inputSize]) ∧
  (0 ≤ inputSize < 100 →
   done_values tr
   = running_totals 0 (chunks_copied tr) ++
     (if existsb io_failed tr then [] else [inputSize])).
Proof.
  intros Hup Hrun.
  destruct (Copy_fd_observed _ _ _ _ _ _ _ _ _ _ Hrun) as (Hpos & _ & Hdone & _).
  rewrite Hup in Hdone. split; [done|]. intros Hsmall. rewrite Hdone. f_equal.
  unfold spec_notifications. rewrite Z.quot_small by done.
  apply notifications_from_every_chunk; [done|].
  unfold chunks_copied. destruct (existsb write_failed tr); [|done].
  by apply removelast_total.
Qed.

Lemma notifications_follow_the_threshold_witness :
  ∃ w' tr,
    Copy_fd 9 3 4 10 sample_args false two_chunks = Some (tt, w', tr) ∧
    chunks_copied tr = [5; 5] ∧
    done_values tr = [5; 10; 10] ∧
    done_values tr
    = spec_notifications 10 (chunks_copied tr) ++
      (if existsb io_failed tr then [] else [10]) ∧
    done_values tr
    = running_totals 0 (chunks_copied tr) ++
      (if existsb io_failed tr then [] else [10]).
Proof.
  eexists _, _. split; [vm_compute; reflexivity|].
  split; [reflexivity|]. split; [reflexivity|].
  eapply and_impl_r;
    [|eapply (notifications_follow_the_threshold 9 3 4 10 sample_args false two_chunks)].
  - intros Hsmall. apply Hsmall. lia.
  - reflexivity.
  - vm_compute. reflexivity.
Defined.

(** ** Short writes *)

(** C8, as the code has it: on a descriptor on which every [write] of a
    non-empty request either fails or takes at least one byte (in every
    state [Inv] of the world that the run can reach), [doWrite] returns
    within [datalen] calls of [write]; every call is handed the unwritten
    tail; all calls but the last are short writes, which together took
    fewer than [datalen] bytes; and it returns -1 after a [write] that
    returned -1, or else the counts reach [datalen], exactly [datalen]
    when no [write] took more than it was handed. *)
Theorem doWrite_returns_when_writes_progress {W} `{!Posix W} (Inv : W → Prop)
    fd data datalen fuel (w : W) :
  (∀ bytes w0, Inv w0 → bytes ≠ [] →
     Inv (sys_write fd bytes w0).2 ∧
     ((sys_write fd bytes w0).1 = -1 ∨ 0 < (sys_write fd bytes w0).1 ≤ SSIZE_MAX)) →
  Inv w →
  0 < datalen ≤ Z.of_nat (length data) →
  datalen < 2 ^ 64 →
  (Z.to_nat datalen ≤ fuel)%nat →
  ∃ r w' tr rets,
    doWrite fuel fd data datalen w = Some (r, w', tr) ∧
    tr = retries fd data datalen rets ∧
    last rets = Some r ∧
    (length rets ≤ Z.to_nat datalen)%nat ∧
    Forall (λ c, 0 < c) (removelast rets) ∧
    total (removelast rets) < datalen ∧
    (r = -1 ∨ datalen ≤ total rets) ∧
    (Forall write_in_range tr → r = -1 ∨ total rets = datalen).
Proof.
  intros Hprog. revert data datalen w.
  induction fuel as [|fuel IH]; intros data datalen w Hinv Hlen Hmax Hfuel; [lia|].
  rewrite doWrite_unfold. cbn zeta.
  set (bytes := take (Z.to_nat datalen) data).
  assert (Z.of_nat (length bytes) = datalen) as Hbytes.
  { unfold bytes. rewrite length_take. lia. }
  assert (bytes ≠ []) as Hne.
  { intros Heq. rewrite Heq in Hbytes. cbn in Hbytes. lia. }
  destruct (Hprog bytes w Hinv Hne) as [Hinv' [Herr|Hcount]].
  { rewrite Herr. cbn. eexists _, _, _, [-1]. cbn.
    repeat split; auto; try lia. }
  set (written := (sys_write fd bytes w).1) in *.
  unfold SSIZE_MAX in Hcount.
  replace (written =? -1) with false by lia.
  unfold to_size_t. rewrite Z.mod_small by lia.
  destruct (written <? datalen) eqn:Hshort.
  - destruct (IH (drop (Z.to_nat written) data) (datalen - written)
               (sys_write fd bytes w).2 Hinv')
      as (r & w' & tr & rets & Hrun & -> & Hl & Hn & Hs & Ht & Hr & Hx).
    { rewrite length_drop. lia. }
    { lia. }
    { lia. }
    rewrite Hrun. exists r, w', (EWrite fd bytes written :: retries fd
      (drop (Z.to_nat written) data) (datalen - written) rets), (written :: rets).
    split; [done|]. split; [done|].
    destruct rets as [|r0 rets]; [done|].
    split; [done|]. split; [cbn [length] in *; lia|].
    rewrite removelast_cons_cons.
    split; [constructor; [lia|done]|].
    unfold total in *. cbn [foldr] in *.
    split; [lia|]. split; [lia|].
    intros Hrange. apply Forall_cons in Hrange as [_ Hrange].
    destruct (Hx Hrange); [by left|right; lia].
  - exists written, (sys_write fd bytes w).2, [EWrite fd bytes written], [written].
    unfold total. cbn. repeat split; auto; try lia.
    intros Hrange. apply Forall_inv in Hrange. cbn in Hrange. right. lia.
Qed.

Lemma doWrite_returns_when_writes_progress_witness :
  let w := Script.start [Script.ok 2; Script.ok 3] (Script.fails EIO) in
  (∃ w', doWrite 5 4 hello 5 w
         = Some (3, w', [EWrite 4 hello 2; EWrite 4 [x6c; x6c; x6f] 3])) ∧
  ∃ r w' tr rets,
    doWrite 5 4 hello 5 w = Some (r, w', tr) ∧
    tr = retries 4 hello 5 rets ∧
    last rets = Some r ∧
    (length rets ≤ Z.to_nat 5)%nat ∧
    Forall (λ c, 0 < c) (removelast rets) ∧
    total (removelast rets) < 5 ∧
    (r = -1 ∨ 5 ≤ total rets) ∧
    (Forall write_in_range tr → r = -1 ∨ total rets = 5).
Proof.
  split; [eexists; vm_compute; reflexivity|].
  apply (doWrite_returns_when_writes_progress progressing 4 hello 5 5
           (Script.start [Script.ok 2; Script.ok 3] (Script.fails EIO))).
  - intros bytes w0. apply Script_progressing.
  - split.
    + repeat (constructor; [right; split; [reflexivity|vm_compute; discriminate]|]).
      constructor.
    + left. reflexivity.
  - vm_compute. split; [reflexivity|discriminate].
  - reflexivity.
  - vm_compute. lia.
Defined.

(** C8 fails as stated: on a descriptor that answers every [write] with 0,
    [doWrite] never returns, whatever the fuel. *)
Lemma doWrite_retries_zero_writes_for_ever :
  ¬ ∃ fuel r, doWrite fuel 4 hello 5 (Script.start [] (Script.ok 0)) = Some r.
Proof.
  intros (fuel & r & Hrun). revert r Hrun.
  induction fuel as [|fuel IH]; intros r; [done|].
  rewrite doWrite_unfold.
  change (match doWrite fuel 4 hello 5 (Script.start [] (Script.ok 0)) with
          | Some (r1, w2, t) => Some (r1, w2, EWrite 4 hello 0 :: t)
          | None => None
          end = Some r → False).
  destruct (doWrite fuel 4 hello 5 _) as [r1|] eqn:Hrec; [|done].
  intros _. by apply (IH r1).
Qed.

(** ** Descriptors and the completion *)

(** C9, as the code has it.  In every world, every run of Copy or Move
    that ends is some events followed by exactly one call of the result
    callback; before it there is no call of a result callback, and the
    descriptors closed are exactly the descriptors opened, one [close] for
    each [open] that succeeded; the completion being the last event, no
    progress notification follows it.  For accepted arguments the callback
    is the caller's completion handler; for rejected arguments it is the
    empty handle.  And runs do end, with this shape, against every kernel
    that gives finitely many replies and then fails every call, so the
    error paths do deliver their completion. *)
Theorem one_completion_after_the_closes :
  (∀ W (P : Posix W) fuel uninit incoming (w w' : W) tr,
     Copy fuel uninit incoming w = Some (tt, w', tr) ∨
     Move fuel uninit incoming w = Some (tt, w', tr) →
     completes_once (parse uninit incoming) tr ∧
     (rejected incoming = None →
      ResultCallback (parse uninit incoming) = Cast (result_arg incoming) ∧
      is_Some (Cast (result_arg incoming))) ∧
     (is_Some (rejected incoming) → ResultCallback (parse uninit incoming) = None)) ∧
  (∀ replies e fuel uninit incoming,
     (length replies < fuel)%nat →
     (∃ w' tr,
        Copy fuel uninit incoming (Script.start replies (Script.fails e)) = Some (tt, w', tr) ∧
        completes_once (parse uninit incoming) tr) ∧
     (∃ w' tr,
        Move fuel uninit incoming (Script.start replies (Script.fails e)) = Some (tt, w', tr) ∧
        completes_once (parse uninit incoming) tr)).
Proof.
  assert (∀ W (P : Posix W) fuel uninit incoming (w w' : W) tr,
    Copy fuel uninit incoming w = Some (tt, w', tr) ∨
    Move fuel uninit incoming w = Some (tt, w', tr) →
    completes_once (parse uninit incoming) tr) as Hshape.
  { intros W P fuel uninit incoming w w' tr Hrun.
    apply entry_finished in Hrun as (fds & Hfin). by eapply finished_completes_once. }
  split.
  - intros W P fuel uninit incoming w w' tr Hrun. split; [by eapply Hshape|]. split.
    + intros Hok. by destruct (parse_accepted uninit incoming Hok) as (? & ? & _).
    + intros [msg Hmsg]. by eapply parse_rejected.
  - intros replies e fuel uninit incoming Hfuel.
    destruct (entries_return replies e fuel uninit incoming Hfuel)
      as [(w1 & t1 & Hc) (w2 & t2 & Hm)].
    split.
    + exists w1, t1. split; [done|].
      apply (Hshape _ _ fuel uninit incoming (Script.start replies (Script.fails e)) w1).
      by left.
    + exists w2, t2. split; [done|].
      apply (Hshape _ _ fuel uninit incoming (Script.start replies (Script.fails e)) w2).
      by right.
Qed.

Lemma one_completion_after_the_closes_witness :
  let incoming := [VString "/tmp/a"; VString "/mnt/b"; on_progress; on_complete] in
  let replies := [Script.ok 3; Script.stats 420 5 1; Script.ok 4; Script.stats 420 0 2;
                  Script.bytes hello; Script.fails ENOSPC] in
  (∃ w', Move 7 false incoming (Script.start replies (Script.fails EIO))
         = Some (tt, w',
                 [EOpen "/tmp/a" [O_RDONLY; O_BINARY] None 3;
                  EFstat 3 0;
                  EOpen "/mnt/b" [O_WRONLY; O_CREAT; O_TRUNC; O_BINARY] (Some 420) 4;
                  EFstat 4 0;
                  ERead 3 16384 5;
                  EWrite 4 hello (-1);
                  EClose 3 (-1); EClose 4 (-1);
                  ERemove "/mnt/b" (-1);
                  ECall (Some 1%nat) [VString "Input/output error"; VBool false]])) ∧
  (∃ w' tr,
     Copy 7 false incoming (Script.start replies (Script.fails EIO)) = Some (tt, w', tr) ∧
     completes_once (parse false incoming) tr) ∧
  (∃ w' tr,
     Move 7 false incoming (Script.start replies (Script.fails EIO)) = Some (tt, w', tr) ∧
     completes_once (parse false incoming) tr).
Proof.
  split; [eexists; vm_compute; reflexivity|].
  apply (proj2 one_completion_after_the_closes
           [Script.ok 3; Script.stats 420 5 1; Script.ok 4; Script.stats 420 0 2;
            Script.bytes hello; Script.fails ENOSPC] EIO 7%nat false
           [VString "/tmp/a"; VString "/mnt/b"; on_progress; on_complete]).
  cbn. lia.
Defined.

(** C9 fails as stated: a copy onto a descriptor that answers every
    [write] with 0.  The two [open] calls, the [fstat] and the first [read]
    succeed; [doWrite] then retries for ever, so for no amount of fuel does
    the run return: no completion is delivered and neither descriptor is
    closed. *)
Lemma copy_never_completes_on_zero_writes :
  ¬ ∃ fuel r,
      Copy fuel false [VString "/tmp/a"; VString "/tmp/b"; on_complete]
        (Script.start [Script.ok 3; Script.stats 420 5 1; Script.ok 4; Script.bytes hello]
           (Script.ok 0)) = Some r.
Proof.
  intros (fuel & r & Hrun). revert Hrun.
  unfold Copy. erewrite bind_run by apply Args_new_run.
  unfold Copy_body, c_open, c_fstat.
  rewrite !(bind_run _ _ _ _ _ _ (syscall_run _ _ _)). cbn -[Copy_fd].
  unfold Copy_fd, bind. destruct fuel as [|fuel]; [done|].
  rewrite Copy_while_unfold. cbn -[doWrite].
  pose proof (doWrite_stalls fuel 4) as Hstall. unfold Script.start in Hstall.
  change (Z.of_nat 5) with 5. by rewrite Hstall.
Qed.

(** ** The text of a failure *)

(** C10: the text of a failure is [strerror] of the [errno] left by the
    clean-up.  In every run of Copy or Move that ends with a failure
    completion, the text delivered is [strerror] of the [errno] of the
    final world, and the event right before the completion is
    [remove(Destination)].  Each of the three error labels does deliver it:
    when the source cannot be opened, Copy ([copyByPathError]) and Move
    ([moveError]) both make the failed [open], [remove(Destination)] and
    the failure completion; when the first [read] fails, the engine
    ([copyByFdError]) closes both descriptors, calls [remove(Destination)]
    and makes the failure completion.  And there is a run where this
    matters: the source cannot be opened ([errno] = EACCES), the clean-up
    [remove] of the destination, which does not exist, fails with ENOENT,
    and the caller of Copy or of Move is told "No such file or
    directory". *)
Theorem failure_text_is_errno_after_cleanup :
  (∀ W (P : Posix W) fuel uninit incoming (w w' : W) tr pre c,
     Copy fuel uninit incoming w = Some (tt, w', tr) ∨
     Move fuel uninit incoming w = Some (tt, w', tr) →
     tr = pre ++ [c] → is_failure c = true →
     c = failure_call (parse uninit incoming) (sys_errno w') strerror ∧
     ∃ pre' r, pre = pre' ++ [ERemove (Destination (parse uninit incoming)) r]) ∧
  (∀ W (P : Posix W) fuel uninit incoming (w : W),
     (sys_open (Source (parse uninit incoming)) [O_RDONLY; O_BINARY] None w).1 < 0 →
     ∃ in_ r w',
       Copy fuel uninit incoming w
       = Some (tt, w',
               thrown incoming ++
               [EOpen (Source (parse uninit incoming)) [O_RDONLY; O_BINARY] None in_;
                ERemove (Destination (parse uninit incoming)) r;
                failure_call (parse uninit incoming) (sys_errno w') strerror]) ∧
       Move fuel uninit incoming w = Copy fuel uninit incoming w) ∧
  (∀ W (P : Posix W) fuel fd_in fd_out inputSize args removeWhenDone (w : W),
     (sys_read fd_in BUFFER_SIZE w).1.1 = -1 →
     ∃ r1 r2 r3 w',
       Copy_fd (S fuel) fd_in fd_out inputSize args removeWhenDone w
       = Some (tt, w',
               [ERead fd_in BUFFER_SIZE (-1); EClose fd_in r1; EClose fd_out r2;
                ERemove (Destination args) r3;
                failure_call args (sys_errno w') strerror])) ∧
  (let w0 := RefFS.mount [("/secret", unreadable hello)] in
   let incoming := [VString "/secret"; VString "/tmp/new"; on_complete] in
   ∃ w1 w',
     sys_open "/secret" [O_RDONLY; O_BINARY] None w0 = (-1, w1) ∧
     sys_errno w1 = EACCES ∧
     strerror_linux EACCES = "Permission denied" ∧
     Copy 1 false incoming w0
     = Some (tt, w',
             [EOpen "/secret" [O_RDONLY; O_BINARY] None (-1);
              ERemove "/tmp/new" (-1);
              ECall (Some 1%nat) [VString "No such file or directory"; VBool false]]) ∧
     Move 1 false incoming w0 = Copy 1 false incoming w0 ∧
     sys_errno w' = ENOENT).
Proof.
  split; [|split; [|split]].
  - intros W P fuel uninit incoming w w' tr pre c Hrun -> Hc.
    apply entry_finished in Hrun as (fds & pre0 & _ & _ & _ & Hlast).
    destruct Hlast as [Heq|(pre' & r & -> & Heq)];
      apply app_inj_tail in Heq as [-> ->]; [done|].
    split; [done|]. by exists pre', r.
  - intros W P fuel uninit incoming w. apply failed_open_is_reported.
  - intros W P fuel fd_in fd_out inputSize args removeWhenDone w Hread.
    destruct (failed_read_is_reported fuel fd_in fd_out inputSize args removeWhenDone w Hread)
      as (r1 & r2 & r3 & w' & Hrun & _).
    by exists r1, r2, r3, w'.
  - eexists _, _. repeat split; vm_compute; reflexivity.
Qed.

Lemma failure_text_is_errno_after_cleanup_witness :
  let incoming := [VString "/secret"; VString "/mnt/new"; on_complete] in
  let w0 := RefFS.mount [("/secret", unreadable hello)] in
  (∃ w', Move 1 false incoming w0
         = Some (tt, w',
                 [EOpen "/secret" [O_RDONLY; O_BINARY] None (-1);
                  ERemove "/mnt/new" (-1);
                  ECall (Some 1%nat) [VString "No such file or directory"; VBool false]])) ∧
  ∃ in_ r w',
    Copy 1 false incoming w0
    = Some (tt, w',
            thrown incoming ++
            [EOpen (Source (parse false incoming)) [O_RDONLY; O_BINARY] None in_;
             ERemove (Destination (parse false incoming)) r;
             failure_call (parse false incoming) (sys_errno w') strerror]) ∧
    Move 1 false incoming w0 = Copy 1 false incoming w0.
Proof.
  split; [eexists; vm_compute; reflexivity|].
  apply (proj1 (proj2 failure_text_is_errno_after_cleanup) RefFS.world _ 1%nat false
           [VString "/secret"; VString "/mnt/new"; on_complete]
           (RefFS.mount [("/secret", unreadable hello)])).
  vm_compute. reflexivity.
Defined.

(** * Further properties of the engine *)

(** ** Short writes lose nothing *)

Lemma take_take_drop {A} (l : list A) (n m : nat) :
  take n l ++ take m (drop n l) = take (n + m) l.
Proof.
  revert l. induction n as [|n IH]; intros [|a l]; cbn; try done.
  - by rewrite take_nil.
  - by rewrite IH.
Qed.

Lemma accepted_write fd data r tr :
  accepted (EWrite fd data r :: tr) = take (Z.to_nat r) data ++ accepted tr.
Proof. done. Qed.

Section DoWrite.
Context {W : Type} `{!Posix W}.

(** X1: short writes lose no byte and repeat none.  When [doWrite] returns
    a value other than -1, and every [write] returned -1 or a count of at
    most the bytes it was handed, the bytes that the calls took, in order,
    are exactly the first [datalen] bytes of [data]. *)
Theorem doWrite_hands_over_every_byte fuel fd data datalen (w w' : W) r tr :
  doWrite fuel fd data datalen w = Some (r, w', tr) →
  r ≠ -1 →
  0 ≤ datalen ≤ Z.of_nat (length data) →
  datalen < 2 ^ 64 →
  Forall write_in_range tr →
  accepted tr = take (Z.to_nat datalen) data.
Proof.
  revert data datalen w r w' tr.
  induction fuel as [|fuel IH]; intros data datalen w r w' tr; [done|].
  rewrite doWrite_unfold. cbn zeta.
  set (bytes := take (Z.to_nat datalen) data).
  set (written := (sys_write fd bytes w).1).
  intros Hrun Hr Hlen Hmax Hrange.
  assert (Z.of_nat (length bytes) = datalen) as Hbytes.
  { unfold bytes. rewrite length_take. lia. }
  destruct (written =? -1) eqn:Hw.
  { injection Hrun as <- _ _. done. }
  destruct (to_size_t written <? datalen) eqn:Hshort.
  - destruct (doWrite fuel _ _ _ _) as [[[r1 w2] t]|] eqn:Hrec; [|done].
    injection Hrun as -> -> <-.
    apply Forall_cons in Hrange as [Hin Hrange]. cbn in Hin.
    assert (0 ≤ written < datalen) as Hwr.
    { unfold to_size_t in Hshort. rewrite Z.mod_small in Hshort by lia. lia. }
    rewrite accepted_write, (IH _ _ _ _ _ _ Hrec Hr); [|rewrite length_drop; lia|lia|done].
    fold written. unfold bytes. rewrite take_take.
    replace (Z.to_nat written `min` Z.to_nat datalen)%nat with (Z.to_nat written) by lia.
    rewrite take_take_drop. f_equal. lia.
  - injection Hrun as _ _ <-.
    apply Forall_cons in Hrange as [Hin _]. cbn in Hin.
    assert (written = datalen) as Heq.
    { unfold to_size_t in Hshort. rewrite Z.mod_small in Hshort by lia. lia. }
    rewrite accepted_write. cbn. rewrite app_nil_r. fold written. rewrite Heq.
    unfold bytes. rewrite take_take. f_equal. lia.
Qed.

End DoWrite.

Lemma doWrite_hands_over_every_byte_witness :
  ∃ w' tr,
    doWrite 5 4 hello 5 (Script.start [Script.ok 2; Script.ok 3] (Script.ok 0))
    = Some (3, w', tr) ∧
    tr = [EWrite 4 hello 2; EWrite 4 [x6c; x6c; x6f] 3] ∧
    accepted tr = take (Z.to_nat 5) hello.
Proof.
  eexists _, _. split; [vm_compute; reflexivity|]. split; [reflexivity|].
  eapply (doWrite_hands_over_every_byte 5 4 hello 5
            (Script.start [Script.ok 2; Script.ok 3] (Script.ok 0))).
  - vm_compute. reflexivity.
  - discriminate.
  - vm_compute. split; discriminate.
  - reflexivity.
  - repeat constructor; vm_compute; discriminate.
Defined.

(** ** Counting notifications *)

Lemma notifications_from_count threshold completed since chunks :
  0 ≤ threshold → 0 ≤ since → Forall (λ c, 0 < c) chunks →
  Z.of_nat (length (notifications_from threshold completed since chunks)) * (threshold + 1)
  ≤ since + total chunks.
Proof.
  intros Hth Hs Hpos. revert completed since Hs. unfold total.
  induction Hpos as [|c rest Hc Hrest IH]; intros completed since Hs; cbn [notifications_from foldr].
  { cbn. lia. }
  destruct (threshold <? since + c) eqn:Hcmp.
  - specialize (IH (completed + c) 0 ltac:(lia)). cbn [length]. nia.
  - specialize (IH (completed + c) (since + c) ltac:(lia)). lia.
Qed.

Lemma notifications_from_sublist threshold completed since chunks :
  notifications_from threshold completed since chunks
  `sublist_of` running_totals completed chunks.
Proof.
  revert completed since.
  induction chunks as [|c rest IH]; intros completed since; cbn; [done|].
  destruct (threshold <? since + c).
  - by apply sublist_skip.
  - by apply sublist_cons.
Qed.

Lemma writes_not_notified tr :
  Forall (λ e, is_write e = true) tr → notified tr = [] ∧ callbacks tr = [] ∧ fsynced tr = [].
Proof.
  induction 1 as [|e tr He _ (Hn & Hc & Hf)]; [done|]. by destruct e.
Qed.

Lemma callbacks_app t1 t2 : callbacks (t1 ++ t2) = callbacks t1 ++ callbacks t2.
Proof. apply omap_app. Qed.

Lemma fsynced_app t1 t2 : fsynced (t1 ++ t2) = fsynced t1 ++ fsynced t2.
Proof. apply omap_app. Qed.

Lemma progress_events_notified args d t :
  notified (progress_events args d t) = (λ v, (v, t)) <$> done_values (progress_events args d t).
Proof. unfold progress_events. by destruct (UpdateProgress args). Qed.

Section Totals.
Context {W : Type} `{!Posix W}.

Lemma Copy_while_totals fuel fd_in fd_out inputSize bpu args p s (w : W) x w' tr :
  Copy_while fuel fd_in fd_out inputSize bpu args p s w = Some (x, w', tr) →
  notified tr = (λ d, (d, inputSize)) <$> done_values tr.
Proof.
  revert p s w x w' tr.
  induction fuel as [|fuel IH]; intros p s w x w' tr; [done|].
  rewrite Copy_while_unfold. cbn zeta.
  destruct (0 <? _); [|by intros [= <- <- <-]].
  destruct (doWrite fuel _ _ _ _) as [[[wr w2] tw]|] eqn:Hw; [|done].
  apply doWrite_trace in Hw as [Hall _].
  destruct (writes_not_notified _ Hall) as (Hn & _ & _).
  destruct (writes_observed _ Hall) as (Hd & _ & _).
  assert (∀ t, notified (ERead fd_in BUFFER_SIZE (sys_read fd_in BUFFER_SIZE w).1.1 :: tw ++ t)
               = notified t ∧
               done_values (ERead fd_in BUFFER_SIZE (sys_read fd_in BUFFER_SIZE w).1.1 :: tw ++ t)
               = done_values t) as Hskip.
  { intros t. change (notified (?e :: ?l)) with (notified l).
    change (done_values (?e :: ?l)) with (done_values l).
    by rewrite notified_app, done_values_app, Hn, Hd. }
  destruct (wr =? -1).
  { intros [= <- <- <-]. rewrite <- (app_nil_r tw).
    destruct (Hskip []) as [-> ->]. done. }
  destruct (bpu <? _);
    (destruct (Copy_while fuel _ _ _ _ _ _ _ _) as [[[x1 w3] t]|] eqn:Hrec; [|done]);
    intros [= <- <- <-]; apply IH in Hrec.
  - destruct (Hskip (progress_events args (p + (sys_read fd_in BUFFER_SIZE w).1.1)
                       inputSize ++ t)) as [-> ->].
    by rewrite notified_app, done_values_app, fmap_app, Hrec, progress_events_notified.
  - by destruct (Hskip t) as [-> ->].
Qed.

Lemma doWrite_fd fuel fd data datalen (w : W) r w' tr :
  doWrite fuel fd data datalen w = Some (r, w', tr) →
  Forall (λ e, ∃ d c, e = EWrite fd d c) tr.
Proof.
  revert data datalen w r w' tr.
  induction fuel as [|fuel IH]; intros data datalen w r w' tr; [done|].
  rewrite doWrite_unfold. cbn zeta.
  destruct (_ =? -1); [intros [= <- <- <-]; repeat constructor; by eexists _, _|].
  destruct (_ <? datalen).
  - destruct (doWrite fuel _ _ _ _) as [[[r1 w2] t]|] eqn:Hrec; [|done].
    intros [= <- <- <-]. constructor; [by eexists _, _|]. by eapply IH.
  - intros [= <- <- <-]; repeat constructor; by eexists _, _.
Qed.

Lemma Copy_while_io fuel fd_in fd_out inputSize bpu args p s (w : W) x w' tr :
  Copy_while fuel fd_in fd_out inputSize bpu args p s w = Some (x, w', tr) →
  Forall (io_between fd_in fd_out) tr.
Proof.
  revert p s w x w' tr.
  induction fuel as [|fuel IH]; intros p s w x w' tr; [done|].
  rewrite Copy_while_unfold. cbn zeta.
  destruct (0 <? _); [|by intros [= <- <- <-]; repeat constructor].
  destruct (doWrite fuel _ _ _ _) as [[[wr w2] tw]|] eqn:Hw; [|done].
  apply doWrite_fd in Hw.
  assert (Forall (io_between fd_in fd_out) tw) as Htw.
  { eapply Forall_impl; [exact Hw|]. by intros e (d & c & ->). }
  assert (∀ d t, Forall (io_between fd_in fd_out) (progress_events args d t)) as Hpe.
  { intros d t. unfold progress_events. destruct (UpdateProgress args); by repeat constructor. }
  destruct (wr =? -1); [by intros [= <- <- <-]; constructor|].
  destruct (bpu <? _);
    (destruct (Copy_while fuel _ _ _ _ _ _ _ _) as [[[x1 w3] t]|] eqn:Hrec; [|done]);
    intros [= <- <- <-]; apply IH in Hrec; constructor; try done;
    rewrite ?Forall_app; repeat split; try done.
Qed.

End Totals.

Section EngineFacts.
Context {W : Type} `{!Posix W}.

Lemma Copy_fd_tail_silent fuel fd_in fd_out inputSize args removeWhenDone (w : W) u w' tr :
  Copy_fd fuel fd_in fd_out inputSize args removeWhenDone w = Some (u, w', tr) →
  ∃ x wl tl tail,
    Copy_while fuel fd_in fd_out inputSize (inputSize `quot` 100) args 0 0 w
    = Some (x, wl, tl) ∧
    tr = tl ++ tail ∧
    Forall (io_between fd_in fd_out) tail ∧
    notified tail = (λ d, (d, inputSize)) <$> done_values tail.
Proof.
  intros (x & wl & tl & Hloop & Hend)%Copy_fd_trace.
  exists x, wl, tl.
  destruct Hend as [(Hx & r1 & r2 & r3 & ->)|(Hx & r1 & r2 & r3 & ->)];
    eexists; (split; [done|]); (split; [done|]).
  - split; [by repeat constructor|done].
  - unfold progress_events.
    destruct (UpdateProgress args), removeWhenDone; cbn; split; by repeat constructor.
Qed.

(** X2: in every finished run of the copy engine, each [read] is from
    [fd_in] and asks for [BUFFER_SIZE] bytes, and each [write] is to
    [fd_out]: the engine never reads the destination and never writes to
    the source. *)
Theorem reads_from_input_writes_to_output fuel fd_in fd_out inputSize args
    removeWhenDone (w w' : W) tr :
  Copy_fd fuel fd_in fd_out inputSize args removeWhenDone w = Some (tt, w', tr) →
  Forall (io_between fd_in fd_out) tr.
Proof.
  intros (x & wl & tl & tail & Hloop & -> & Hio & _)%Copy_fd_tail_silent.
  apply Forall_app. split; [|done]. by eapply Copy_while_io.
Qed.

Lemma Copy_fd_totals fuel fd_in fd_out inputSize args removeWhenDone (w : W) u w' tr :
  Copy_fd fuel fd_in fd_out inputSize args removeWhenDone w = Some (u, w', tr) →
  notified tr = (λ d, (d, inputSize)) <$> done_values tr.
Proof.
  intros (x & wl & tl & tail & Hloop & -> & _ & Htail)%Copy_fd_tail_silent.
  apply Copy_while_totals in Hloop.
  by rewrite notified_app, done_values_app, fmap_app, Hloop, Htail.
Qed.

Lemma Copy_fd_count fuel fd_in fd_out inputSize args removeWhenDone (w : W) u w' tr :
  Copy_fd fuel fd_in fd_out inputSize args removeWhenDone w = Some (u, w', tr) →
  0 ≤ inputSize →
  total (chunks_read tr) ≤ inputSize →
  (length (done_values tr) ≤ 100)%nat.
Proof.
  intros Hrun Hsize Hread.
  destruct (Copy_fd_observed _ _ _ _ _ _ _ _ _ _ Hrun) as (Hpos & _ & Hdone & _).
  rewrite Hdone. destruct (UpdateProgress args); [|cbn; lia].
  assert (Forall (λ c, 0 < c) (chunks_copied tr) ∧
          total (chunks_copied tr) ≤ total (chunks_read tr)) as [Hpos' Hle].
  { unfold chunks_copied. destruct (existsb write_failed tr); [|done].
    by apply removelast_total. }
  pose proof (Z.quot_pos inputSize 100 Hsize ltac:(lia)) as Hq.
  pose proof (notifications_from_count (inputSize `quot` 100) 0 0 _ Hq ltac:(lia) Hpos')
    as Hcount.
  fold (spec_notifications inputSize (chunks_copied tr)) in Hcount.
  pose proof (Z.quot_rem' inputSize 100) as Hqr.
  pose proof (Z.rem_bound_pos inputSize 100 Hsize ltac:(lia)) as Hrem.
  rewrite length_app.
  assert (length (if existsb io_failed tr then [] else [inputSize]) ≤ 1)%nat
    by (destruct (existsb io_failed tr); cbn; lia).
  enough (length (spec_notifications inputSize (chunks_copied tr)) ≤ 99)%nat by lia.
  nia.
Qed.

(** X3: in every finished run of the copy engine, every progress
    notification carries [inputSize] as its total, and the [done] values
    are a subsequence of the numbers of bytes copied so far after each
    chunk, followed by the final [inputSize] when there is a progress
    callback and no read or write failed. *)
Theorem notifications_report_bytes_copied fuel fd_in fd_out inputSize args
    removeWhenDone (w w' : W) tr :
  Copy_fd fuel fd_in fd_out inputSize args removeWhenDone w = Some (tt, w', tr) →
  notified tr = (λ d, (d, inputSize)) <$> done_values tr ∧
  ∃ intermediate,
    done_values tr
    = intermediate ++
      (if UpdateProgress args && negb (existsb io_failed tr) then [inputSize] else []) ∧
    intermediate `sublist_of` running_totals 0 (chunks_copied tr).
Proof.
  intros Hrun. split; [by eapply Copy_fd_totals|].
  destruct (Copy_fd_observed _ _ _ _ _ _ _ _ _ _ Hrun) as (_ & _ & Hdone & _).
  rewrite Hdone. destruct (UpdateProgress args); cbn.
  - exists (spec_notifications inputSize (chunks_copied tr)).
    split; [by destruct (existsb io_failed tr)|].
    apply notifications_from_sublist.
  - exists []. split; [done|]. apply sublist_nil_l.
Qed.

(** X4: the throttle bounds the number of progress calls.  When the bytes
    read do not exceed [inputSize], the size that [fstat] reported, a
    finished run of the copy engine makes at most 100 progress
    notifications, the final one included. *)
Theorem at_most_a_hundred_notifications fuel fd_in fd_out inputSize args
    removeWhenDone (w w' : W) tr :
  Copy_fd fuel fd_in fd_out inputSize args removeWhenDone w = Some (tt, w', tr) →
  0 ≤ inputSize →
  total (chunks_read tr) ≤ inputSize →
  (length (notified tr) ≤ 100)%nat.
Proof.
  intros Hrun Hsize Hread.
  rewrite (Copy_fd_totals _ _ _ _ _ _ _ _ _ _ Hrun), length_fmap.
  by eapply Copy_fd_count.
Qed.

(** X5: [removeWhenDone] adds one [remove] and nothing else.  If the
    engine finishes with [removeWhenDone] set (a cross-device Move), it
    also finishes from the same world without it (a Copy); after a failed
    read or write the two runs are the same, trace and final world;
    otherwise they differ only in [remove(Source)], which is called right
    before the success completion. *)
Theorem remove_when_done_adds_one_remove fuel fd_in fd_out inputSize args
    (w w1 : W) tr1 :
  Copy_fd fuel fd_in fd_out inputSize args true w = Some (tt, w1, tr1) →
  ∃ w0 tr0,
    Copy_fd fuel fd_in fd_out inputSize args false w = Some (tt, w0, tr0) ∧
    if existsb io_failed tr0 then tr1 = tr0 ∧ w1 = w0
    else ∃ pre,
      tr0 = pre ++ [success_call args] ∧
      tr1 = pre ++ [ERemove (Source args) (sys_remove (Source args) w0).1;
                    success_call args] ∧
      w1 = (sys_remove (Source args) w0).2.
Proof.
  intros Hrun.
  destruct (Copy_fd_inv _ _ _ _ _ _ _ _ _ _ Hrun) as (x & wl & tl & t2 & Hloop & Htail & ->).
  destruct (Copy_while_exit _ _ _ _ _ _ _ _ _ _ _ _ Hloop) as (_ & Hio & _).
  assert (Copy_fd fuel fd_in fd_out inputSize args false w =
          match (if exit_failed x then copyByFdError fd_in fd_out args wl
                 else copyDone fd_in fd_out inputSize args false wl) with
          | Some (u, w2, t) => Some (u, w2, tl ++ t)
          | None => None
          end) as ->.
  { unfold Copy_fd. erewrite bind_run by exact Hloop.
    destruct x as [|r]; [done|]. cbn. by destruct (r =? -1). }
  destruct (exit_failed x).
  - rewrite Htail. eexists _, _. split; [done|].
    rewrite copyByFdError_run in Htail. cbn zeta in Htail. injection Htail as <- <-.
    rewrite existsb_app, Hio. done.
  - rewrite copyDone_run in Htail |- *. cbn zeta in Htail |- *.
    injection Htail as <- <-. eexists _, _. split; [done|].
    assert (existsb io_failed (progress_events args inputSize inputSize) = false) as Hp
      by apply progress_events_observed.
    rewrite !existsb_app, Hio, Hp. cbn.
    eexists (tl ++ progress_events args inputSize inputSize ++ [_; _; _]).
    rewrite <- !app_assoc. cbn. done.
Qed.

End EngineFacts.

Lemma reads_from_input_writes_to_output_witness :
  ∃ w' tr,
    Copy_fd 9 3 4 10 sample_args false two_chunks = Some (tt, w', tr) ∧
    Forall (io_between 3 4) tr.
Proof.
  eexists _, _. split; [vm_compute; reflexivity|].
  eapply (reads_from_input_writes_to_output 9 3 4 10 sample_args false two_chunks).
  vm_compute. reflexivity.
Defined.

Lemma notifications_report_bytes_copied_witness :
  ∃ w' tr,
    Copy_fd 9 3 4 10 sample_args false two_chunks = Some (tt, w', tr) ∧
    notified tr = [(5, 10); (10, 10); (10, 10)] ∧
    notified tr = (λ d, (d, 10)) <$> done_values tr ∧
    ∃ intermediate,
      done_values tr
      = intermediate ++
        (if UpdateProgress sample_args && negb (existsb io_failed tr) then [10] else []) ∧
      intermediate `sublist_of` running_totals 0 (chunks_copied tr).
Proof.
  eexists _, _. split; [vm_compute; reflexivity|]. split; [reflexivity|].
  eapply (notifications_report_bytes_copied 9 3 4 10 sample_args false two_chunks).
  vm_compute. reflexivity.
Defined.

Lemma at_most_a_hundred_notifications_witness :
  ∃ w' tr,
    Copy_fd 9 3 4 10 sample_args false two_chunks = Some (tt, w', tr) ∧
    (length (notified tr) ≤ 100)%nat.
Proof.
  eexists _, _. split; [vm_compute; reflexivity|].
  eapply (at_most_a_hundred_notifications 9 3 4 10 sample_args false two_chunks).
  - vm_compute. reflexivity.
  - lia.
  - vm_compute. discriminate.
Defined.

Lemma remove_when_done_adds_one_remove_witness :
  ∃ w1 tr1,
    Copy_fd 9 3 4 10 sample_args true two_chunks = Some (tt, w1, tr1) ∧
    removed tr1 = ["/tmp/a"] ∧
    ∃ w0 tr0,
      Copy_fd 9 3 4 10 sample_args false two_chunks = Some (tt, w0, tr0) ∧
      if existsb io_failed tr0 then tr1 = tr0 ∧ w1 = w0
      else ∃ pre,
        tr0 = pre ++ [success_call sample_args] ∧
        tr1 = pre ++ [ERemove (Source sample_args) (sys_remove (Source sample_args) w0).1;
                      success_call sample_args] ∧
        w1 = (sys_remove (Source sample_args) w0).2.
Proof.
  eexists _, _. split; [vm_compute; reflexivity|]. split; [reflexivity|].
  eapply (remove_when_done_adds_one_remove 9 3 4 10 sample_args two_chunks).
  vm_compute. reflexivity.
Defined.

(** ** The arguments *)

(** X11: [Args::Args] looks at [Length()] and at the first four arguments
    only: arguments after the fourth change neither what the constructor
    does nor the run of Copy or Move. *)
Theorem arguments_after_the_fourth_are_ignored {W} `{!Posix W} fuel uninit
    a0 a1 a2 a3 rest (w : W) :
  Args_new uninit (a0 :: a1 :: a2 :: a3 :: rest) w = Args_new uninit [a0; a1; a2; a3] w ∧
  Copy fuel uninit (a0 :: a1 :: a2 :: a3 :: rest) w = Copy fuel uninit [a0; a1; a2; a3] w ∧
  Move fuel uninit (a0 :: a1 :: a2 :: a3 :: rest) w = Move fuel uninit [a0; a1; a2; a3] w.
Proof.
  assert (Args_new uninit (a0 :: a1 :: a2 :: a3 :: rest) w
          = Args_new uninit [a0; a1; a2; a3] w) as Hargs.
  { unfold Args_new. cbn [length arg nth].
    assert ((Z.of_nat (S (S (S (S (length rest))))) <? 3) = false) as ->
      by (apply Z.ltb_ge; lia).
    assert ((3 <? Z.of_nat (S (S (S (S (length rest))))))= true) as ->
      by (apply Z.ltb_lt; lia).
    done. }
  split; [done|]. unfold Copy, Move, bind. by rewrite Hargs.
Qed.

(** ** The entry points, case by case *)

Lemma loop_events_quiet tl :
  Forall (λ e, loop_event e = true) tl →
  fsynced tl = [] ∧ existsb is_rename tl = false.
Proof.
  induction 1 as [|e tl He _ (Hf & Hx)]; [done|]. by destruct e.
Qed.

Lemma progress_events_callbacks args d t :
  callbacks (progress_events args d t)
  = progress_call args <$> notified (progress_events args d t) ∧
  (UpdateProgress args = false → notified (progress_events args d t) = []).
Proof. unfold progress_events. by destruct (UpdateProgress args). Qed.

Section Cases.
Context {W : Type} `{!Posix W}.

Lemma Copy_while_callbacks fuel fd_in fd_out inputSize bpu args p s (w : W) x w' tr :
  Copy_while fuel fd_in fd_out inputSize bpu args p s w = Some (x, w', tr) →
  callbacks tr = progress_call args <$> notified tr ∧
  (UpdateProgress args = false → notified tr = []).
Proof.
  revert p s w x w' tr.
  induction fuel as [|fuel IH]; intros p s w x w' tr; [done|].
  rewrite Copy_while_unfold. cbn zeta.
  destruct (0 <? _); [|by intros [= <- <- <-]].
  destruct (doWrite fuel _ _ _ _) as [[[wr w2] tw]|] eqn:Hw; [|done].
  apply doWrite_trace in Hw as [Hall _].
  destruct (writes_not_notified _ Hall) as (Hn & Hc & _).
  assert (∀ t, notified (ERead fd_in BUFFER_SIZE (sys_read fd_in BUFFER_SIZE w).1.1 :: tw ++ t)
               = notified t ∧
               callbacks (ERead fd_in BUFFER_SIZE (sys_read fd_in BUFFER_SIZE w).1.1 :: tw ++ t)
               = callbacks t) as Hskip.
  { intros t. change (notified (?e :: ?l)) with (notified l).
    change (callbacks (?e :: ?l)) with (callbacks l).
    by rewrite notified_app, callbacks_app, Hn, Hc. }
  destruct (wr =? -1).
  { intros [= <- <- <-]. rewrite <- (app_nil_r tw).
    destruct (Hskip []) as [-> ->]. done. }
  destruct (bpu <? _);
    (destruct (Copy_while fuel _ _ _ _ _ _ _ _) as [[[x1 w3] t]|] eqn:Hrec; [|done]);
    intros [= <- <- <-]; apply IH in Hrec as [Hcb Hnone].
  - destruct (Hskip (progress_events args (p + (sys_read fd_in BUFFER_SIZE w).1.1)
                       inputSize ++ t)) as [-> ->].
    destruct (progress_events_callbacks args (p + (sys_read fd_in BUFFER_SIZE w).1.1)
                inputSize) as [Hpc Hpn].
    rewrite notified_app, callbacks_app, fmap_app, Hcb, Hpc. split; [done|].
    intros Hno. by rewrite Hpn, Hnone.
  - by destruct (Hskip t) as [-> ->].
Qed.

Lemma Copy_fd_callbacks fuel fd_in fd_out inputSize args removeWhenDone (w : W) u w' tr :
  Copy_fd fuel fd_in fd_out inputSize args removeWhenDone w = Some (u, w', tr) →
  ∃ argv,
    callbacks tr = (progress_call args <$> notified tr) ++ [(ResultCallback args, argv)] ∧
    (UpdateProgress args = false → notified tr = []) ∧
    (existsb io_failed tr = false → argv = [VNull; VBool true]).
Proof.
  intros (x & wl & tl & Hloop & Hend)%Copy_fd_trace.
  destruct (Copy_while_exit _ _ _ _ _ _ _ _ _ _ _ _ Hloop) as (_ & Hio & _).
  apply Copy_while_callbacks in Hloop as [Hcb Hnone].
  destruct (progress_events_callbacks args inputSize inputSize) as [Hpc Hpn].
  destruct Hend as [(Hx & r1 & r2 & r3 & ->)|(Hx & r1 & r2 & r3 & ->)]; eexists.
  - rewrite callbacks_app, notified_app, existsb_app, Hcb, Hio, Hx. cbn.
    rewrite app_nil_r. split; [reflexivity|done].
  - rewrite !callbacks_app, !notified_app, fmap_app, Hcb, Hpc.
    destruct removeWhenDone; cbn; rewrite app_nil_r, <- app_assoc;
      (split; [reflexivity|]); (split; [|done]); intros Hno; by rewrite Hpn, Hnone.
Qed.

Lemma copyByPathError_callbacks args (w : W) u w' t :
  copyByPathError args w = Some (u, w', t) →
  ∃ r, t = [ERemove (Destination args) r; failure_call args (sys_errno w') strerror].
Proof. rewrite copyByPathError_run. cbn zeta. intros [= <- <-]. by eexists. Qed.

Lemma Copy_body_cases fuel args (w : W) u w' tr :
  Copy_body fuel args w = Some (u, w', tr) →
  ∃ pre t w1,
    tr = pre ++ t ∧ Forall (λ e, is_setup e = true) pre ∧
    (copyByPathError args w1 = Some (tt, w', t) ∨
     ∃ in_ out size,
       opened pre = [in_; out] ∧
       Copy_fd fuel in_ out size args false w1 = Some (tt, w', t)).
Proof.
  unfold Copy_body. destruct u.
  intros (in_ & w1 & t1 & t2 & ->%syscall_inv & H & ->)%bind_Some.
  destruct (in_ <? 0) eqn:Hin.
  { eexists [_], _, _. split; [done|]. split; [by repeat constructor|]. by left. }
  apply bind_Some in H as ([r st] & w2 & t2' & t3 & ->%syscall_inv & H & ->).
  destruct (negb (r =? 0)).
  { apply bind_Some in H as (c & w3 & t3' & t4 & ->%syscall_inv & H & ->).
    eexists [_; _; _], _, _. split; [done|]. split; [by repeat constructor|]. by left. }
  apply bind_Some in H as (out & w3 & t3' & t4 & ->%syscall_inv & H & ->).
  destruct (out <? 0) eqn:Hout.
  { apply bind_Some in H as (c & w4 & t4' & t5 & ->%syscall_inv & H & ->).
    eexists [_; _; _; _], _, _. split; [done|]. split; [by repeat constructor|]. by left. }
  eexists [_; _; _], _, _. split; [done|]. split; [by repeat constructor|].
  right. exists in_, out, (st_size st). split; [|done].
  cbn -[Z.ltb]. by rewrite Hin, Hout.
Qed.

Lemma Move_body_cases fuel args (w : W) u w' tr :
  Move_body fuel args w = Some (u, w', tr) →
  ∃ pre t w1,
    tr = pre ++ t ∧ Forall (λ e, is_setup e = true) pre ∧
    (copyByPathError args w1 = Some (tt, w', t) ∨
     ∃ in_ out in_stats out_stats,
       opened pre = [in_; out] ∧
       Move_dispatch fuel in_ out in_stats out_stats args w1 = Some (tt, w', t)).
Proof.
  unfold Move_body, moveError. fold (copyByPathError args). destruct u.
  intros (in_ & w1 & t1 & t2 & ->%syscall_inv & H & ->)%bind_Some.
  destruct (in_ <? 0) eqn:Hin.
  { eexists [_], _, _. split; [done|]. split; [by repeat constructor|]. by left. }
  apply bind_Some in H as ([r st] & w2 & t2' & t3 & ->%syscall_inv & H & ->).
  destruct (negb (r =? 0)).
  { apply bind_Some in H as (c & w3 & t3' & t4 & ->%syscall_inv & H & ->).
    eexists [_; _; _], _, _. split; [done|]. split; [by repeat constructor|]. by left. }
  apply bind_Some in H as (out & w3 & t3' & t4 & ->%syscall_inv & H & ->).
  destruct (out <? 0) eqn:Hout.
  { apply bind_Some in H as (c & w4 & t4' & t5 & ->%syscall_inv & H & ->).
    eexists [_; _; _; _], _, _. split; [done|]. split; [by repeat constructor|]. by left. }
  apply bind_Some in H as ([r' st'] & w4 & t4' & t5 & ->%syscall_inv & H & ->).
  destruct (negb (r' =? 0)).
  { apply bind_Some in H as (c & w5 & t5' & t6 & ->%syscall_inv & H & ->).
    apply bind_Some in H as (c' & w6 & t6' & t7 & ->%syscall_inv & H & ->).
    eexists [_; _; _; _; _; _], _, _. split; [done|].
    split; [by repeat constructor|]. by left. }
  eexists [_; _; _; _], _, _. split; [done|]. split; [by repeat constructor|].
  right. exists in_, out, st, st'. split; [|done].
  cbn -[Z.ltb]. by rewrite Hin, Hout.
Qed.

End Cases.

Section EntryFacts.
Context {W : Type} `{!Posix W}.

(** X7: the callbacks of a run on accepted arguments, in every world.
    The calls made are the progress notifications, each a call of the third
    argument with two numbers, followed by one call of the completion
    handler, the last argument; with three arguments no progress
    notification is made, so the completion is the only call. *)
Theorem callbacks_are_progress_then_result fuel uninit incoming (w w' : W) tr :
  rejected incoming = None →
  Copy fuel uninit incoming w = Some (tt, w', tr) ∨
  Move fuel uninit incoming w = Some (tt, w', tr) →
  ∃ argv,
    callbacks tr
    = ((λ p, (Cast (arg incoming 2), [VNumber p.1; VNumber p.2])) <$> notified tr) ++
      [(Cast (result_arg incoming), argv)] ∧
    (length incoming = 3%nat → notified tr = []).
Proof.
  intros Hok Hrun.
  destruct (parse_accepted uninit incoming Hok) as (Hcb & _ & Hup).
  set (args := parse uninit incoming) in *.
  assert (∃ argv,
    callbacks tr = (progress_call args <$> notified tr) ++ [(ResultCallback args, argv)] ∧
    (UpdateProgress args = false → notified tr = [])) as (argv & Hcalls & Hnone).
  { destruct (thrown_quiet incoming) as (_ & _ & Hc0 & Hn0 & _).
    assert (∃ pre t w1, tr = thrown incoming ++ pre ++ t ∧
              Forall (λ e, is_setup e = true) pre ∧
              (copyByPathError args w1 = Some (tt, w', t) ∨
               (∃ in_ out size rm, Copy_fd fuel in_ out size args rm w1 = Some (tt, w', t)) ∨
               (∃ in_ out si so, st_dev si = st_dev so ∧
                  Move_dispatch fuel in_ out si so args w1 = Some (tt, w', t))))
      as (pre & t & w1 & -> & Hpre & Hcase).
    { destruct Hrun as [(t0 & -> & Hb)%Copy_run|(t0 & -> & Hb)%Move_run].
      - apply Copy_body_cases in Hb as (pre & t & w1 & -> & Hpre & Hcase).
        exists pre, t, w1. split; [done|]. split; [done|].
        destruct Hcase as [?|(in_ & out & size & _ & ?)]; [by left|right; left].
        by exists in_, out, size, false.
      - apply Move_body_cases in Hb as (pre & t & w1 & -> & Hpre & Hcase).
        exists pre, t, w1. split; [done|]. split; [done|].
        destruct Hcase as [?|(in_ & out & si & so & _ & Hd)]; [by left|right].
        destruct (decide (st_dev si = st_dev so)) as [Hdev|Hdev].
        + right. by exists in_, out, si, so.
        + left. exists in_, out, (st_size si), true. revert Hd. unfold Move_dispatch.
          by replace (st_dev si =? st_dev so) with false by lia. }
    destruct (setup_silent _ Hpre) as (_ & _ & Hc1 & Hn1 & _).
    rewrite !callbacks_app, !notified_app, Hc0, Hn0, Hc1, Hn1. cbn [app].
    destruct Hcase as [Herr|[(in_ & out & size & rm & Hfd)|(in_ & out & si & so & Hdev & Hd)]].
    - apply copyByPathError_callbacks in Herr as (r & ->). by eexists.
    - apply Copy_fd_callbacks in Hfd as (argv & Hc & Hn & _). by exists argv.
    - destruct (rename_result_unused fuel in_ out si so args w1 Hdev)
        as (r1 & r2 & r3 & r4 & w2 & Hrun' & _).
      rewrite Hd in Hrun'. injection Hrun' as _ ->.
      destruct (progress_events_callbacks args (st_size si) (st_size si)) as [Hpc Hpn].
      change (callbacks (_ :: _ :: _ :: _ :: ?l)) with (callbacks l).
      change (notified (_ :: _ :: _ :: _ :: ?l)) with (notified l).
      eexists. rewrite !callbacks_app, !notified_app, Hpc. cbn.
      rewrite app_nil_r. split; [reflexivity|]. intros Hno. by rewrite Hpn. }
  exists argv. rewrite Hcalls, Hcb. split.
  - f_equal. destruct (3 <? Z.of_nat (length incoming)) eqn:Hlen.
    + unfold args, parse, progress_call. rewrite Hok, Hlen. done.
    + rewrite Hnone by done. done.
  - intros Hthree. apply Hnone. rewrite Hup, Hthree. done.
Qed.

(** X8: Copy never renames, and it calls [remove] only in a run that ends
    in a failure completion, once, on the destination: a run that ends in
    the success completion removes nothing. *)
Theorem copy_removes_only_a_failed_destination fuel uninit incoming (w w' : W) tr :
  Copy fuel uninit incoming w = Some (tt, w', tr) →
  existsb is_rename tr = false ∧
  ∃ c, last tr = Some c ∧
       removed tr = if is_failure c then [Destination (parse uninit incoming)] else [].
Proof.
  intros (t0 & -> & Hb)%Copy_run.
  apply Copy_body_cases in Hb as (pre & t & w1 & -> & Hpre & Hcase).
  destruct (thrown_quiet incoming) as (Hr0 & _ & _ & _ & Hx0).
  destruct (setup_silent _ Hpre) as (Hr1 & _ & _ & _ & Hx1).
  rewrite !existsb_app, !removed_app, Hr0, Hr1, Hx0, Hx1, !last_app. cbn [app orb].
  destruct Hcase as [Herr|(in_ & out & size & _ & Hfd)].
  - apply copyByPathError_callbacks in Herr as (r & ->). split; [done|]. by eexists.
  - apply Copy_fd_observed in Hfd as (_ & _ & _ & Hrm & Hren & Hlast).
    rewrite Hlast, Hrm, Hren. split; [done|]. eexists. split; [done|].
    by destruct (existsb io_failed t).
Qed.

(** A Move that ends in a failure completion has renamed nothing, and the
    one path it removed is the destination. *)
Lemma failed_move_removes fuel uninit incoming (w w' : W) tr c :
  Move fuel uninit incoming w = Some (tt, w', tr) →
  last tr = Some c →
  is_failure c = true →
  existsb is_rename tr = false ∧
  removed tr = [Destination (parse uninit incoming)].
Proof.
  intros (t0 & -> & Hb)%Move_run.
  apply Move_body_cases in Hb as (pre & t & w1 & -> & Hpre & Hcase).
  destruct (thrown_quiet incoming) as (Hr0 & _ & _ & _ & Hx0).
  destruct (setup_silent _ Hpre) as (Hr1 & _ & _ & _ & Hx1).
  rewrite !existsb_app, !removed_app, Hr0, Hr1, Hx0, Hx1. cbn [app orb].
  destruct Hcase as [Herr|(in_ & out & si & so & _ & Hd)].
  - apply copyByPathError_callbacks in Herr as (r & ->). done.
  - unfold Move_dispatch in Hd. destruct (st_dev si =? st_dev so) eqn:Hdev.
    + destruct (rename_result_unused fuel in_ out si so (parse uninit incoming) w1
                  ltac:(lia)) as (r1 & r2 & r3 & r4 & w2 & Hrun' & _).
      unfold Move_dispatch in Hrun'. rewrite Hdev, Hd in Hrun'.
      injection Hrun' as _ ->.
      rewrite !app_comm_cons, !app_assoc, last_snoc. unfold success_call.
      by intros [= <-].
    + apply Copy_fd_observed in Hd as (_ & _ & _ & Hrm & Hren & Hlast).
      rewrite !last_app, Hlast, Hrm, Hren.
      destruct (existsb io_failed t); [done|]. unfold success_call. by intros [= <-].
Qed.

(** X10: Copy flushes before it reports.  A run of Copy that ends in the
    success completion opened two descriptors, and its last four events are
    [close] of the first, [fsync] of the second, [close] of the second and
    the completion; [fsync] is called nowhere else, and not at all in a run
    that ends in a failure completion. *)
Theorem copy_flushes_before_success fuel uninit incoming (w w' : W) tr :
  Copy fuel uninit incoming w = Some (tt, w', tr) →
  ∃ c, last tr = Some c ∧
    if is_failure c then fsynced tr = []
    else ∃ in_ out before r1 r2,
      opened tr = [in_; out] ∧
      tr = before ++ [EClose in_ r1; EFsync out; EClose out r2; c] ∧
      fsynced before = [].
Proof.
  intros (t0 & -> & Hb)%Copy_run.
  apply Copy_body_cases in Hb as (pre & t & w1 & -> & Hpre & Hcase).
  destruct (thrown_quiet incoming) as (_ & Hf0 & _ & _ & _).
  destruct (thrown_silent incoming) as (Ho0 & _ & _).
  destruct (setup_silent _ Hpre) as (_ & Hf1 & _ & _ & _).
  rewrite !last_app.
  destruct Hcase as [Herr|(in_ & out & size & Hopen & Hfd)].
  - apply copyByPathError_callbacks in Herr as (r & ->). eexists. split; [done|].
    cbn. by rewrite !fsynced_app, Hf0, Hf1.
  - destruct (Copy_fd_trace _ _ _ _ _ _ _ _ _ _ Hfd)
      as (x & wl & tl & Hloop & Hend).
    apply Copy_while_events in Hloop.
    destruct (loop_events_quiet _ Hloop) as [Hf2 _].
    destruct (loop_events_silent _ Hloop) as (Ho2 & _ & _ & _).
    destruct Hend as [(Hx & r1 & r2 & r3 & ->)|(Hx & r1 & r2 & r3 & ->)].
    + rewrite last_app. eexists. split; [done|]. cbn.
      by rewrite !fsynced_app, Hf0, Hf1, Hf2.
    + rewrite !last_app. eexists. split; [done|]. cbn [is_failure success_call app].
      destruct (progress_events_silent (parse uninit incoming) size size)
        as (Ho3 & _ & _ & _).
      assert (fsynced (progress_events (parse uninit incoming) size size) = []) as Hf3.
      { unfold progress_events. by destruct (UpdateProgress _). }
      exists in_, out,
        (thrown incoming ++ pre ++ tl ++ progress_events (parse uninit incoming) size size),
        r1, r2.
      rewrite !opened_app, !fsynced_app, Ho0, Ho2, Ho3, Hopen, Hf0, Hf1, Hf2, Hf3.
      split; [done|]. split; [|done]. by rewrite <- !app_assoc.
Qed.

End EntryFacts.

Lemma callbacks_are_progress_then_result_witness :
  let incoming := [VString "/tmp/a"; VString "/mnt/b"; on_progress; on_complete] in
  ∃ w' tr,
    Move 3 false incoming (RefFS.mount [("/tmp/a", regular hello)]) = Some (tt, w', tr) ∧
    callbacks tr
    = [(Some 2%nat, [VNumber 5; VNumber 5]); (Some 2%nat, [VNumber 5; VNumber 5]);
       (Some 1%nat, [VNull; VBool true])] ∧
    ∃ argv,
      callbacks tr
      = ((λ p, (Cast (arg incoming 2), [VNumber p.1; VNumber p.2])) <$> notified tr) ++
        [(Cast (result_arg incoming), argv)] ∧
      (length incoming = 3%nat → notified tr = []).
Proof.
  eexists _, _. split; [vm_compute; reflexivity|]. split; [reflexivity|].
  eapply (callbacks_are_progress_then_result 3 false
            [VString "/tmp/a"; VString "/mnt/b"; on_progress; on_complete]
            (RefFS.mount [("/tmp/a", regular hello)])).
  - reflexivity.
  - right. vm_compute. reflexivity.
Defined.

Lemma copy_removes_only_a_failed_destination_witness :
  let incoming := [VString "/tmp/a"; VString "/tmp/b"; on_complete] in
  ∃ w' tr,
    Copy 3 false incoming (RefFS.mount [("/tmp/a", regular hello)]) = Some (tt, w', tr) ∧
    removed tr = [] ∧
    existsb is_rename tr = false ∧
    ∃ c, last tr = Some c ∧
         removed tr = if is_failure c then [Destination (parse false incoming)] else [].
Proof.
  eexists _, _. split; [vm_compute; reflexivity|]. split; [reflexivity|].
  eapply (copy_removes_only_a_failed_destination 3 false
            [VString "/tmp/a"; VString "/tmp/b"; on_complete]
            (RefFS.mount [("/tmp/a", regular hello)])).
  vm_compute. reflexivity.
Defined.

(** X9: a Move that ends in a failure completion has renamed nothing and
    has called [remove] exactly once, on the destination path; so when
    source and destination are different paths, [remove] was not called on
    the source.  When they are the same path that one call removes the
    source: a Move of a read-only file onto its own path fails at the
    second [open] with EACCES, and the error label deletes the file. *)
Theorem failed_move_removes_only_the_destination :
  (∀ W (P : Posix W) fuel uninit incoming (w w' : W) tr c,
     Move fuel uninit incoming w = Some (tt, w', tr) →
     last tr = Some c →
     is_failure c = true →
     existsb is_rename tr = false ∧
     removed tr = [Destination (parse uninit incoming)] ∧
     (Source (parse uninit incoming) ≠ Destination (parse uninit incoming) →
      Source (parse uninit incoming) ∉ removed tr)) ∧
  (let w0 := RefFS.mount [("/tmp/a", {| RefFS.f_data := hello; RefFS.f_mode := 292 |})] in
   ∃ w',
     Move 1 false [VString "/tmp/a"; VString "/tmp/a"; on_complete] w0
     = Some (tt, w',
             [EOpen "/tmp/a" [O_RDONLY; O_BINARY] None 3;
              EFstat 3 0;
              EOpen "/tmp/a" [O_WRONLY; O_CREAT; O_TRUNC; O_BINARY] (Some 292) (-1);
              EClose 3 0;
              ERemove "/tmp/a" 0;
              ECall (Some 1%nat) [VString "Permission denied"; VBool false]]) ∧
     RefFS.files w' !! "/tmp/a" = None).
Proof.
  split.
  - intros W P fuel uninit incoming w w' tr c Hrun Hlast Hc.
    destruct (failed_move_removes fuel uninit incoming w w' tr c Hrun Hlast Hc)
      as [Hren Hrm].
    split; [done|]. split; [done|].
    rewrite Hrm. intros Hne Hin%list_elem_of_singleton. done.
  - eexists. split; vm_compute; reflexivity.
Qed.

Lemma failed_move_removes_only_the_destination_witness :
  let incoming := [VString "/secret"; VString "/tmp/new"; on_complete] in
  ∃ w' tr,
    Move 1 false incoming (RefFS.mount [("/secret", unreadable hello)])
    = Some (tt, w', tr) ∧
    RefFS.files w' !! "/secret" = Some (unreadable hello) ∧
    existsb is_rename tr = false ∧
    removed tr = [Destination (parse false incoming)] ∧
    (Source (parse false incoming) ≠ Destination (parse false incoming) →
     Source (parse false incoming) ∉ removed tr).
Proof.
  eexists _, _. split; [vm_compute; reflexivity|]. split; [reflexivity|].
  eapply (proj1 failed_move_removes_only_the_destination RefFS.world _ 1%nat false
            [VString "/secret"; VString "/tmp/new"; on_complete]
            (RefFS.mount [("/secret", unreadable hello)])).
  - vm_compute. reflexivity.
  - reflexivity.
  - reflexivity.
Defined.

Lemma copy_flushes_before_success_witness :
  ∃ w' tr,
    Copy 3 false [VString "/tmp/a"; VString "/tmp/b"; on_complete]
      (RefFS.mount [("/tmp/a", regular hello)]) = Some (tt, w', tr) ∧
    fsynced tr = [4] ∧
    ∃ c, last tr = Some c ∧
      if is_failure c then fsynced tr = []
      else ∃ in_ out before r1 r2,
        opened tr = [in_; out] ∧
        tr = before ++ [EClose in_ r1; EFsync out; EClose out r2; c] ∧
        fsynced before = [].
Proof.
  eexists _, _. split; [vm_compute; reflexivity|]. split; [reflexivity|].
  eapply (copy_flushes_before_success 3 false
            [VString "/tmp/a"; VString "/tmp/b"; on_complete]
            (RefFS.mount [("/tmp/a", regular hello)])).
  vm_compute. reflexivity.
Defined.

(** ** The reference file system, call by call *)

Lemma take_drop_length {A} (n : nat) (l : list A) :
  take n l ++ drop (length (take n l)) l = l.
Proof.
  rewrite length_take. destruct (decide (n ≤ length l)%nat) as [Hle|Hgt].
  - rewrite Nat.min_l by done. apply take_drop.
  - rewrite Nat.min_r by lia. rewrite take_ge by lia. rewrite drop_all. apply app_nil_r.
Qed.

Section RefFSFacts.
Import RefFS.

Lemma lookup_fd_Some w fd path off f :
  fds w !! fd = Some (path, off) → files w !! path = Some f →
  lookup_fd fd w = Some (path, off, f).
Proof. unfold lookup_fd. by intros -> ->. Qed.

Lemma file_eta g : {| f_data := f_data g; f_mode := f_mode g |} = g.
Proof. by destruct g. Qed.

(** The read loop on two open descriptors of the reference file system:
    it ends with a read of 0 and has appended the unread part of the source
    to the destination. *)
Lemma RefFS_copy_loop fuel fd_in fd_out inputSize bpu args p s (w : world)
    src dst off f g :
  fd_in ≠ fd_out → src ≠ dst →
  fds w !! fd_in = Some (src, off) →
  fds w !! fd_out = Some (dst, length (f_data g)) →
  files w !! src = Some f →
  files w !! dst = Some g →
  (length (f_data f) - off < fuel)%nat →
  ∃ w' tr,
    Copy_while fuel fd_in fd_out inputSize bpu args p s w = Some (ReadEnded 0, w', tr) ∧
    files w'
    = <[dst := {| f_data := f_data g ++ drop off (f_data f); f_mode := f_mode g |}]> (files w) ∧
    total (chunks_read tr) = Z.of_nat (length (f_data f) - off).
Proof.
  intros Hfd Hpath. revert p s w off g.
  induction fuel as [|fuel IH]; intros p s w off g Hin Hout Hsrc Hdst Hfuel; [lia|].
  rewrite Copy_while_unfold. cbn zeta. cbn [sys_read posix].
  unfold fs_read. rewrite (lookup_fd_Some _ _ _ _ _ Hin Hsrc). cbn [fst snd].
  remember (take (Z.to_nat BUFFER_SIZE) (drop off (f_data f))) as chunk eqn:Hchunk.
  set (w1 := with_fds _ w).
  destruct (decide (chunk = [])) as [Hnil|Hne].
  { rewrite Hnil. cbn. eexists _, _. split; [done|].
    assert (drop off (f_data f) = []) as Hend.
    { apply nil_length_inv. apply (f_equal length) in Hchunk.
      rewrite Hnil, length_take in Hchunk. cbn [length] in Hchunk.
      unfold BUFFER_SIZE in Hchunk. lia. }
    split; [by rewrite Hend, app_nil_r, file_eta, insert_id|].
    apply (f_equal length) in Hend. rewrite length_drop in Hend. cbn in Hend.
    rewrite Hend. done. }
  assert (0 < Z.of_nat (length chunk)) as Hpos by (destruct chunk; [done|cbn; lia]).
  assert (length chunk ≤ Z.to_nat BUFFER_SIZE)%nat as Hmax.
  { rewrite Hchunk, length_take. lia. }
  replace (0 <? Z.of_nat (length chunk)) with true by lia.
  assert (length chunk ≤ length (f_data f) - off)%nat as Hrest.
  { rewrite Hchunk, length_take, length_drop. lia. }
  destruct fuel as [|fuel']; [lia|].
  rewrite doWrite_unfold. cbn zeta. cbn [sys_write posix].
  rewrite Nat2Z.id, firstn_all.
  assert (fds w1 !! fd_out = Some (dst, length (f_data g))) as Hout1.
  { subst w1. cbn. by rewrite lookup_insert_ne by congruence. }
  unfold fs_write. rewrite (lookup_fd_Some w1 _ _ _ g Hout1 Hdst). cbn [fst snd].
  replace (Z.of_nat (length chunk) =? -1) with false by lia.
  unfold to_size_t. rewrite Z.mod_small by (unfold BUFFER_SIZE in Hmax; lia).
  rewrite Z.ltb_irrefl.
  set (g' := {| f_data := take (length (f_data g)) (f_data g) ++ chunk ++
                          drop (length (f_data g) + length chunk) (f_data g);
                f_mode := f_mode g |}).
  set (w2 := with_fds _ (with_files _ w1)).
  assert (f_data g' = f_data g ++ chunk) as Hg'.
  { subst g'. cbn. rewrite firstn_all, drop_ge by lia. by rewrite app_nil_r. }
  assert (∀ p' s', ∃ w' tr,
    Copy_while (S fuel') fd_in fd_out inputSize bpu args p' s' w2
    = Some (ReadEnded 0, w', tr) ∧
    files w'
    = <[dst := {| f_data := f_data g ++ drop off (f_data f); f_mode := f_mode g |}]>
        (files w) ∧
    Z.of_nat (length chunk) + total (chunks_read tr)
    = Z.of_nat (length (f_data f) - off)) as Hrec.
  { intros p' s'.
    destruct (IH p' s' w2 (off + length chunk)%nat g') as (w' & tr & Hrun & Hfiles & Htot).
    - subst w2 w1. cbn [fds files with_fds with_files].
      rewrite lookup_insert_ne by congruence. by rewrite lookup_insert_eq.
    - subst w2 w1. cbn [fds files with_fds with_files].
      rewrite lookup_insert_eq. rewrite Hg', length_app. done.
    - subst w2 w1. cbn [fds files with_fds with_files].
      by rewrite lookup_insert_ne by congruence.
    - subst w2 w1. cbn [fds files with_fds with_files]. by rewrite lookup_insert_eq.
    - lia.
    - exists w', tr. split; [done|]. split; [|lia].
      rewrite Hfiles. subst w2 w1. cbn [files with_fds with_files].
      rewrite insert_insert_eq. f_equal. rewrite Hg'. f_equal.
      rewrite <- app_assoc. f_equal. rewrite <- drop_drop.
      rewrite Hchunk. apply take_drop_length. }
  assert (∀ t, total (chunks_read (ERead fd_in BUFFER_SIZE (Z.of_nat (length chunk)) ::
                                   [EWrite fd_out chunk (Z.of_nat (length chunk))] ++ t))
               = Z.of_nat (length chunk) + total (chunks_read t)) as Hsum.
  { intros t. rewrite chunks_read_cons. cbn [read_chunk].
    replace (0 <? Z.of_nat (length chunk)) with true by lia. done. }
  replace (Z.of_nat (length chunk) =? -1) with false by lia.
  destruct (bpu <? _).
  - destruct (Hrec (p + Z.of_nat (length chunk)) 0) as (w' & tr & -> & Hfiles & Htot).
    eexists _, _. split; [done|]. split; [done|].
    destruct (progress_events_observed args (p + Z.of_nat (length chunk)) inputSize)
      as (_ & Hp & _).
    by rewrite Hsum, chunks_read_app, Hp.
  - destruct (Hrec (p + Z.of_nat (length chunk)) (s + Z.of_nat (length chunk)))
      as (w' & tr & -> & Hfiles & Htot).
    eexists _, _. split; [done|]. split; [done|]. by rewrite Hsum.
Qed.


Lemma fs_open_source w src f :
  src ≠ "" → files w !! src = Some f → Z.testbit (f_mode f) 8 = true →
  fs_open src [O_RDONLY; O_BINARY] None w = allocate src w.
Proof.
  intros Hne%String.eqb_neq Hf Hr. unfold fs_open. rewrite Hne, Hf.
  unfold may_open. cbn -[Z.testbit]. by rewrite Hr.
Qed.

Lemma fs_open_destination w dst mode :
  dst ≠ "" →
  (∀ g, files w !! dst = Some g → Z.testbit (f_mode g) 7 = true) →
  fs_open dst [O_WRONLY; O_CREAT; O_TRUNC; O_BINARY] (Some mode) w
  = allocate dst
      (with_files (<[dst := {| f_data := [];
                               f_mode := from_option f_mode (created_mode (Some mode) w)
                                         (files w !! dst) |}]>
                     (files w)) w).
Proof.
  intros Hne%String.eqb_neq Hw. unfold fs_open. rewrite Hne.
  destruct (files w !! dst) as [g|] eqn:Hg; [|done].
  unfold may_open. cbn -[Z.testbit]. by rewrite (Hw g eq_refl).
Qed.

Lemma fs_fstat_open fd w path off f :
  lookup_fd fd w = Some (path, off, f) →
  fs_fstat fd w
  = ((0, {| st_mode := f_mode f; st_size := Z.of_nat (length (f_data f));
            st_dev := device_of path |}), w).
Proof. unfold fs_fstat. by intros ->. Qed.

Lemma files_close fd w : files (fs_close fd w).2 = files w.
Proof. unfold fs_close. by destruct (fds w !! fd). Qed.

Lemma files_remove path w : files (fs_remove path w).2 = delete path (files w).
Proof.
  unfold fs_remove. destruct (files w !! path) eqn:Hp; [done|].
  cbn. by rewrite delete_id.
Qed.

(** The engine on the two descriptors that the entry points hand it. *)
Lemma RefFS_Copy_fd fuel args removeWhenDone (w : world) src dst f m :
  src ≠ dst →
  files w !! src = Some f →
  (length (f_data f) < fuel)%nat →
  let w3 := opened_pair src dst m w in
  ∃ w' t,
    Copy_fd fuel (next_fd w) (next_fd w + 1) (Z.of_nat (length (f_data f))) args
      removeWhenDone w3 = Some (tt, w', t) ∧
    last t = Some (success_call args) ∧
    files w'
    = (if removeWhenDone then delete (Source args) else id)
        (<[dst := {| f_data := f_data f; f_mode := m |}]> (files w)) ∧
    total (chunks_read t) = Z.of_nat (length (f_data f)).
Proof.
  intros Hpath Hsrc Hfuel w3.
  destruct (RefFS_copy_loop fuel (next_fd w) (next_fd w + 1)
              (Z.of_nat (length (f_data f))) (Z.of_nat (length (f_data f)) `quot` 100)
              args 0 0 w3 src dst 0 f {| f_data := []; f_mode := m |})
    as (wl & tl & Hloop & Hfiles & Htot); try done.
  - lia.
  - subst w3. cbn [fds opened_pair]. rewrite lookup_insert_ne by lia.
    by rewrite lookup_insert_eq.
  - subst w3. cbn [fds opened_pair]. by rewrite lookup_insert_eq.
  - subst w3. cbn [files opened_pair]. by rewrite lookup_insert_ne by congruence.
  - subst w3. cbn [files opened_pair]. by rewrite lookup_insert_eq.
  - lia.
  - unfold Copy_fd. erewrite bind_run by exact Hloop. cbn [Z.eqb].
    rewrite copyDone_run. cbn zeta. eexists _, _. split; [done|].
    split; [|split].
    + by rewrite !app_assoc, last_snoc.
    + cbn [sys_remove sys_close sys_fsync posix].
      assert (files (fs_close (next_fd w + 1) (fs_close (next_fd w) wl).2).2
              = <[dst := {| f_data := f_data f; f_mode := m |}]> (files w)) as Hend.
      { rewrite !files_close, Hfiles. subst w3. cbn [files opened_pair f_data f_mode app drop].
        by rewrite insert_insert_eq. }
      destruct removeWhenDone; [|done]. by rewrite files_remove, Hend.
    + destruct (progress_events_observed args (Z.of_nat (length (f_data f)))
                  (Z.of_nat (length (f_data f)))) as (_ & Hp & _).
      rewrite chunks_read_app, chunks_read_app, Hp.
      match goal with
      | |- total (_ ++ [] ++ chunks_read ?l) = _ =>
          assert (chunks_read l = []) as -> by (by destruct removeWhenDone)
      end.
      by rewrite !app_nil_r, Htot, Nat.sub_0_r.
Qed.


Lemma Copy_body_RefFS fuel args (w : world) f :
  Source args ≠ "" → Destination args ≠ "" → 0 ≤ next_fd w →
  files w !! Source args = Some f →
  Z.testbit (f_mode f) 8 = true →
  (∀ g, files w !! Destination args = Some g → Z.testbit (f_mode g) 7 = true) →
  Copy_body fuel args w =
    match Copy_fd fuel (next_fd w) (next_fd w + 1) (Z.of_nat (length (f_data f))) args
            false
            (opened_pair (Source args) (Destination args)
               (from_option f_mode (created_mode (Some (f_mode f)) w)
                  (files w !! Destination args)) w) with
    | Some (u, w', t) =>
        Some (u, w',
              [EOpen (Source args) [O_RDONLY; O_BINARY] None (next_fd w);
               EFstat (next_fd w) 0;
               EOpen (Destination args) [O_WRONLY; O_CREAT; O_TRUNC; O_BINARY]
                 (Some (f_mode f)) (next_fd w + 1)] ++ t)
    | None => None
    end.
Proof.
  intros Hs Hd Hfd Hf Hr Hw. unfold Copy_body, c_open, c_fstat.
  erewrite bind_run by apply syscall_run. cbn [sys_open posix].
  rewrite (fs_open_source _ _ _ Hs Hf Hr). cbn [allocate fst snd].
  replace (next_fd w <? 0) with false by lia.
  erewrite bind_run by apply syscall_run. cbn [sys_fstat posix].
  erewrite fs_fstat_open
    by (apply lookup_fd_Some; cbn [fds files]; [apply lookup_insert_eq|exact Hf]).
  cbn [fst snd st_mode st_size Z.eqb negb].
  erewrite bind_run by apply syscall_run. cbn [sys_open posix].
  rewrite fs_open_destination by done. cbn [allocate fst snd files fds next_fd with_files].
  replace (next_fd w + 1 <? 0) with false by lia.
  unfold opened_pair.
  by destruct (Copy_fd _ _ _ _ _ _ _) as [[[u w'] t]|].
Qed.

Lemma Move_body_RefFS fuel args (w : world) f :
  Source args ≠ "" → Destination args ≠ "" → 0 ≤ next_fd w →
  files w !! Source args = Some f →
  Z.testbit (f_mode f) 8 = true →
  (∀ g, files w !! Destination args = Some g → Z.testbit (f_mode g) 7 = true) →
  let m := from_option f_mode (created_mode (Some (f_mode f)) w)
             (files w !! Destination args) in
  Move_body fuel args w =
    match Move_dispatch fuel (next_fd w) (next_fd w + 1)
            {| st_mode := f_mode f; st_size := Z.of_nat (length (f_data f));
               st_dev := device_of (Source args) |}
            {| st_mode := m; st_size := 0; st_dev := device_of (Destination args) |}
            args (opened_pair (Source args) (Destination args) m w) with
    | Some (u, w', t) =>
        Some (u, w',
              [EOpen (Source args) [O_RDONLY; O_BINARY] None (next_fd w);
               EFstat (next_fd w) 0;
               EOpen (Destination args) [O_WRONLY; O_CREAT; O_TRUNC; O_BINARY]
                 (Some (f_mode f)) (next_fd w + 1);
               EFstat (next_fd w + 1) 0] ++ t)
    | None => None
    end.
Proof.
  intros Hs Hd Hfd Hf Hr Hw m. unfold Move_body, c_open, c_fstat.
  erewrite bind_run by apply syscall_run. cbn [sys_open posix].
  rewrite (fs_open_source _ _ _ Hs Hf Hr). cbn [allocate fst snd].
  replace (next_fd w <? 0) with false by lia.
  erewrite bind_run by apply syscall_run. cbn [sys_fstat posix].
  erewrite fs_fstat_open
    by (apply lookup_fd_Some; cbn [fds files]; [apply lookup_insert_eq|exact Hf]).
  cbn [fst snd st_mode st_size Z.eqb negb].
  erewrite bind_run by apply syscall_run. cbn [sys_open posix].
  rewrite fs_open_destination by done. cbn [allocate fst snd files fds next_fd with_files].
  replace (next_fd w + 1 <? 0) with false by lia.
  erewrite bind_run by apply syscall_run. cbn [sys_fstat posix].
  erewrite fs_fstat_open
    by (apply lookup_fd_Some; cbn [fds files]; apply lookup_insert_eq).
  cbn [fst snd st_mode st_size Z.eqb negb f_data f_mode length].
  fold m. unfold opened_pair.
  by destruct (Move_dispatch _ _ _ _ _ _ _) as [[[u w'] t]|].
Qed.

Lemma parse_paths uninit src dst rest :
  rejected (VString src :: VString dst :: rest) = None →
  Source (parse uninit (VString src :: VString dst :: rest)) = src ∧
  Destination (parse uninit (VString src :: VString dst :: rest)) = dst ∧
  thrown (VString src :: VString dst :: rest) = [].
Proof.
  intros Hok. unfold parse, thrown. rewrite Hok.
  by destruct (3 <? _).
Qed.

End RefFSFacts.

(** ** Copy and Move on the reference file system *)

(** X13: Copy leaves a faithful copy (reference file system).  For a
    readable source and a destination, another path, that is absent or
    writable, Copy ends in the success completion, and the file system
    differs from the one before at the destination alone: it holds the
    bytes of the source; its mode is its old mode if it existed, and if
    Copy created it, the mode of the source less the bits of the process's
    file mode creation mask ([st_mode & ~umask]: the code passes [st_mode]
    to [open] and never calls [umask] or [chmod]). *)
Theorem copy_leaves_a_faithful_copy fuel uninit src dst rest (w : RefFS.world) f :
  rejected (VString src :: VString dst :: rest) = None →
  src ≠ "" → dst ≠ "" → src ≠ dst →
  0 ≤ RefFS.next_fd w →
  RefFS.files w !! src = Some f →
  Z.testbit (RefFS.f_mode f) 8 = true →
  (∀ g, RefFS.files w !! dst = Some g → Z.testbit (RefFS.f_mode g) 7 = true) →
  (length (RefFS.f_data f) < fuel)%nat →
  ∃ w' tr,
    Copy fuel uninit (VString src :: VString dst :: rest) w = Some (tt, w', tr) ∧
    last tr = Some (ECall (Cast (result_arg (VString src :: VString dst :: rest)))
                      [VNull; VBool true]) ∧
    RefFS.files w'
    = <[dst := {| RefFS.f_data := RefFS.f_data f;
                  RefFS.f_mode := from_option RefFS.f_mode
                                    (Z.ldiff (RefFS.f_mode f) (RefFS.umask w))
                                    (RefFS.files w !! dst) |}]> (RefFS.files w).
Proof.
  intros Hok Hs Hd Hne Hfd Hf Hr Hw Hfuel.
  destruct (parse_paths uninit src dst rest Hok) as (Hsrc & Hdst & Hthrown).
  destruct (parse_accepted uninit _ Hok) as (Hcb & _ & _).
  set (incoming := VString src :: VString dst :: rest) in *.
  set (args := parse uninit incoming) in *.
  unfold Copy. erewrite bind_run by apply Args_new_run. fold args. rewrite Hthrown.
  rewrite (Copy_body_RefFS fuel args w f); rewrite ?Hsrc, ?Hdst; try done.
  destruct (RefFS_Copy_fd fuel args false w src dst f
              (from_option RefFS.f_mode (RefFS.created_mode (Some (RefFS.f_mode f)) w)
                 (RefFS.files w !! dst))
              Hne Hf Hfuel) as (w' & t & -> & Hlast & Hfiles & _).
  eexists _, _. split; [done|]. split; [|done].
  rewrite !last_app, Hlast. unfold success_call. by rewrite Hcb.
Qed.

Lemma copy_leaves_a_faithful_copy_witness :
  let w := RefFS.mount [("/tmp/a", shared hello)] in
  Z.ldiff (RefFS.f_mode (shared hello)) (RefFS.umask w) = 420 ∧
  ∃ w' tr,
    Copy 6 false [VString "/tmp/a"; VString "/tmp/b"; on_complete] w = Some (tt, w', tr) ∧
    last tr = Some (ECall (Cast (result_arg [VString "/tmp/a"; VString "/tmp/b"; on_complete]))
                      [VNull; VBool true]) ∧
    RefFS.files w'
    = <["/tmp/b" := {| RefFS.f_data := RefFS.f_data (shared hello);
                       RefFS.f_mode := from_option RefFS.f_mode
                                         (Z.ldiff (RefFS.f_mode (shared hello))
                                            (RefFS.umask w))
                                         (RefFS.files w !! "/tmp/b") |}]> (RefFS.files w).
Proof.
  split; [reflexivity|].
  apply (copy_leaves_a_faithful_copy 6 false "/tmp/a" "/tmp/b" [on_complete]
           (RefFS.mount [("/tmp/a", shared hello)]) (shared hello)).
  - reflexivity.
  - discriminate.
  - discriminate.
  - discriminate.
  - vm_compute. discriminate.
  - vm_compute. reflexivity.
  - reflexivity.
  - intros g Hg. vm_compute in Hg. discriminate.
  - vm_compute. lia.
Defined.

Lemma files_rename oldpath newpath (w : RefFS.world) f :
  RefFS.files w !! oldpath = Some f →
  RefFS.files (RefFS.fs_rename oldpath newpath w).2
  = <[newpath := f]> (delete oldpath (RefFS.files w)).
Proof. unfold RefFS.fs_rename. by intros ->. Qed.

(** X14: Move across devices (reference file system).  With source and
    destination on different devices, Move ends in the success completion,
    the destination holds the bytes of the source, the source is gone, and
    the mode of the destination is its old mode if it existed and the mode
    of the source less the bits of the file mode creation mask if Move
    created it. *)
Theorem move_across_devices_moves_the_contents fuel uninit src dst rest
    (w : RefFS.world) f :
  rejected (VString src :: VString dst :: rest) = None →
  src ≠ "" → dst ≠ "" →
  RefFS.device_of src ≠ RefFS.device_of dst →
  0 ≤ RefFS.next_fd w →
  RefFS.files w !! src = Some f →
  Z.testbit (RefFS.f_mode f) 8 = true →
  (∀ g, RefFS.files w !! dst = Some g → Z.testbit (RefFS.f_mode g) 7 = true) →
  (length (RefFS.f_data f) < fuel)%nat →
  ∃ w' tr,
    Move fuel uninit (VString src :: VString dst :: rest) w = Some (tt, w', tr) ∧
    last tr = Some (ECall (Cast (result_arg (VString src :: VString dst :: rest)))
                      [VNull; VBool true]) ∧
    RefFS.files w'
    = delete src
        (<[dst := {| RefFS.f_data := RefFS.f_data f;
                     RefFS.f_mode := from_option RefFS.f_mode
                                       (Z.ldiff (RefFS.f_mode f) (RefFS.umask w))
                                       (RefFS.files w !! dst) |}]> (RefFS.files w)).
Proof.
  intros Hok Hs Hd Hdev Hfd Hf Hr Hw Hfuel.
  assert (src ≠ dst) as Hne by (intros ->; done).
  destruct (parse_paths uninit src dst rest Hok) as (Hsrc & Hdst & Hthrown).
  destruct (parse_accepted uninit _ Hok) as (Hcb & _ & _).
  set (incoming := VString src :: VString dst :: rest) in *.
  set (args := parse uninit incoming) in *.
  unfold Move. erewrite bind_run by apply Args_new_run. fold args. rewrite Hthrown.
  rewrite (Move_body_RefFS fuel args w f); rewrite ?Hsrc, ?Hdst; try done.
  unfold Move_dispatch. cbn [st_dev st_size].
  replace (RefFS.device_of src =? RefFS.device_of dst) with false by lia.
  destruct (RefFS_Copy_fd fuel args true w src dst f
              (from_option RefFS.f_mode (RefFS.created_mode (Some (RefFS.f_mode f)) w)
                 (RefFS.files w !! dst))
              Hne Hf Hfuel) as (w' & t & -> & Hlast & Hfiles & _).
  eexists _, _. split; [done|]. split; [|by rewrite Hfiles, Hsrc].
  rewrite !last_app, Hlast. unfold success_call. by rewrite Hcb.
Qed.

Lemma move_across_devices_moves_the_contents_witness :
  let w := RefFS.mount [("/tmp/a", shared hello)] in
  Z.ldiff (RefFS.f_mode (shared hello)) (RefFS.umask w) = 420 ∧
  ∃ w' tr,
    Move 6 false [VString "/tmp/a"; VString "/mnt/b"; on_complete] w = Some (tt, w', tr) ∧
    last tr = Some (ECall (Cast (result_arg [VString "/tmp/a"; VString "/mnt/b"; on_complete]))
                      [VNull; VBool true]) ∧
    RefFS.files w'
    = delete "/tmp/a"
        (<["/mnt/b" := {| RefFS.f_data := RefFS.f_data (shared hello);
                          RefFS.f_mode := from_option RefFS.f_mode
                                            (Z.ldiff (RefFS.f_mode (shared hello))
                                               (RefFS.umask w))
                                            (RefFS.files w !! "/mnt/b") |}]>
           (RefFS.files w)).
Proof.
  split; [reflexivity|].
  apply (move_across_devices_moves_the_contents 6 false "/tmp/a" "/mnt/b" [on_complete]
           (RefFS.mount [("/tmp/a", shared hello)]) (shared hello)).
  - reflexivity.
  - discriminate.
  - discriminate.
  - vm_compute. discriminate.
  - vm_compute. discriminate.
  - vm_compute. reflexivity.
  - reflexivity.
  - intros g Hg. vm_compute in Hg. discriminate.
  - vm_compute. lia.
Defined.

(** X15: Move on one device (reference file system).  With two different
    paths on one device, Move reads and writes nothing; after it the
    destination is the source file, contents and mode, whatever was there
    before, and the source path is gone. *)
Theorem move_on_one_device_renames fuel uninit src dst rest (w : RefFS.world) f :
  rejected (VString src :: VString dst :: rest) = None →
  src ≠ "" → dst ≠ "" → src ≠ dst →
  RefFS.device_of src = RefFS.device_of dst →
  0 ≤ RefFS.next_fd w →
  RefFS.files w !! src = Some f →
  Z.testbit (RefFS.f_mode f) 8 = true →
  (∀ g, RefFS.files w !! dst = Some g → Z.testbit (RefFS.f_mode g) 7 = true) →
  ∃ w' tr,
    Move fuel uninit (VString src :: VString dst :: rest) w = Some (tt, w', tr) ∧
    last tr = Some (ECall (Cast (result_arg (VString src :: VString dst :: rest)))
                      [VNull; VBool true]) ∧
    chunks_read tr = [] ∧ existsb is_write tr = false ∧
    RefFS.files w' = <[dst := f]> (delete src (RefFS.files w)).
Proof.
  intros Hok Hs Hd Hne Hdev Hfd Hf Hr Hw.
  destruct (parse_paths uninit src dst rest Hok) as (Hsrc & Hdst & Hthrown).
  destruct (parse_accepted uninit _ Hok) as (Hcb & _ & _).
  set (incoming := VString src :: VString dst :: rest) in *.
  set (args := parse uninit incoming) in *.
  unfold Move. erewrite bind_run by apply Args_new_run. fold args. rewrite Hthrown.
  rewrite (Move_body_RefFS fuel args w f); rewrite ?Hsrc, ?Hdst; try done.
  set (m := from_option RefFS.f_mode (RefFS.created_mode (Some (RefFS.f_mode f)) w)
              (RefFS.files w !! dst)).
  unfold Move_dispatch. cbn [st_dev st_size].
  replace (RefFS.device_of src =? RefFS.device_of dst) with true by lia.
  run_monad.
  destruct (progress_events_observed args (Z.of_nat (length (RefFS.f_data f)))
              (Z.of_nat (length (RefFS.f_data f)))) as (_ & Hp1 & _ & _ & _).
  assert (existsb is_write (progress_events args (Z.of_nat (length (RefFS.f_data f)))
                              (Z.of_nat (length (RefFS.f_data f)))) = false) as Hp2.
  { unfold progress_events. by destruct (UpdateProgress args). }
  eexists _, _. split; [done|].
  split; [rewrite !app_comm_cons, ?app_assoc, last_snoc; unfold success_call; by rewrite Hcb|].
  change (chunks_read (_ :: _ :: _ :: _ :: _ :: _ :: _ :: _ :: ?l)) with (chunks_read l).
  change (existsb is_write (_ :: _ :: _ :: _ :: _ :: _ :: _ :: _ :: ?l))
    with (existsb is_write l).
  split; [by rewrite !chunks_read_app, Hp1|].
  split; [by rewrite !existsb_app, Hp2|].
  cbn [sys_rename sys_remove sys_close RefFS.posix]. rewrite Hsrc, Hdst.
  rewrite (files_rename _ _ _ f).
  - rewrite files_remove, !files_close. cbn [RefFS.files opened_pair].
    rewrite delete_insert_eq, (delete_delete _ src dst), insert_delete_eq. done.
  - rewrite files_remove, !files_close. cbn [RefFS.files opened_pair].
    rewrite delete_insert_eq, lookup_delete_ne by congruence. done.
Qed.

Lemma move_on_one_device_renames_witness :
  let w := RefFS.mount [("/tmp/a", regular hello); ("/tmp/b", regular [])] in
  ∃ w' tr,
    Move 0 false [VString "/tmp/a"; VString "/tmp/b"; on_complete] w = Some (tt, w', tr) ∧
    last tr = Some (ECall (Cast (result_arg [VString "/tmp/a"; VString "/tmp/b"; on_complete]))
                      [VNull; VBool true]) ∧
    chunks_read tr = [] ∧ existsb is_write tr = false ∧
    RefFS.files w' = <["/tmp/b" := regular hello]> (delete "/tmp/a" (RefFS.files w)).
Proof.
  apply (move_on_one_device_renames 0 false "/tmp/a" "/tmp/b" [on_complete]
           (RefFS.mount [("/tmp/a", regular hello); ("/tmp/b", regular [])])
           (regular hello)).
  - reflexivity.
  - discriminate.
  - discriminate.
  - discriminate.
  - reflexivity.
  - vm_compute. discriminate.
  - vm_compute. reflexivity.
  - reflexivity.
  - intros g Hg. vm_compute in Hg. injection Hg as <-. reflexivity.
Defined.

(** X16: Copy of a file onto itself (reference file system).  Opening the
    destination truncates the file before the first [read]; the read loop
    ends at once, nothing is written, the success completion is made, and
    the file is left empty. *)
Theorem copy_onto_itself_empties_the_file fuel uninit p rest (w : RefFS.world) f :
  rejected (VString p :: VString p :: rest) = None →
  p ≠ "" →
  0 ≤ RefFS.next_fd w →
  RefFS.files w !! p = Some f →
  Z.testbit (RefFS.f_mode f) 8 = true →
  Z.testbit (RefFS.f_mode f) 7 = true →
  (0 < fuel)%nat →
  ∃ w' tr,
    Copy fuel uninit (VString p :: VString p :: rest) w = Some (tt, w', tr) ∧
    last tr = Some (ECall (Cast (result_arg (VString p :: VString p :: rest)))
                      [VNull; VBool true]) ∧
    existsb is_write tr = false ∧
    RefFS.files w'
    = <[p := {| RefFS.f_data := []; RefFS.f_mode := RefFS.f_mode f |}]> (RefFS.files w).
Proof.
  intros Hok Hp Hfd Hf Hr Hw Hfuel.
  destruct (parse_paths uninit p p rest Hok) as (Hsrc & Hdst & Hthrown).
  destruct (parse_accepted uninit _ Hok) as (Hcb & _ & _).
  set (incoming := VString p :: VString p :: rest) in *.
  set (args := parse uninit incoming) in *.
  unfold Copy. erewrite bind_run by apply Args_new_run. fold args. rewrite Hthrown.
  rewrite (Copy_body_RefFS fuel args w f); rewrite ?Hsrc, ?Hdst; try done.
  2:{ intros g Hg. rewrite Hf in Hg. by injection Hg as <-. }
  rewrite Hf. cbn [from_option].
  destruct fuel as [|fuel]; [lia|].
  assert (Copy_while (S fuel) (RefFS.next_fd w) (RefFS.next_fd w + 1)
            (Z.of_nat (length (RefFS.f_data f)))
            (Z.of_nat (length (RefFS.f_data f)) `quot` 100) args 0 0
            (opened_pair p p (RefFS.f_mode f) w)
          = Some (ReadEnded 0,
                  RefFS.with_fds (<[RefFS.next_fd w := (p, 0%nat)]>
                                    (RefFS.fds (opened_pair p p (RefFS.f_mode f) w)))
                    (opened_pair p p (RefFS.f_mode f) w),
                  [ERead (RefFS.next_fd w) BUFFER_SIZE 0])) as Hloop.
  { rewrite Copy_while_unfold. cbn zeta. cbn [sys_read RefFS.posix].
    unfold RefFS.fs_read.
    erewrite (lookup_fd_Some _ _ p 0 {| RefFS.f_data := []; RefFS.f_mode := RefFS.f_mode f |}).
    - done.
    - cbn [RefFS.fds opened_pair]. rewrite lookup_insert_ne by lia. apply lookup_insert_eq.
    - cbn [RefFS.files opened_pair]. apply lookup_insert_eq. }
  unfold Copy_fd. erewrite bind_run by exact Hloop. cbn [Z.eqb].
  rewrite copyDone_run. cbn zeta.
  assert (existsb is_write (progress_events args (Z.of_nat (length (RefFS.f_data f)))
                              (Z.of_nat (length (RefFS.f_data f)))) = false) as Hp2.
  { unfold progress_events. by destruct (UpdateProgress args). }
  eexists _, _. split; [done|].
  split; [rewrite !app_assoc, last_snoc; unfold success_call; by rewrite Hcb|].
  split; [by rewrite !existsb_app, Hp2|].
  cbn [sys_close sys_fsync RefFS.posix]. by rewrite !files_close.
Qed.

Lemma copy_onto_itself_empties_the_file_witness :
  let w := RefFS.mount [("/tmp/a", regular hello)] in
  ∃ w' tr,
    Copy 1 false [VString "/tmp/a"; VString "/tmp/a"; on_complete] w = Some (tt, w', tr) ∧
    last tr = Some (ECall (Cast (result_arg [VString "/tmp/a"; VString "/tmp/a"; on_complete]))
                      [VNull; VBool true]) ∧
    existsb is_write tr = false ∧
    RefFS.files w'
    = <["/tmp/a" := {| RefFS.f_data := []; RefFS.f_mode := RefFS.f_mode (regular hello) |}]>
        (RefFS.files w).
Proof.
  apply (copy_onto_itself_empties_the_file 1 false "/tmp/a" [on_complete]
           (RefFS.mount [("/tmp/a", regular hello)]) (regular hello)).
  - reflexivity.
  - discriminate.
  - vm_compute. discriminate.
  - vm_compute. reflexivity.
  - reflexivity.
  - reflexivity.
  - lia.
Defined.

Lemma fs_open_missing src (w : RefFS.world) :
  RefFS.files w !! src = None →
  RefFS.fs_open src [O_RDONLY; O_BINARY] None w = RefFS.failing (-1) ENOENT w.
Proof.
  intros Hnone. unfold RefFS.fs_open. destruct (String.eqb src ""); [done|].
  by rewrite Hnone.
Qed.

Lemma errno_remove_missing path (w : RefFS.world) :
  RefFS.fs_errno w = ENOENT → RefFS.fs_errno (RefFS.fs_remove path w).2 = ENOENT.
Proof. unfold RefFS.fs_remove. by destruct (RefFS.files w !! path). Qed.

(** X17: a source that does not exist (reference file system).  Copy and
    Move make the same three calls: the failed [open], [remove] of the
    destination, and the failure completion with the text of ENOENT,
    whether or not [remove] found a file; no file is left at the
    destination path. *)
Theorem missing_source_is_reported fuel uninit src dst rest (w : RefFS.world) :
  rejected (VString src :: VString dst :: rest) = None →
  RefFS.files w !! src = None →
  ∃ w' tr,
    Copy fuel uninit (VString src :: VString dst :: rest) w = Some (tt, w', tr) ∧
    Move fuel uninit (VString src :: VString dst :: rest) w = Some (tt, w', tr) ∧
    tr = [EOpen src [O_RDONLY; O_BINARY] None (-1);
          ERemove dst (if RefFS.files w !! dst is Some _ then 0 else -1);
          ECall (Cast (result_arg (VString src :: VString dst :: rest)))
            [VString "No such file or directory"; VBool false]] ∧
    RefFS.files w' = delete dst (RefFS.files w).
Proof.
  intros Hok Hnone.
  destruct (parse_paths uninit src dst rest Hok) as (Hsrc & Hdst & Hthrown).
  destruct (parse_accepted uninit _ Hok) as (Hcb & _ & _).
  set (incoming := VString src :: VString dst :: rest) in *.
  set (args := parse uninit incoming) in *.
  assert (∃ w' tr,
    Copy_body fuel args w = Some (tt, w', tr) ∧
    Move_body fuel args w = Some (tt, w', tr) ∧
    tr = [EOpen src [O_RDONLY; O_BINARY] None (-1);
          ERemove dst (if RefFS.files w !! dst is Some _ then 0 else -1);
          ECall (Cast (result_arg incoming))
            [VString "No such file or directory"; VBool false]] ∧
    RefFS.files w' = delete dst (RefFS.files w)) as (w' & tr & Hc & Hm & Htr & Hfiles).
  { unfold Copy_body, Move_body, c_open.
    rewrite !(bind_run _ _ _ _ _ _ (syscall_run _ _ _)).
    cbn [sys_open RefFS.posix]. rewrite Hsrc, (fs_open_missing _ _ Hnone).
    cbn [RefFS.failing fst snd]. change (-1 <? 0) with true. cbn iota.
    change (moveError args) with (copyByPathError args).
    rewrite copyByPathError_run. cbn zeta. rewrite Hdst.
    cbn [sys_remove sys_errno strerror RefFS.posix app].
    eexists _, _. split; [done|]. split; [done|]. split.
    - unfold failure_call. rewrite Hcb, errno_remove_missing by done.
      unfold RefFS.fs_remove. cbn [RefFS.files].
      by destruct (RefFS.files w !! dst).
    - by rewrite files_remove. }
  exists w', tr. unfold Copy, Move.
  rewrite !(bind_run _ _ _ _ _ _ (Args_new_run _ _ _)). fold incoming args.
  by rewrite Hthrown, Hc, Hm.
Qed.

Lemma missing_source_is_reported_witness :
  let w := RefFS.mount [("/tmp/keep", regular hello)] in
  ∃ w' tr,
    Copy 1 false [VString "/no/such"; VString "/tmp/new"; on_complete] w
    = Some (tt, w', tr) ∧
    Move 1 false [VString "/no/such"; VString "/tmp/new"; on_complete] w
    = Some (tt, w', tr) ∧
    tr = [EOpen "/no/such" [O_RDONLY; O_BINARY] None (-1);
          ERemove "/tmp/new" (if RefFS.files w !! "/tmp/new" is Some _ then 0 else -1);
          ECall (Cast (result_arg [VString "/no/such"; VString "/tmp/new"; on_complete]))
            [VString "No such file or directory"; VBool false]] ∧
    RefFS.files w' = delete "/tmp/new" (RefFS.files w).
Proof.
  apply (missing_source_is_reported 1 false "/no/such" "/tmp/new" [on_complete]
           (RefFS.mount [("/tmp/keep", regular hello)])).
  - reflexivity.
  - vm_compute. reflexivity.
Defined.

Lemma four_arguments_accepted src dst p c rest :
  rejected (VString src :: VString dst :: VFunction p :: VFunction c :: rest) = None ∧
  UpdateProgress (parse false (VString src :: VString dst :: VFunction p :: VFunction c :: rest))
  = true.
Proof.
  unfold parse, rejected. cbn [length arg nth IsString IsFunction negb].
  assert ((Z.of_nat (S (S (S (S (length rest))))) <? 3) = false) as ->
    by (apply Z.ltb_ge; lia).
  assert ((3 <? Z.of_nat (S (S (S (S (length rest)))))) = true) as ->
    by (apply Z.ltb_lt; lia).
  done.
Qed.

(** X18: the progress of a copy with a progress callback (reference file
    system).  The calls are the notifications [(done, size)] to the
    progress callback followed by [(null, true)] to the result callback;
    the [done] values are non-decreasing, lie between 0 and the size of the
    source, end with the size, and are at most 100. *)
Theorem progress_of_a_file_copy fuel uninit src dst p c rest (w : RefFS.world) f :
  src ≠ "" → dst ≠ "" → src ≠ dst →
  0 ≤ RefFS.next_fd w →
  RefFS.files w !! src = Some f →
  Z.testbit (RefFS.f_mode f) 8 = true →
  (∀ g, RefFS.files w !! dst = Some g → Z.testbit (RefFS.f_mode g) 7 = true) →
  (length (RefFS.f_data f) < fuel)%nat →
  let size := Z.of_nat (length (RefFS.f_data f)) in
  ∃ w' tr,
    Copy fuel uninit (VString src :: VString dst :: VFunction p :: VFunction c :: rest) w
    = Some (tt, w', tr) ∧
    callbacks tr
    = ((λ d, (Some p, [VNumber d; VNumber size])) <$> done_values tr) ++
      [(Some c, [VNull; VBool true])] ∧
    StronglySorted Z.le (done_values tr) ∧
    Forall (λ d, 0 ≤ d ≤ size) (done_values tr) ∧
    last (done_values tr) = Some size ∧
    (length (done_values tr) ≤ 100)%nat.
Proof.
  intros Hs Hd Hne Hfd Hf Hr Hw Hfuel size.
  destruct (four_arguments_accepted src dst p c rest) as [Hok _].
  destruct (parse_paths uninit src dst _ Hok) as (Hsrc & Hdst & Hthrown).
  set (incoming := VString src :: VString dst :: VFunction p :: VFunction c :: rest) in *.
  assert (ProgressCallback (parse uninit incoming) = Some p ∧
          ResultCallback (parse uninit incoming) = Some c ∧
          UpdateProgress (parse uninit incoming) = true) as (Hpc & Hrc & Hup).
  { unfold parse. rewrite Hok. subst incoming. cbn [length].
    assert ((3 <? Z.of_nat (S (S (S (S (length rest)))))) = true) as ->
      by (apply Z.ltb_lt; lia).
    done. }
  set (args := parse uninit incoming) in *.
  unfold Copy. erewrite bind_run by apply Args_new_run. fold args. rewrite Hthrown.
  rewrite (Copy_body_RefFS fuel args w f); rewrite ?Hsrc, ?Hdst; try done.
  destruct (RefFS_Copy_fd fuel args false w src dst f
              (from_option RefFS.f_mode (RefFS.created_mode (Some (RefFS.f_mode f)) w)
                 (RefFS.files w !! dst))
              Hne Hf Hfuel) as (w' & t & Hrun & Hlast & _ & Htot).
  rewrite Hrun. eexists _, _. split; [done|].
  change (callbacks ([] ++ [_; _; _] ++ t)) with (callbacks t).
  change (done_values ([] ++ [_; _; _] ++ t)) with (done_values t).
  fold size in Hrun, Htot.
  destruct (Copy_fd_observed _ _ _ _ _ _ _ _ _ _ Hrun)
    as (Hpos & Hsame & Hdone & _ & _ & Hl).
  assert (existsb io_failed t = false) as Hio.
  { rewrite Hlast in Hl. by destruct (existsb io_failed t). }
  rewrite Hio, Hup, (Hsame Hio) in Hdone.
  destruct (notifications_from_sorted (size `quot` 100) 0 0 _ Hpos) as [Hsorted Hbound].
  fold (spec_notifications size (chunks_read t)) in Hsorted, Hbound.
  rewrite Htot in Hbound.
  split.
  { destruct (Copy_fd_callbacks _ _ _ _ _ _ _ _ _ _ Hrun) as (argv & Hcalls & _ & Hargv).
    rewrite Hcalls, (Hargv Hio), (Copy_fd_totals _ _ _ _ _ _ _ _ _ _ Hrun), Hrc.
    rewrite <- list_fmap_compose. unfold progress_call. by rewrite Hpc. }
  split.
  { rewrite Hdone. apply StronglySorted_snoc_le; [done|].
    eapply Forall_impl; [exact Hbound|]. cbn. lia. }
  split.
  { rewrite Hdone. apply Forall_app. split.
    - eapply Forall_impl; [exact Hbound|]. cbn. lia.
    - repeat constructor; lia. }
  split; [by rewrite Hdone, last_snoc|].
  eapply Copy_fd_count; [exact Hrun|lia|lia].
Qed.

Lemma progress_of_a_file_copy_witness :
  let w := RefFS.mount [("/tmp/a", regular hello)] in
  ∃ w' tr,
    Copy 6 false [VString "/tmp/a"; VString "/tmp/b"; VFunction 2; VFunction 1] w
    = Some (tt, w', tr) ∧
    callbacks tr
    = ((λ d, (Some 2%nat, [VNumber d; VNumber 5])) <$> done_values tr) ++
      [(Some 1%nat, [VNull; VBool true])] ∧
    StronglySorted Z.le (done_values tr) ∧
    Forall (λ d, 0 ≤ d ≤ 5) (done_values tr) ∧
    last (done_values tr) = Some 5 ∧
    (length (done_values tr) ≤ 100)%nat.
Proof.
  apply (progress_of_a_file_copy 6 false "/tmp/a" "/tmp/b" 2 1 []
           (RefFS.mount [("/tmp/a", regular hello)]) (regular hello)).
  - discriminate.
  - discriminate.
  - discriminate.
  - vm_compute. discriminate.
  - vm_compute. reflexivity.
  - reflexivity.
  - intros g Hg. vm_compute in Hg. discriminate.
  - vm_compute. lia.
Defined.

Lemma fs_open_protected dst mode (w : RefFS.world) g :
  dst ≠ "" → RefFS.files w !! dst = Some g → Z.testbit (RefFS.f_mode g) 7 = false →
  RefFS.fs_open dst [O_WRONLY; O_CREAT; O_TRUNC; O_BINARY] (Some mode) w
  = RefFS.failing (-1) EACCES w.
Proof.
  intros Hne%String.eqb_neq Hg Hbit. unfold RefFS.fs_open. rewrite Hne, Hg.
  unfold RefFS.may_open. cbn -[Z.testbit]. by rewrite Hbit.
Qed.

(** X19: a destination that may not be written (reference file system).
    For a readable source and an existing destination, another path, whose
    owner-write bit is clear, Copy and Move make the same calls: the second
    [open] fails with EACCES, the source descriptor is closed, [remove]
    deletes the destination, and the failure completion carries the text of
    EACCES; the source is unchanged. *)
Theorem protected_destination_is_removed fuel uninit src dst rest (w : RefFS.world) f g :
  rejected (VString src :: VString dst :: rest) = None →
  src ≠ "" → dst ≠ "" → src ≠ dst →
  0 ≤ RefFS.next_fd w →
  RefFS.files w !! src = Some f →
  Z.testbit (RefFS.f_mode f) 8 = true →
  RefFS.files w !! dst = Some g →
  Z.testbit (RefFS.f_mode g) 7 = false →
  ∃ w' tr,
    Copy fuel uninit (VString src :: VString dst :: rest) w = Some (tt, w', tr) ∧
    Move fuel uninit (VString src :: VString dst :: rest) w = Some (tt, w', tr) ∧
    tr = [EOpen src [O_RDONLY; O_BINARY] None (RefFS.next_fd w);
          EFstat (RefFS.next_fd w) 0;
          EOpen dst [O_WRONLY; O_CREAT; O_TRUNC; O_BINARY] (Some (RefFS.f_mode f)) (-1);
          EClose (RefFS.next_fd w) 0;
          ERemove dst 0;
          ECall (Cast (result_arg (VString src :: VString dst :: rest)))
            [VString "Permission denied"; VBool false]] ∧
    RefFS.files w' = delete dst (RefFS.files w).
Proof.
  intros Hok Hs Hd Hne Hfd Hf Hr Hg Hbit.
  destruct (parse_paths uninit src dst rest Hok) as (Hsrc & Hdst & Hthrown).
  destruct (parse_accepted uninit _ Hok) as (Hcb & _ & _).
  set (incoming := VString src :: VString dst :: rest) in *.
  set (args := parse uninit incoming) in *.
  assert (∃ w' tr,
    Copy_body fuel args w = Some (tt, w', tr) ∧
    Move_body fuel args w = Some (tt, w', tr) ∧
    tr = [EOpen src [O_RDONLY; O_BINARY] None (RefFS.next_fd w);
          EFstat (RefFS.next_fd w) 0;
          EOpen dst [O_WRONLY; O_CREAT; O_TRUNC; O_BINARY] (Some (RefFS.f_mode f)) (-1);
          EClose (RefFS.next_fd w) 0;
          ERemove dst 0;
          ECall (Cast (result_arg incoming)) [VString "Permission denied"; VBool false]] ∧
    RefFS.files w' = delete dst (RefFS.files w)) as (w' & tr & Hc & Hm & Htr & Hfiles).
  { unfold Copy_body, Move_body, c_open, c_fstat, c_close.
    rewrite !(bind_run _ _ _ _ _ _ (syscall_run _ _ _)).
    cbn [sys_open RefFS.posix]. rewrite Hsrc, Hdst.
    rewrite (fs_open_source _ _ _ Hs Hf Hr). cbn [RefFS.allocate fst snd].
    replace (RefFS.next_fd w <? 0) with false by lia.
    rewrite !(bind_run _ _ _ _ _ _ (syscall_run _ _ _)).
    cbn [sys_fstat RefFS.posix].
    erewrite fs_fstat_open
      by (apply lookup_fd_Some; cbn [RefFS.fds RefFS.files]; [apply lookup_insert_eq|exact Hf]).
    cbn [fst snd st_mode st_size Z.eqb negb].
    rewrite !(bind_run _ _ _ _ _ _ (syscall_run _ _ _)).
    cbn [sys_open RefFS.posix].
    rewrite (fs_open_protected dst _ _ g) by done.
    cbn [RefFS.failing fst snd]. change (-1 <? 0) with true. cbn iota.
    rewrite !(bind_run _ _ _ _ _ _ (syscall_run _ _ _)).
    change (moveError args) with (copyByPathError args).
    rewrite copyByPathError_run. cbn zeta. rewrite Hdst.
    cbn [sys_close sys_remove sys_errno strerror RefFS.posix].
    unfold RefFS.fs_close. cbn [RefFS.fds]. rewrite lookup_insert_eq.
    cbn [fst snd]. unfold RefFS.fs_remove. cbn [RefFS.files RefFS.with_fds]. rewrite Hg.
    cbn [fst snd app]. unfold failure_call. rewrite Hcb.
    eexists _, _. split; [done|]. split; [done|]. split; [done|]. done. }
  exists w', tr. unfold Copy, Move.
  rewrite !(bind_run _ _ _ _ _ _ (Args_new_run _ _ _)). fold incoming args.
  by rewrite Hthrown, Hc, Hm.
Qed.

Lemma protected_destination_is_removed_witness :
  let w := RefFS.mount [("/tmp/a", regular hello);
                        ("/tmp/b", {| RefFS.f_data := hello; RefFS.f_mode := 292 |})] in
  ∃ w' tr,
    Copy 1 false [VString "/tmp/a"; VString "/tmp/b"; on_complete] w = Some (tt, w', tr) ∧
    Move 1 false [VString "/tmp/a"; VString "/tmp/b"; on_complete] w = Some (tt, w', tr) ∧
    tr = [EOpen "/tmp/a" [O_RDONLY; O_BINARY] None (RefFS.next_fd w);
          EFstat (RefFS.next_fd w) 0;
          EOpen "/tmp/b" [O_WRONLY; O_CREAT; O_TRUNC; O_BINARY]
            (Some (RefFS.f_mode (regular hello))) (-1);
          EClose (RefFS.next_fd w) 0;
          ERemove "/tmp/b" 0;
          ECall (Cast (result_arg [VString "/tmp/a"; VString "/tmp/b"; on_complete]))
            [VString "Permission denied"; VBool false]] ∧
    RefFS.files w' = delete "/tmp/b" (RefFS.files w).
Proof.
  apply (protected_destination_is_removed 1 false "/tmp/a" "/tmp/b" [on_complete]
           (RefFS.mount [("/tmp/a", regular hello);
                         ("/tmp/b", {| RefFS.f_data := hello; RefFS.f_mode := 292 |})])
           (regular hello) {| RefFS.f_data := hello; RefFS.f_mode := 292 |}).
  - reflexivity.
  - discriminate.
  - discriminate.
  - discriminate.
  - vm_compute. discriminate.
  - vm_compute. reflexivity.
  - reflexivity.
  - vm_compute. reflexivity.
  - reflexivity.
Defined.

(** ** Runs return: an instance *)

Lemma runs_return_witness :
  let replies := [Script.ok 3; Script.stats 420 5 1; Script.ok 4; Script.bytes hello] in
  (∃ w' tr, Copy 5 false [VString "/tmp/a"; VString "/tmp/b"; on_complete]
              (Script.start replies (Script.fails EIO)) = Some (tt, w', tr)) ∧
  (∃ w' tr, Move 5 false [VString "/tmp/a"; VString "/tmp/b"; on_complete]
              (Script.start replies (Script.fails EIO)) = Some (tt, w', tr)).
Proof.
  apply (runs_return [Script.ok 3; Script.stats 420 5 1; Script.ok 4; Script.bytes hello]
           EIO 5 false [VString "/tmp/a"; VString "/tmp/b"; on_complete]).
  cbn. lia.
Defined.
